(* ===== verification/_CoqProject ===== *)
-Q . S2P
Prelude.v
Engine.v
QueueIntf.v
FrameQueue.v
Format.v
Timestamp.v
Session.v
Lifecycle.v
SessionSpec.v
System.v
Consumer.v
Progress.v
