(* ===== verification/Prelude.v ===== *)
(** * A verification of NVEnc's CUVID decode orchestration layer

    Source: [src/NVEncCore/src/CuvidDecode.cpp] (class [CuvidDecode]).

    ** The program

    [CuvidDecode] drives NVIDIA's CUVID hardware decoder (the "engine",
    nvcuvid).  A feeder calls [DecodePacket] with compressed packets; inside
    [cuvidParseVideoData] the engine calls back, re-entrantly, into the
    session through the static adapters [HandleVideoSequence],
    [HandlePictureDecode] and [HandlePictureDisplay], which forward to
    [DecVideoSequence] (format negotiation), [DecPictureDecode] (wait for
    the target surface, then [cuvidDecodePicture]) and [DecPictureDisplay]
    (publish the picture into the frame queue, count it).  A consumer drains
    the frame queue ([CUVIDFrameQueue], declared outside [src/]).  Every
    call into the engine is wrapped in [__try/__except(1)], which turns a
    structured exception into [CUDA_ERROR_UNKNOWN].  [InitDecode] builds
    the session, [FlushParser] sends end-of-stream and ends the queue,
    [CloseDecoder] tears everything down.

    ** The library (files in dependency order)

    - [Prelude] (this file): machine-width integers ([uint32_t] truncation
      [wrap_u32], [short] casts [to_short], the [int64_t] range), the
      [exec] result type (a value, or [Crash] for undefined behaviour such
      as a null-pointer dereference) with its notation in [cuvid_scope],
      the [cuvid] hint database and shared list lemmas.
    - [Engine]: the data the engine exchanges with the session
      ([CUVIDEOFORMAT], [CUVIDPICPARAMS], [CUVIDPARSERDISPINFO],
      [CUVIDSOURCEDATAPACKET], the [CUresult] codes), the structured-fault
      guard [seh_guard], the engine calls ([api_call]) and the engine's
      side of a [cuvidParseVideoData] call as a finite program of
      callbacks [parse_prog] whose continuations receive the callbacks'
      return values.  The engine is external: its behaviour is an input
      of every theorem.
    - [QueueIntf]: what the session needs from [CUVIDFrameQueue]: the
      typeclass [FrameQueue] ([fq_new], [fq_wait], [fq_enqueue], [fq_end])
      and its laws [FrameQueueLaws].  The session's theorems are proved
      against this interface.
    - [FrameQueue] (Module [Pool]): the frame-slot pool modelled from the
      spec, since the class is not under [src/]: slots
      [Free]/[Reserved]/[Ready], available count, FIFO of published
      slots, end-of-stream flag; [pool_reserve], [pool_publish],
      [pool_take], [pool_release], [pool_end]; the invariant [pool_wf] and
      its preservation; runs of operations ([pool_run]) and their FIFO
      order; the instance of [QueueIntf] with its laws.
    - [Format]: [DecVideoSequence] (lines 90-107) over the cached
      [CUVIDDECODECREATEINFO], and its theorems.
    - [Timestamp]: [av_rescale_q] (libavutil, from its documentation) and
      the packet [DecodePacket] builds (lines 263-272), and its theorems.
    - [Session]: the [CuvidDecode] object as a record, the constructor,
      [CloseDecoder], the callbacks with their adapters, the interpreter
      [run_parse] of a [cuvidParseVideoData] call (it stops at a decode
      callback that waits, [PRBlocked], and [resume] continues it),
      [DecVideoData], [FlushParser] and [DecodePacket], generic over any
      [FrameQueue]; and their theorems, built on [keeps], what a run of
      callbacks preserves.
    - [Lifecycle]: [CreateDecoder] and [InitDecode] as five phases (the
      early returns of lines 147-237), the capability probe
      [check_if_nvcuvid_dll_available] (lines 15-22, over what
      [LoadLibrary] returns), the decoder's parameters [make_create_info]
      and the header copy [copy_seqhdr]; theorems on every branch.
    - [SessionSpec]: the spec's lifecycle (section 4.2) as a labelled step
      relation [lc_step] on closed/running/draining; the abstraction [abs]
      reading the object's state from its frame queue; a client
      ([client_step], [run_client]) calling [InitDecode], [DecodePacket],
      [CloseDecoder] and the destructor [CuvidDecode_delete] (lines 52-54);
      the well-formedness invariant [session_wf] of the object.
    - [System] (Module [System]): the feeder, the engine's callbacks and
      the consumer over one queue (the pool, with a record of the
      operations performed on it), as a step relation [sys_step] from the
      states a successful [InitDecode] starts; the consumer records the
      surfaces and the display records it takes; invariants of every
      reachable state by rule induction.
    - [Consumer] (Module [Consumer]): the consumer's loop of section 6
      ([take_ready], read, [release], until [EndOfStream]) as a function
      with fuel, [consumer_loop], and its termination.
    - [Progress] (Module [Progress]): a feeder waiting in a decode
      callback, by the state of the surface it waits for: the consumer's
      steps alone ([consumer_step]) end a wait for a [Ready] surface; a
      wait for a [Reserved] surface ([waits_reserved]) is kept by every
      step of the system.

    ** Theorems, by group

    - interleaving ([System], [Consumer]): the queue is the pool its
      operations produce, so its invariant and available count hold; FIFO
      from the display callbacks to the consumer, of the surfaces and of
      their display records; a surface in use makes a decode
      callback wait; a release wakes it; after a flush the consumer drains
      and sees end of stream, and the consumer's loop terminates; the
      feeder never crashes; along every run the error flag stays set once
      set and the consumer's output only grows; the queue never holds
      more than the [Ready]
      surfaces, so the feeder is at most [cnMaximumSize] frames ahead;
    - progress ([Progress]): the consumer alone unblocks a feeder waiting
      for a published surface; a feeder waiting for a surface it reserved
      and has not displayed waits forever (a deadlock the code cannot
      cancel, recorded as a finding);
    - against the spec ([SessionSpec]): refinement, every run of the
      client is a run of the spec's lifecycle as long as the engine's
      creation calls and header parse succeed; the object's
      well-formedness holds after every call whatever the engine does;
    - feeding ([Session]): no null dereference while the queue exists,
      with the queue moved only by queue operations and the sticky error
      flag kept; [DecodePacket] of an empty payload is [FlushParser] and
      ends the queue; the fault guard; every branch of the callbacks;
      [CloseDecoder]'s order and idempotence;
    - lifecycle ([Lifecycle]): every branch of [InitDecode], the context
      lock bracketing exactly the decoder's creation, the state a success
      leaves, the round trip of the sequence header into the first packet;
    - format negotiation ([Format]): the comparison is equivalent to the
      decidable equality of the four compared fields; timestamps
      ([Timestamp]): the round trip of a stream timestamp through the
      engine's 100 ns base, and the bounds of the packet's fields (the
      [uint32_t] size, a timestamp that overflows becoming the
      [AV_NOPTS_VALUE] sentinel while flagged as valid);
    - pool ([FrameQueue]): invariant, FIFO, reserve on every branch, no
      reserve after end, drain after end, the spec's scenario;
    - findings proved as theorems (see PROJECT.json): flush after close
      dereferences a null queue; a decode failure does not wake the
      consumer; the decode callback ignores the wait's result; partial
      resources after a failed [InitDecode]; the 4:2:0 chroma and the
      display area of [make_create_info]; the unchecked header copy (too
      large or negative sizes); the uncancellable wait for a reserved
      surface; the overflowed timestamp submitted as the sentinel.

    ** Bounds and fuel

    The engine's side of a parse call is an inductive (finite) program, so
    the interpreter is structural and total; blocking is a result, not
    divergence, and the interleaving of [System] is a relation whose
    theorems hold for runs of any length.  The consumer's loop is the one
    definition with fuel, one round per [take_ready]: the termination
    theorem shows that the number of queued surfaces plus one round (for
    [EndOfStream]) is enough, and that any larger fuel returns too.  The pool has
    [cnMaximumSize] = 20 surfaces, the session's constant.  Integer widths follow the declarations of the SDK headers:
    [ulWidth]/[ulHeight] are [unsigned long] (32 bits on Windows),
    [payload_size] is [uint32_t], [display_area] fields are [short],
    timestamps are [int64_t].

    ** Not modelled

    Logging text ([AddMessage]) is kept only as a list of levels and
    messages: the formatting of its arguments and the logger object are
    outside [src/] and not modelled.  The decode engine (nvcuvid) is an
    external library: only its answers (result codes, faults, the
    callbacks of a parse call) are modelled, as inputs.  The loader is
    modelled only by what [LoadLibrary] returns.  The CUDA context lock
    is modelled only by the order of the lock and unlock calls in the
    engine-call trace; GPU memory and pixel data are not modelled.
    Simplifications that no theorem depends on: [m_decodedFrames] is an
    unbounded [nat] (the C [int] would overflow after 2^31 frames); a
    structured exception in the unguarded [cuvidCreateVideoParser] is not
    expressible ([create_parser_result] is a result code); a wait on an
    index outside the pool ([WaitInvalid]) lets the decode callback go on,
    since the real class is outside [src/]; the parser parameters of
    lines 176-185 are not modelled, only the creation call.
    [HandleVideoData] (lines 25-28) is modelled but never registered
    with the parser, so no theorem runs it. *)

From stdpp Require Export base list options sets.
From Stdlib Require Export ZArith Lia.

Declare Scope cuvid_scope.
Delimit Scope cuvid_scope with cuvid.

Create HintDb cuvid discriminated.
Create Rewrite HintDb cuvid.

(** ** Machine-width integers *)

Section Ints.
Local Open Scope Z_scope.

Definition INT64_MIN : Z := - 2 ^ 63.
Definition INT64_MAX : Z := 2 ^ 63 - 1.

(** The value a C conversion to [uint32_t] keeps. *)
Definition wrap_u32 (z : Z) : Z := z mod 2 ^ 32.

(** The value a C conversion to [short] (16-bit two's complement) keeps. *)
Definition to_short (z : Z) : Z := (z + 2 ^ 15) mod 2 ^ 16 - 2 ^ 15.

Lemma wrap_u32_range z : 0 <= wrap_u32 z < 2 ^ 32.
Proof. unfold wrap_u32. apply Z.mod_pos_bound. lia. Qed.

Lemma wrap_u32_id z : 0 <= z < 2 ^ 32 -> wrap_u32 z = z.
Proof. intros H. unfold wrap_u32. apply Z.mod_small. lia. Qed.

Lemma to_short_range z : - 2 ^ 15 <= to_short z < 2 ^ 15.
Proof.
  unfold to_short. pose proof (Z.mod_pos_bound (z + 2 ^ 15) (2 ^ 16)). lia.
Qed.

Lemma to_short_id z : - 2 ^ 15 <= z < 2 ^ 15 -> to_short z = z.
Proof. intros H. unfold to_short. rewrite Z.mod_small; lia. Qed.

End Ints.

#[export] Hint Resolve wrap_u32_range to_short_range : cuvid.

(** ** Results of the session's operations

    A method either returns (with the object's new state and its return
    value) or reaches undefined behaviour, which the model records as
    [Crash] with the reason. *)

Inductive crash_reason :=
| NullFrameQueue      (** [m_pFrameQueue->...] with [m_pFrameQueue == nullptr] *)
| SeqHdrOverflow.     (** [memcpy] past [raw_seqhdr_data] *)

#[export] Instance crash_reason_eq_dec : EqDecision crash_reason.
Proof. solve_decision. Defined.

Inductive exec (S A : Type) :=
| Done (s : S) (a : A)
| Crash (why : crash_reason).
Arguments Done {S A} s a.
Arguments Crash {S A} why.

Definition exec_bind {S A B} (m : exec S A) (k : S -> A -> exec S B) : exec S B :=
  match m with
  | Done s a => k s a
  | Crash why => Crash why
  end.

Notation "'let!' ( s , x ) := m 'in' k" := (exec_bind m (fun s x => k))
  (at level 10, s name, x name, m at level 100, k at level 200) : cuvid_scope.

Definition is_crash {S A} (m : exec S A) : bool :=
  match m with Crash _ => true | Done _ _ => false end.

Lemma exec_bind_done {S A B} (s : S) (a : A) (k : S -> A -> exec S B) :
  exec_bind (Done s a) k = k s a.
Proof. reflexivity. Qed.

Lemma exec_bind_crash {S A B} why (k : S -> A -> exec S B) :
  exec_bind (Crash why) k = Crash why.
Proof. reflexivity. Qed.

#[export] Hint Rewrite @exec_bind_done @exec_bind_crash : cuvid.

(** ** Shared list lemmas *)

Lemma list_lookup_insert_case {A} (l : list A) i j x :
  <[i := x]> l !! j = if decide (i = j ∧ i < length l) then Some x else l !! j.
Proof.
  case_decide as Hd.
  - destruct Hd as [-> Hlt]. by apply list_lookup_insert_eq.
  - destruct (decide (i = j)) as [->|Hne].
    + rewrite list_insert_ge; [done | lia].
    + by apply list_lookup_insert_ne.
Qed.

Lemma length_filter_insert {A} (P : A -> Prop) `{!∀ x, Decision (P x)}
    (l : list A) i x y :
  l !! i = Some y ->
  length (filter P (<[i := x]> l)) + (if decide (P y) then 1 else 0)
  = length (filter P l) + (if decide (P x) then 1 else 0).
Proof.
  revert i. induction l as [|z l IH]; intros [|i] Hi; simplify_eq/=.
  - rewrite !filter_cons. repeat case_decide; simpl; lia.
  - rewrite !filter_cons. specialize (IH i Hi).
    repeat case_decide; simpl; lia.
Qed.

Ltac exec_simpl := repeat (autorewrite with cuvid in *; simpl in *).
