(* ===== verification/Engine.v ===== *)
(** * The decode engine (nvcuvid) as seen from [CuvidDecode.cpp]

    The data the engine and the session exchange, reduced to the fields
    [CuvidDecode.cpp] reads or writes; the [CUresult] codes it uses; the
    structured-fault guard ([__try { ... } __except(1) { ... }]); the
    engine's side of one [cuvidParseVideoData] call as a finite program of
    callbacks; and the trace of engine API calls the session makes.  The
    engine itself is not part of the repository: its behaviour is an input
    of the theorems, never assumed. *)

From S2P Require Import Prelude.
From stdpp Require Import strings.

Local Open Scope Z_scope.

(** ** [CUresult] codes used by the file (values of [cuda.h]) *)

Definition CUresult := Z.
Definition CUDA_SUCCESS : CUresult := 0.
Definition CUDA_ERROR_OUT_OF_MEMORY : CUresult := 2.
Definition CUDA_ERROR_NOT_FOUND : CUresult := 500.
Definition CUDA_ERROR_UNKNOWN : CUresult := 999.

(** ** Enumerations of [cuviddec.h] *)

Inductive cudaVideoCodec :=
| cudaVideoCodec_MPEG1 | cudaVideoCodec_MPEG2 | cudaVideoCodec_MPEG4
| cudaVideoCodec_VC1 | cudaVideoCodec_H264 | cudaVideoCodec_JPEG
| cudaVideoCodec_H264_SVC | cudaVideoCodec_H264_MVC | cudaVideoCodec_HEVC
| cudaVideoCodec_VP8 | cudaVideoCodec_VP9.

Inductive cudaVideoChromaFormat :=
| cudaVideoChromaFormat_Monochrome | cudaVideoChromaFormat_420
| cudaVideoChromaFormat_422 | cudaVideoChromaFormat_444.

#[export] Instance cudaVideoCodec_eq_dec : EqDecision cudaVideoCodec.
Proof. solve_decision. Defined.
#[export] Instance cudaVideoChromaFormat_eq_dec : EqDecision cudaVideoChromaFormat.
Proof. solve_decision. Defined.

(** ** Structures passed through the callbacks *)

(** [CUVIDEOFORMAT]: the fields [DecVideoSequence] compares, and the
    sequence-header length [InitDecode] writes. *)
Record CUVIDEOFORMAT := {
  codec : cudaVideoCodec;
  coded_width : Z;          (** unsigned int *)
  coded_height : Z;         (** unsigned int *)
  chroma_format : cudaVideoChromaFormat;
  seqhdr_data_length : Z    (** unsigned int *)
}.

(** [CUVIDPICPARAMS]: [DecPictureDecode] reads only the target surface. *)
Record CUVIDPICPARAMS := { CurrPicIdx : Z }.

(** [CUVIDPARSERDISPINFO]: the picture the parser hands to display. *)
Record CUVIDPARSERDISPINFO := {
  picture_index : Z;
  progressive_frame : bool;
  top_field_first : bool;
  repeat_first_field : Z;
  timestamp : Z             (** CUvideotimestamp, 64 bits *)
}.

(** [CUVIDSOURCEDATAPACKET]; the payload is the byte list it points to
    (the empty list for a null pointer). *)
Record CUVIDSOURCEDATAPACKET := {
  flags : Z;                (** unsigned long *)
  payload_size : Z;         (** unsigned long *)
  payload : list Byte.byte;
  pkt_timestamp : Z
}.

Definition CUVID_PKT_ENDOFSTREAM : Z := 1.
Definition CUVID_PKT_TIMESTAMP : Z := 2.

Definition zero_packet : CUVIDSOURCEDATAPACKET :=
  {| flags := 0; payload_size := 0; payload := []; pkt_timestamp := 0 |}.

(** ** Engine calls that may raise a structured exception *)

Inductive engine_ret (A : Type) :=
| ERet (a : A)
| EFault.
Arguments ERet {A} a.
Arguments EFault {A}.

(** [__try { r = call(); } __except(1) { AddMessage(...); r = CUDA_ERROR_UNKNOWN; }]:
    the result, and whether the handler ran (and logged). *)
Definition seh_guard (r : engine_ret CUresult) : CUresult * bool :=
  match r with
  | ERet c => (c, false)
  | EFault => (CUDA_ERROR_UNKNOWN, true)
  end.

(** ** One [cuvidParseVideoData] call, engine side

    A finite program: the engine calls the sequence, decode or display
    callback and continues with the callback's [int] return value, or
    ends by returning a [CUresult] or raising a structured exception.  At
    a decode callback the program also fixes the outcome of the
    [cuvidDecodePicture] call the callback will make. *)
Inductive parse_prog :=
| PEnd (r : engine_ret CUresult)
| PSequence (fmt : CUVIDEOFORMAT) (k : Z -> parse_prog)
| PDecode (pp : CUVIDPICPARAMS) (dec : engine_ret CUresult) (k : Z -> parse_prog)
| PDisplay (di : CUVIDPARSERDISPINFO) (k : Z -> parse_prog).

(** ** Engine API calls made by the session, in order *)

Inductive api_call :=
| ACreateVideoParser
| ADestroyVideoParser
| ACreateDecoder
| ADestroyDecoder
| ACtxLock
| ACtxUnlock
| AParseVideoData (pkt : CUVIDSOURCEDATAPACKET)
| ADecodePicture (idx : Z).

(** ** Log records of [AddMessage] *)

Inductive log_level := NV_LOG_TRACE | NV_LOG_DEBUG | NV_LOG_INFO | NV_LOG_WARN | NV_LOG_ERROR.

#[export] Instance log_level_eq_dec : EqDecision log_level.
Proof. solve_decision. Defined.

Definition log_entry : Type := log_level * string.
