(* ===== verification/QueueIntf.v ===== *)
(** * What the session needs from the frame queue

    [CuvidDecode.cpp] calls four members of [CUVIDFrameQueue]: the
    constructor with [init(width, height)], [waitUntilFrameAvailable],
    [enqueue] and [endDecode].  This file states them as a typeclass, with
    the laws the session's theorems rely on; [FrameQueue.v] gives the
    instance for the pool modelled from the spec and discharges the laws. *)

From S2P Require Import Prelude Engine.

(** [FrameQueue::cnMaximumSize], the number of decode surfaces the
    session asks the parser and the decoder for. *)
Definition cnMaximumSize : nat := 20.

(** Outcome of waiting for (reserving) a decode surface. *)
Inductive wait_result (Q : Type) :=
| WaitOk (q : Q)        (** the surface was free; it is now reserved *)
| WaitEnded             (** the queue was ended: returns without waiting *)
| WaitInvalid           (** no such surface *)
| WaitBlocked.          (** the surface is in use: the caller waits *)
Arguments WaitOk {Q} q.
Arguments WaitEnded {Q}.
Arguments WaitInvalid {Q}.
Arguments WaitBlocked {Q}.

Class FrameQueue (Q : Type) := {
  fq_new : Z -> Z -> Q;                                (** new + init(width, height) *)
  fq_wait : Q -> Z -> wait_result Q;                   (** waitUntilFrameAvailable *)
  fq_enqueue : Q -> CUVIDPARSERDISPINFO -> option Q;   (** enqueue; None: InvalidState *)
  fq_end : Q -> Q;                                     (** endDecode *)
  fq_is_ended : Q -> bool
}.

Class FrameQueueLaws (Q : Type) `{!FrameQueue Q} := {
  fq_new_not_ended w h : fq_is_ended (fq_new w h) = false;
  fq_end_is_ended q : fq_is_ended (fq_end q) = true;
  fq_wait_when_ended q i : fq_is_ended q = true -> fq_wait q i = WaitEnded;
  fq_wait_keeps_ended q i q' : fq_wait q i = WaitOk q' -> fq_is_ended q' = fq_is_ended q;
  fq_enqueue_keeps_ended q d q' : fq_enqueue q d = Some q' -> fq_is_ended q' = fq_is_ended q
}.

#[export] Hint Resolve fq_end_is_ended fq_new_not_ended : cuvid.
