(* ===== verification/FrameQueue.v ===== *)
(** * The frame-slot pool ([CUVIDFrameQueue])

    The class is declared outside [src/]; this model follows the contract
    of the spec (section 4.1): a fixed array of decode surfaces, each
    [Free], [Reserved] (for decoding) or [Ready] (for display), the count
    of free surfaces, the FIFO of published surfaces and the end-of-stream
    flag.  Blocking is a result ([WaitBlocked], [TakeBlocked]) that leaves
    the pool unchanged: the caller waits and tries again.

    Contents: the data and its operations, the well-formedness invariant
    [pool_wf] and its preservation by every operation, runs of operations
    and the FIFO theorems (of the slots and of their display records), the
    end-of-stream behaviour, and the instance of
    the session's [FrameQueue] interface. *)

From S2P Require Import Prelude Engine QueueIntf.

Module Pool.

Inductive slot_state := Free | Reserved | Ready.

#[export] Instance slot_state_eq_dec : EqDecision slot_state.
Proof. solve_decision. Defined.

Record frame_slot := {
  fs_state : slot_state;
  fs_info : CUVIDPARSERDISPINFO       (** timestamp and field metadata *)
}.

Definition no_info : CUVIDPARSERDISPINFO :=
  {| picture_index := 0; progressive_frame := false; top_field_first := false;
     repeat_first_field := 0; timestamp := 0 |}.

Definition free_slot : frame_slot := {| fs_state := Free; fs_info := no_info |}.

Record pool := {
  p_capacity : nat;
  p_width : Z;
  p_height : Z;
  p_slots : list frame_slot;
  p_available : nat;
  p_queue : list nat;          (** published, not yet taken; oldest first *)
  p_ended : bool
}.

Definition pool_make (cap : nat) (w h : Z) : pool :=
  {| p_capacity := cap; p_width := w; p_height := h;
     p_slots := replicate cap free_slot; p_available := cap;
     p_queue := []; p_ended := false |}.

Inductive alloc_error := AllocationError.

(** [initialize(capacity, width, height)]. *)
Definition pool_init (cap : nat) (w h : Z) : alloc_error + pool :=
  if decide (cap = 0) then inl AllocationError else inr (pool_make cap w h).

(** The slot a C [int] index designates, if any. *)
Definition slot_index (p : pool) (i : Z) : option nat :=
  if decide (0 <= i < Z.of_nat (length (p_slots p)))%Z then Some (Z.to_nat i) else None.

Definition set_slot (p : pool) (n : nat) (sl : frame_slot) (avail : nat)
    (q : list nat) : pool :=
  {| p_capacity := p_capacity p; p_width := p_width p; p_height := p_height p;
     p_slots := <[n := sl]> (p_slots p); p_available := avail;
     p_queue := q; p_ended := p_ended p |}.

(** [reserve(index)]: ended first, then the index, then the slot's state. *)
Definition pool_reserve (p : pool) (i : Z) : wait_result pool :=
  if p_ended p then WaitEnded else
  match slot_index p i with
  | None => WaitInvalid
  | Some n =>
      match p_slots p !! n with
      | Some sl =>
          if decide (fs_state sl = Free)
          then WaitOk (set_slot p n {| fs_state := Reserved; fs_info := fs_info sl |}
                         (p_available p - 1) (p_queue p))
          else WaitBlocked
      | None => WaitInvalid
      end
  end.

(** [publish(index, timestamp, field_info)]: [None] is [InvalidState]. *)
Definition pool_publish (p : pool) (d : CUVIDPARSERDISPINFO) : option pool :=
  match slot_index p (picture_index d) with
  | None => None
  | Some n =>
      match p_slots p !! n with
      | Some sl =>
          if decide (fs_state sl = Reserved)
          then Some (set_slot p n {| fs_state := Ready; fs_info := d |}
                       (p_available p) (p_queue p ++ [n]))
          else None
      | None => None
      end
  end.

Inductive take_result :=
| Taken (n : nat) (info : CUVIDPARSERDISPINFO) (p : pool)
| TakeEndOfStream
| TakeBlocked.

(** [take_ready()]: the oldest published slot; the slot stays [Ready]
    until the consumer releases it. *)
Definition pool_take (p : pool) : take_result :=
  match p_queue p with
  | n :: rest =>
      Taken n (default no_info (fs_info <$> p_slots p !! n))
        {| p_capacity := p_capacity p; p_width := p_width p; p_height := p_height p;
           p_slots := p_slots p; p_available := p_available p;
           p_queue := rest; p_ended := p_ended p |}
  | [] => if p_ended p then TakeEndOfStream else TakeBlocked
  end.

(** [release(index)]: only a slot the consumer has taken ([Ready] and no
    longer queued) goes back to [Free]; anything else is [InvalidState]. *)
Definition pool_release (p : pool) (n : nat) : option pool :=
  match p_slots p !! n with
  | Some sl =>
      if decide (fs_state sl = Ready ∧ n ∉ p_queue p)
      then Some (set_slot p n {| fs_state := Free; fs_info := fs_info sl |}
                  (S (p_available p)) (p_queue p))
      else None
  | None => None
  end.

(** [mark_ended()]. *)
Definition pool_end (p : pool) : pool :=
  {| p_capacity := p_capacity p; p_width := p_width p; p_height := p_height p;
     p_slots := p_slots p; p_available := p_available p;
     p_queue := p_queue p; p_ended := true |}.

(** ** Well-formedness *)

Definition count_state (st : slot_state) (p : pool) : nat :=
  length (filter (λ sl, fs_state sl = st) (p_slots p)).

Record pool_wf (p : pool) : Prop := {
  wf_length : length (p_slots p) = p_capacity p;
  wf_available : p_available p + count_state Reserved p + count_state Ready p
                 = p_capacity p;
  wf_queue_nodup : NoDup (p_queue p);
  wf_queue_ready : ∀ n, n ∈ p_queue p -> fs_state <$> p_slots p !! n = Some Ready
}.

(** ** Lemmas on slots and counts *)

Lemma set_slot_lookup p n sl a q m :
  p_slots (set_slot p n sl a q) !! m
  = if decide (n = m ∧ n < length (p_slots p)) then Some sl else p_slots p !! m.
Proof. apply list_lookup_insert_case. Qed.

Lemma set_slot_length p n sl a q :
  length (p_slots (set_slot p n sl a q)) = length (p_slots p).
Proof. apply length_insert. Qed.

Lemma count_state_set_slot p n sl sl' a q st :
  p_slots p !! n = Some sl ->
  count_state st (set_slot p n sl' a q) + (if decide (fs_state sl = st) then 1 else 0)
  = count_state st p + (if decide (fs_state sl' = st) then 1 else 0).
Proof. intros H. exact (length_filter_insert (λ x, fs_state x = st) _ _ _ _ H). Qed.

Lemma count_states_total p :
  count_state Free p + count_state Reserved p + count_state Ready p = length (p_slots p).
Proof.
  unfold count_state. induction (p_slots p) as [|sl l IH]; [done|].
  rewrite !filter_cons. destruct (fs_state sl); repeat case_decide; simplify_eq/=; lia.
Qed.

Lemma count_state_pos p n sl :
  p_slots p !! n = Some sl -> 1 <= count_state (fs_state sl) p.
Proof.
  unfold count_state. revert n. induction (p_slots p) as [|x l IH]; intros [|n] H;
    simplify_eq/=; rewrite filter_cons; case_decide; simpl; eauto with lia; done.
Qed.

Lemma slot_index_lt p i n : slot_index p i = Some n -> n < length (p_slots p).
Proof. unfold slot_index. case_decide; intros; simplify_eq. lia. Qed.

Lemma queued_not_state p n sl st :
  pool_wf p -> p_slots p !! n = Some sl -> fs_state sl = st -> st ≠ Ready -> n ∉ p_queue p.
Proof.
  intros Hwf Hn <- Hst Hq. apply (wf_queue_ready _ Hwf) in Hq. rewrite Hn in Hq.
  by simplify_eq/=.
Qed.

#[export] Hint Resolve slot_index_lt : cuvid.

(** ** Preservation of the invariant *)

Lemma count_state_make st cap w h :
  st ≠ Free -> count_state st (pool_make cap w h) = 0.
Proof.
  intros Hst. unfold count_state; simpl.
  induction cap as [|cap IH]; [done|]. simpl. rewrite filter_cons. by case_decide.
Qed.

Lemma pool_make_wf cap w h : pool_wf (pool_make cap w h).
Proof.
  split; simpl.
  - apply length_replicate.
  - rewrite !count_state_make; [lia|done|done].
  - constructor.
  - set_solver.
Qed.

Lemma set_slot_keeps_ready p n sl' m :
  pool_wf p -> n ∉ p_queue p -> m ∈ p_queue p ->
  fs_state <$> <[n := sl']> (p_slots p) !! m = Some Ready.
Proof.
  intros Hwf Hn Hm. rewrite list_lookup_insert_case. case_decide as Hd.
  - destruct Hd; subst. contradiction.
  - by apply wf_queue_ready.
Qed.

(** The three counts after replacing slot [n] (old state [o], new state
    [s']), as the [lia] facts the preservation proofs need. *)
Ltac count_facts p n sl sl' a q Hn :=
  pose proof (count_state_set_slot p n sl sl' a q Free Hn);
  pose proof (count_state_set_slot p n sl sl' a q Reserved Hn);
  pose proof (count_state_set_slot p n sl sl' a q Ready Hn);
  pose proof (count_states_total p);
  pose proof (count_state_pos p n sl Hn);
  pose proof (set_slot_length p n sl' a q).

Lemma pool_reserve_wf p i p' : pool_wf p -> pool_reserve p i = WaitOk p' -> pool_wf p'.
Proof.
  intros Hwf. unfold pool_reserve.
  destruct (p_ended p); [done|].
  destruct (slot_index p i) as [n|] eqn:Hi; [|done].
  destruct (p_slots p !! n) as [sl|] eqn:Hn; [|done].
  case_decide as Hfree; [|done]. intros [= <-].
  count_facts p n sl {| fs_state := Reserved; fs_info := fs_info sl |} (p_available p - 1) (p_queue p) Hn.
  pose proof (queued_not_state p n sl Free Hwf Hn Hfree ltac:(done)).
  destruct Hwf as [Hl Ha Hnd Hq]. simpl in *. rewrite Hfree in *.
  split; simpl.
  - lia.
  - repeat case_decide; simplify_eq; lia.
  - done.
  - intros m Hm. by apply set_slot_keeps_ready.
Qed.

Lemma pool_publish_wf p d p' : pool_wf p -> pool_publish p d = Some p' -> pool_wf p'.
Proof.
  intros Hwf. unfold pool_publish.
  destruct (slot_index p (picture_index d)) as [n|] eqn:Hi; [|done].
  destruct (p_slots p !! n) as [sl|] eqn:Hn; [|done].
  case_decide as Hres; [|done]. intros [= <-].
  pose proof (slot_index_lt _ _ _ Hi) as Hlt.
  count_facts p n sl {| fs_state := Ready; fs_info := d |} (p_available p) (p_queue p ++ [n]) Hn.
  pose proof (queued_not_state p n sl Reserved Hwf Hn Hres ltac:(done)) as Hnq.
  destruct Hwf as [Hl Ha Hnd Hq]. simpl in *. rewrite Hres in *.
  split; simpl.
  - lia.
  - repeat case_decide; simplify_eq; lia.
  - apply NoDup_app. split_and!; [done| |by apply NoDup_singleton].
    intros x Hx Hx'. apply list_elem_of_singleton in Hx'. subst. contradiction.
  - intros m [Hm|Hm%list_elem_of_singleton]%elem_of_app.
    + apply set_slot_keeps_ready; [by split|done|done].
    + subst m. rewrite list_lookup_insert_case, decide_True; [done|]. split; [done|lia].
Qed.

Lemma pool_take_wf p n info p' : pool_wf p -> pool_take p = Taken n info p' -> pool_wf p'.
Proof.
  intros [Hl Ha Hnd Hq]. unfold pool_take.
  destruct (p_queue p) as [|m rest] eqn:Hqe; [by destruct (p_ended p)|].
  intros [= <- <- <-]. apply NoDup_cons in Hnd as [_ Hnd].
  split; simpl; try done. intros k Hk. apply Hq. set_solver.
Qed.

Lemma pool_release_wf p n p' : pool_wf p -> pool_release p n = Some p' -> pool_wf p'.
Proof.
  intros Hwf. unfold pool_release.
  destruct (p_slots p !! n) as [sl|] eqn:Hn; [|done].
  case_decide as Hrd; [|done]. destruct Hrd as [Hrd Hnq]. intros [= <-].
  count_facts p n sl {| fs_state := Free; fs_info := fs_info sl |} (S (p_available p)) (p_queue p) Hn.
  destruct Hwf as [Hl Ha Hnd Hq]. simpl in *. rewrite Hrd in *.
  split; simpl.
  - lia.
  - repeat case_decide; simplify_eq; lia.
  - done.
  - intros m Hm. apply set_slot_keeps_ready; [by split|done|done].
Qed.

Lemma pool_end_wf p : pool_wf p -> pool_wf (pool_end p).
Proof. intros [Hl Ha Hnd Hq]. by split. Qed.

#[export] Hint Resolve pool_make_wf pool_reserve_wf pool_publish_wf pool_take_wf
  pool_release_wf pool_end_wf : cuvid.

(** ** The backlog is bounded by the Ready slots *)

(** The indices, from [k], of the [Ready] slots of [l]. *)
Fixpoint ready_from (k : nat) (l : list frame_slot) : list nat :=
  match l with
  | [] => []
  | sl :: l' => (if decide (fs_state sl = Ready) then [k] else []) ++ ready_from (S k) l'
  end.

Lemma ready_from_length k l :
  length (ready_from k l) = length (filter (λ sl, fs_state sl = Ready) l).
Proof.
  revert k. induction l as [|sl l IH]; intros k; [done|]. simpl. rewrite filter_cons.
  case_decide; simpl; by rewrite IH.
Qed.

Lemma elem_of_ready_from k l i sl :
  l !! i = Some sl -> fs_state sl = Ready -> (k + i)%nat ∈ ready_from k l.
Proof.
  revert k i. induction l as [|sl' l IH]; intros k [|i] Hi Hs; simplify_eq/=.
  - rewrite decide_True by done. rewrite Nat.add_0_r. by left.
  - apply elem_of_app. right. replace (k + S i)%nat with (S k + i)%nat by lia. by apply IH.
Qed.

(** The queue holds distinct [Ready] slots, so it is no longer than the
    number of [Ready] slots. *)
Lemma pool_queue_bound p : pool_wf p -> length (p_queue p) <= count_state Ready p.
Proof.
  intros Hwf. unfold count_state. rewrite <-(ready_from_length 0).
  apply submseteq_length, NoDup_submseteq; [apply (wf_queue_nodup _ Hwf)|].
  intros n Hn. pose proof (wf_queue_ready _ Hwf n Hn) as Hr.
  destruct (p_slots p !! n) as [sl|] eqn:Hl; simplify_eq/=.
  exact (elem_of_ready_from 0 _ n sl Hl Hr).
Qed.

(** ** Runs of pool operations *)

Ltac pool_cases := repeat (case_match; simplify_eq/=; rewrite ?app_nil_r; try done).

Inductive pool_op :=
| OpReserve (i : Z)
| OpPublish (d : CUVIDPARSERDISPINFO)
| OpTake
| OpRelease (n : nat)
| OpEnd.

Inductive pool_event :=
| EvReserved (i : Z)
| EvWaitEnded
| EvWaitInvalid
| EvBlocked
| EvPublished (n : nat) (info : CUVIDPARSERDISPINFO)
| EvInvalidState
| EvTaken (n : nat) (info : CUVIDPARSERDISPINFO)
| EvEndOfStream
| EvReleased (n : nat)
| EvEnded.

Definition pool_step (p : pool) (o : pool_op) : pool * pool_event :=
  match o with
  | OpReserve i =>
      match pool_reserve p i with
      | WaitOk p' => (p', EvReserved i)
      | WaitEnded => (p, EvWaitEnded)
      | WaitInvalid => (p, EvWaitInvalid)
      | WaitBlocked => (p, EvBlocked)
      end
  | OpPublish d =>
      match pool_publish p d with
      | Some p' => (p', EvPublished (Z.to_nat (picture_index d)) d)
      | None => (p, EvInvalidState)
      end
  | OpTake =>
      match pool_take p with
      | Taken n info p' => (p', EvTaken n info)
      | TakeEndOfStream => (p, EvEndOfStream)
      | TakeBlocked => (p, EvBlocked)
      end
  | OpRelease n =>
      match pool_release p n with
      | Some p' => (p', EvReleased n)
      | None => (p, EvInvalidState)
      end
  | OpEnd => (pool_end p, EvEnded)
  end.

Fixpoint pool_run (p : pool) (os : list pool_op) : pool * list pool_event :=
  match os with
  | [] => (p, [])
  | o :: os' =>
      let '(p1, e) := pool_step p o in
      let '(p2, es) := pool_run p1 os' in
      (p2, e :: es)
  end.

Definition taken_of (es : list pool_event) : list nat :=
  omap (λ e, match e with EvTaken n _ => Some n | _ => None end) es.

Definition published_of (es : list pool_event) : list nat :=
  omap (λ e, match e with EvPublished n _ => Some n | _ => None end) es.

(** The display records handed out by [take_ready] and those accepted by
    [publish], in order. *)
Definition taken_infos (es : list pool_event) : list CUVIDPARSERDISPINFO :=
  omap (λ e, match e with EvTaken _ d => Some d | _ => None end) es.

Definition published_infos (es : list pool_event) : list CUVIDPARSERDISPINFO :=
  omap (λ e, match e with EvPublished _ d => Some d | _ => None end) es.

(** The display record kept in slot [n], as [take_ready] reads it. *)
Definition slot_info (p : pool) (n : nat) : CUVIDPARSERDISPINFO :=
  default no_info (fs_info <$> p_slots p !! n).

Definition queued_infos (p : pool) : list CUVIDPARSERDISPINFO := slot_info p <$> p_queue p.

Lemma pool_step_wf p o : pool_wf p -> pool_wf (pool_step p o).1.
Proof.
  intros Hwf. destruct o; simpl.
  - destruct (pool_reserve p i) eqn:E; simpl; eauto with cuvid.
  - destruct (pool_publish p d) eqn:E; simpl; eauto with cuvid.
  - destruct (pool_take p) eqn:E; simpl; eauto with cuvid.
  - destruct (pool_release p n) eqn:E; simpl; eauto with cuvid.
  - eauto with cuvid.
Qed.

Lemma pool_step_capacity p o : p_capacity (pool_step p o).1 = p_capacity p.
Proof.
  destruct o; simpl.
  - unfold pool_reserve. pool_cases.
  - unfold pool_publish. pool_cases.
  - unfold pool_take. pool_cases.
  - unfold pool_release. pool_cases.
  - done.
Qed.

(** One step moves the FIFO exactly: a take removes the head, a publish
    appends, nothing else touches it. *)
Lemma pool_step_fifo p o :
  taken_of [(pool_step p o).2] ++ p_queue (pool_step p o).1
  = p_queue p ++ published_of [(pool_step p o).2].
Proof.
  destruct o; simpl.
  - unfold pool_reserve. pool_cases.
  - unfold pool_publish, slot_index.
    pool_cases.
  - unfold pool_take. pool_cases.
  - unfold pool_release. pool_cases.
  - by rewrite app_nil_r.
Qed.

Lemma pool_step_ended p o : p_ended p = true -> p_ended (pool_step p o).1 = true.
Proof.
  intros He. destruct o; simpl.
  - unfold pool_reserve. by rewrite He.
  - unfold pool_publish. pool_cases.
  - unfold pool_take. pool_cases.
  - unfold pool_release. pool_cases.
  - done.
Qed.

Lemma pool_run_cons p o os :
  pool_run p (o :: os) =
  ((pool_run (pool_step p o).1 os).1, (pool_step p o).2 :: (pool_run (pool_step p o).1 os).2).
Proof. simpl. destruct (pool_step p o), (pool_run _ os). done. Qed.

Lemma pool_run_wf p os : pool_wf p -> pool_wf (pool_run p os).1.
Proof.
  revert p. induction os as [|o os IH]; intros p Hwf; [done|].
  rewrite pool_run_cons. simpl. by apply IH, pool_step_wf.
Qed.

Lemma pool_run_capacity p os : p_capacity (pool_run p os).1 = p_capacity p.
Proof.
  revert p. induction os as [|o os IH]; intros p; [done|].
  rewrite pool_run_cons. simpl. by rewrite IH, pool_step_capacity.
Qed.

#[export] Hint Resolve pool_run_wf pool_step_wf : cuvid.

Lemma taken_of_cons e es : taken_of (e :: es) = taken_of [e] ++ taken_of es.
Proof. by destruct e. Qed.

Lemma published_of_cons e es : published_of (e :: es) = published_of [e] ++ published_of es.
Proof. by destruct e. Qed.

Lemma pool_run_length p os : length (pool_run p os).2 = length os.
Proof.
  revert p. induction os as [|o os IH]; intros p; [done|].
  rewrite pool_run_cons. simpl. by rewrite IH.
Qed.

Lemma pool_step_take_cons p m rest :
  p_queue p = m :: rest ->
  ∃ p1 info, pool_step p OpTake = (p1, EvTaken m info) ∧ p_queue p1 = rest ∧
             p_ended p1 = p_ended p.
Proof. intros Hq. simpl. unfold pool_take. rewrite Hq. by eexists _, _. Qed.

(** ** Properties of the pool *)

(** For every sequence of pool operations from a freshly initialised
    pool of capacity [cap], the available count equals [cap] minus the
    number of [Reserved] and [Ready] slots. *)
Theorem pool_available_count cap w h os :
  let p' := (pool_run (pool_make cap w h) os).1 in
  p_available p' = cap - (count_state Reserved p' + count_state Ready p').
Proof.
  simpl. pose proof (pool_run_wf (pool_make cap w h) os (pool_make_wf cap w h)) as Hwf.
  pose proof (wf_available _ Hwf). rewrite pool_run_capacity in *. simpl in *. lia.
Qed.

(** FIFO.  Along any run, the slots handed out by [take_ready],
    followed by those still queued, are the queued slots at the start
    followed by the slots published during the run, in publish order. *)
Theorem pool_run_fifo p os :
  taken_of (pool_run p os).2 ++ p_queue (pool_run p os).1
  = p_queue p ++ published_of (pool_run p os).2.
Proof.
  revert p. induction os as [|o os IH]; intros p; [simpl; by rewrite app_nil_r|].
  rewrite pool_run_cons; cbn [fst snd]. rewrite taken_of_cons, published_of_cons.
  rewrite <-app_assoc, IH, app_assoc, pool_step_fifo. by rewrite app_assoc.
Qed.

(** From a fresh pool, the sequence of slots [take_ready] returns is
    a prefix of the sequence of slots published, whatever the order in
    which they were reserved. *)
Corollary pool_take_order cap w h os :
  taken_of (pool_run (pool_make cap w h) os).2
  `prefix_of` published_of (pool_run (pool_make cap w h) os).2.
Proof.
  exists (p_queue (pool_run (pool_make cap w h) os).1).
  by rewrite (pool_run_fifo (pool_make cap w h) os).
Qed.

(** ** The display records along a run *)

Lemma taken_infos_cons e es : taken_infos (e :: es) = taken_infos [e] ++ taken_infos es.
Proof. by destruct e. Qed.

Lemma published_infos_cons e es : published_infos (e :: es) = published_infos [e] ++ published_infos es.
Proof. by destruct e. Qed.

(** Changing a slot's state without its record leaves every record. *)
Lemma slot_info_set_slot p n sl sl' a q m :
  p_slots p !! n = Some sl -> fs_info sl' = fs_info sl ->
  slot_info (set_slot p n sl' a q) m = slot_info p m.
Proof.
  intros Hn Hi. unfold slot_info. rewrite set_slot_lookup.
  case_decide as H; [destruct H as [-> _]; by rewrite Hn; simpl; rewrite Hi|done].
Qed.

Lemma queued_infos_set_slot p n sl sl' a :
  p_slots p !! n = Some sl -> fs_info sl' = fs_info sl ->
  queued_infos (set_slot p n sl' a (p_queue p)) = queued_infos p.
Proof.
  intros Hn Hi. unfold queued_infos. simpl. apply list_fmap_ext. intros.
  by eapply slot_info_set_slot.
Qed.

(** [publish] appends the record it was given; the records of the slots
    already queued, all [Ready] while the published one was [Reserved],
    stay as they were. *)
Lemma queued_infos_publish p n sl d :
  pool_wf p -> p_slots p !! n = Some sl -> fs_state sl = Reserved ->
  queued_infos (set_slot p n {| fs_state := Ready; fs_info := d |} (p_available p) (p_queue p ++ [n]))
  = queued_infos p ++ [d].
Proof.
  intros Hwf Hn Hs. unfold queued_infos. simpl. rewrite fmap_app. f_equal.
  - apply list_fmap_ext. intros i m Hm. unfold slot_info. rewrite set_slot_lookup.
    rewrite decide_False; [done|]. intros [<- _].
    apply (queued_not_state p n sl Reserved Hwf Hn Hs); [done|]. by eapply list_elem_of_lookup_2.
  - simpl. unfold slot_info. rewrite set_slot_lookup, decide_True; [done|].
    split; [done|]. by eapply lookup_lt_Some.
Qed.

(** One step moves the records as it moves the slots: a take hands out
    the record of the head, a publish appends the record it was given. *)
Lemma pool_step_fifo_info p o :
  pool_wf p ->
  taken_infos [(pool_step p o).2] ++ queued_infos (pool_step p o).1
  = queued_infos p ++ published_infos [(pool_step p o).2].
Proof.
  intros Hwf. destruct o as [i|d| |n|]; simpl.
  - unfold pool_reserve. destruct (p_ended p); [by rewrite app_nil_r|].
    destruct (slot_index p i) as [n|]; [|by rewrite app_nil_r].
    destruct (p_slots p !! n) as [sl|] eqn:Hn; [|by rewrite app_nil_r].
    case_decide; simpl; rewrite app_nil_r; [|done]. by apply (queued_infos_set_slot p n sl).
  - unfold pool_publish. destruct (slot_index p (picture_index d)) as [n|]; [|by rewrite app_nil_r].
    destruct (p_slots p !! n) as [sl|] eqn:Hn; [|by rewrite app_nil_r].
    case_decide; simpl; [by apply (queued_infos_publish p n sl)|by rewrite app_nil_r].
  - unfold pool_take. destruct (p_queue p) as [|m rest] eqn:Hq.
    + destruct (p_ended p); simpl; by rewrite app_nil_r.
    + simpl. unfold queued_infos. rewrite Hq, app_nil_r. done.
  - unfold pool_release. destruct (p_slots p !! n) as [sl|] eqn:Hn; [|by rewrite app_nil_r].
    case_decide; simpl; rewrite app_nil_r; [|done]. by apply (queued_infos_set_slot p n sl).
  - by rewrite app_nil_r.
Qed.

(** FIFO of the display records.  Along any run from a well-formed pool,
    the records handed out by [take_ready], followed by those of the
    slots still queued, are the records of the slots queued at the start
    followed by the records accepted by [publish], in publish order: the
    consumer receives each record (timestamp, field flags) as the
    display callback published it, none altered or reordered. *)
Theorem pool_run_fifo_info p os :
  pool_wf p ->
  taken_infos (pool_run p os).2 ++ queued_infos (pool_run p os).1
  = queued_infos p ++ published_infos (pool_run p os).2.
Proof.
  revert p. induction os as [|o os IH]; intros p Hwf; [simpl; by rewrite app_nil_r|].
  rewrite pool_run_cons; cbn [fst snd]. rewrite taken_infos_cons, published_infos_cons.
  rewrite <-app_assoc, IH by (by apply pool_step_wf).
  rewrite app_assoc, pool_step_fifo_info by done. by rewrite app_assoc.
Qed.

(** [reserve] on every branch: it reserves exactly the designated
    free slot and takes one from the available count; it blocks, leaving
    the pool unchanged, when the slot is [Reserved] or [Ready]; it returns
    [StreamEnded] without blocking on an ended pool; an index outside the
    pool is rejected. *)
Theorem pool_reserve_spec p i :
  pool_wf p ->
  match pool_reserve p i with
  | WaitOk p' =>
      ∃ n sl, p_ended p = false ∧ slot_index p i = Some n ∧ p_slots p !! n = Some sl ∧
        fs_state sl = Free ∧ fs_state <$> p_slots p' !! n = Some Reserved ∧
        S (p_available p') = p_available p ∧
        (∀ m, m ≠ n -> p_slots p' !! m = p_slots p !! m) ∧ p_queue p' = p_queue p
  | WaitBlocked =>
      ∃ n sl, p_ended p = false ∧ slot_index p i = Some n ∧ p_slots p !! n = Some sl ∧
        fs_state sl ≠ Free
  | WaitEnded => p_ended p = true
  | WaitInvalid => p_ended p = false ∧ slot_index p i = None
  end.
Proof.
  intros Hwf. unfold pool_reserve.
  destruct (p_ended p) eqn:He; [done|].
  destruct (slot_index p i) as [n|] eqn:Hi; [|done].
  pose proof (slot_index_lt _ _ _ Hi) as Hlt.
  destruct (p_slots p !! n) as [sl|] eqn:Hn;
    [|apply lookup_ge_None in Hn; lia].
  case_decide as Hfree; [|by exists n, sl].
  exists n, sl. split_and!; try done.
  - simpl. by rewrite list_lookup_insert_eq.
  - pose proof (count_states_total p). pose proof (count_state_pos p n sl Hn).
    pose proof (wf_available _ Hwf). pose proof (wf_length _ Hwf).
    rewrite Hfree in *. simpl. lia.
  - intros m Hm. simpl. by rewrite list_lookup_insert_ne.
Qed.

(** Once the pool is ended it stays ended, and no later [reserve]
    succeeds: no slot is reserved after end-of-stream. *)
Theorem pool_no_reserve_after_end p os :
  p_ended p = true ->
  p_ended (pool_run p os).1 = true ∧ (∀ i, EvReserved i ∉ (pool_run p os).2).
Proof.
  revert p. induction os as [|o os IH]; intros p He; [simpl; split; [done|set_solver]|].
  rewrite pool_run_cons; simpl.
  destruct (IH _ (pool_step_ended p o He)) as [He' Hno]. split; [done|].
  intros i [Hi|Hi]%elem_of_cons; [|by eapply Hno].
  destruct o; simpl in Hi; unfold pool_reserve in Hi; rewrite ?He in Hi; simpl in Hi; pool_cases; simplify_eq.
Qed.

(** After end-of-stream, [take_ready] drains the queued slots in
    order and then returns [EndOfStream] instead of blocking. *)
Theorem pool_drain_after_end p :
  p_ended p = true ->
  let r := pool_run p (replicate (S (length (p_queue p))) OpTake) in
  taken_of r.2 = p_queue p ∧ last r.2 = Some EvEndOfStream ∧ p_queue r.1 = [].
Proof.
  remember (p_queue p) as q eqn:Hq. revert p Hq.
  induction q as [|m rest IH]; intros p Hq He.
  - simpl. unfold pool_take. rewrite <-Hq, He. done.
  - destruct (pool_step_take_cons p m rest (eq_sym Hq)) as (p1 & info & Hs & Hq1 & He1).
    change (replicate (S (length (m :: rest))) OpTake)
      with (OpTake :: replicate (S (length rest)) OpTake).
    rewrite pool_run_cons, Hs. cbn [fst snd].
    destruct (IH p1 (eq_sym Hq1) (eq_trans He1 He)) as (Ht & Hl & Hq').
    split_and!; [simpl; by f_equal|by rewrite last_cons, Hl|done].
Qed.

(** The scenario of the spec: capacity 4, slots 0-3 reserved, then
    published in the order 0, 2, 1, 3; [take_ready] yields 0, 2, 1, 3 and,
    once all four are released, the available count is back to 4. *)
Definition disp (i : Z) : CUVIDPARSERDISPINFO :=
  {| picture_index := i; progressive_frame := true; top_field_first := false;
     repeat_first_field := 0; timestamp := i |}.

Definition scenario_ops : list pool_op :=
  [OpReserve 0; OpReserve 1; OpReserve 2; OpReserve 3;
   OpPublish (disp 0); OpPublish (disp 2); OpPublish (disp 1); OpPublish (disp 3);
   OpTake; OpTake; OpTake; OpTake;
   OpRelease 0; OpRelease 2; OpRelease 1; OpRelease 3].

Example pool_scenario_publish_order :
  taken_of (pool_run (pool_make 4 1920 1080) scenario_ops).2 = [0; 2; 1; 3] ∧
  p_available (pool_run (pool_make 4 1920 1080) scenario_ops).1 = 4.
Proof. vm_compute. split; reflexivity. Qed.

(** ** The pool as the session's frame queue *)

#[export] Instance pool_frame_queue : FrameQueue pool := {|
  fq_new w h := pool_make cnMaximumSize w h;
  fq_wait := pool_reserve;
  fq_enqueue := pool_publish;
  fq_end := pool_end;
  fq_is_ended := p_ended
|}.

#[export] Instance pool_frame_queue_laws : FrameQueueLaws pool.
Proof.
  split; simpl.
  - done.
  - done.
  - intros q i He. unfold pool_reserve. by rewrite He.
  - intros q i q'. unfold pool_reserve. pool_cases. intros [= <-]. done.
  - intros q d q'. unfold pool_publish. pool_cases. intros [= <-]. done.
Qed.

(** The session creates its queue with [cnMaximumSize] surfaces, which is
    never the zero capacity [initialize] rejects. *)
Lemma pool_init_session w h : pool_init cnMaximumSize w h = inr (fq_new w h).
Proof. reflexivity. Qed.

(** ** Witnesses *)

Lemma pool_reserve_spec_witness :
  pool_wf (pool_make 4 0 0) ∧
  match pool_reserve (pool_make 4 0 0) 1 with
  | WaitOk p' =>
      ∃ n sl, p_ended (pool_make 4 0 0) = false ∧ slot_index (pool_make 4 0 0) 1 = Some n ∧
        p_slots (pool_make 4 0 0) !! n = Some sl ∧
        fs_state sl = Free ∧ fs_state <$> p_slots p' !! n = Some Reserved ∧
        S (p_available p') = p_available (pool_make 4 0 0) ∧
        (∀ m, m ≠ n -> p_slots p' !! m = p_slots (pool_make 4 0 0) !! m) ∧
        p_queue p' = p_queue (pool_make 4 0 0)
  | WaitBlocked =>
      ∃ n sl, p_ended (pool_make 4 0 0) = false ∧ slot_index (pool_make 4 0 0) 1 = Some n ∧
        p_slots (pool_make 4 0 0) !! n = Some sl ∧ fs_state sl ≠ Free
  | WaitEnded => p_ended (pool_make 4 0 0) = true
  | WaitInvalid => p_ended (pool_make 4 0 0) = false ∧ slot_index (pool_make 4 0 0) 1 = None
  end.
Proof. split; [apply pool_make_wf|apply (pool_reserve_spec _ _ (pool_make_wf 4 0 0))]. Defined.

Lemma pool_no_reserve_after_end_witness :
  p_ended (pool_end (pool_make 2 0 0)) = true ∧
  p_ended (pool_run (pool_end (pool_make 2 0 0)) [OpReserve 0; OpTake]).1 = true ∧
  (∀ i, EvReserved i ∉ (pool_run (pool_end (pool_make 2 0 0)) [OpReserve 0; OpTake]).2).
Proof. split; [reflexivity|apply (pool_no_reserve_after_end (pool_end (pool_make 2 0 0)) _ eq_refl)]. Defined.

Definition drain_pool : pool :=
  pool_end (pool_run (pool_make 2 0 0)
              [OpReserve 0; OpReserve 1; OpPublish (disp 1); OpPublish (disp 0)]).1.

Lemma pool_drain_after_end_witness :
  p_ended drain_pool = true ∧
  let r := pool_run drain_pool (replicate (S (length (p_queue drain_pool))) OpTake) in
  taken_of r.2 = p_queue drain_pool ∧ last r.2 = Some EvEndOfStream ∧ p_queue r.1 = [].
Proof. split; [reflexivity|apply (pool_drain_after_end drain_pool eq_refl)]. Defined.

End Pool.
