(* ===== verification/Format.v ===== *)
(** * Format negotiation: [CuvidDecode::DecVideoSequence]

    The session caches the decoder's creation parameters
    ([m_videoDecodeCreateInfo], a [CUVIDDECODECREATEINFO]) and compares
    every sequence header the parser reports against four of them: codec,
    coded width, coded height and chroma format
    ([CuvidDecode.cpp] lines 90-107).  This file holds the creation
    parameters, the comparison, the callback's effect on the cache and the
    error flag, and its theorems. *)

From S2P Require Import Prelude Engine.
From stdpp Require Import strings.

Local Open Scope Z_scope.

Inductive cudaVideoSurfaceFormat := cudaVideoSurfaceFormat_NV12 | cudaVideoSurfaceFormat_P016.

#[export] Instance cudaVideoSurfaceFormat_eq_dec : EqDecision cudaVideoSurfaceFormat.
Proof. solve_decision. Defined.

Definition cudaVideoCreate_Default : Z := 0.
Definition cudaVideoCreate_PreferCUVID : Z := 4.

(** [display_area]: four [short]s. *)
Record rect := { left : Z; top : Z; right : Z; bottom : Z }.

(** [CUVIDDECODECREATEINFO], the fields [CuvidDecode.cpp] sets.  The
    context lock is an optional handle ([None] for [nullptr]). *)
Record CUVIDDECODECREATEINFO := {
  CodecType : cudaVideoCodec;
  ulWidth : Z;
  ulHeight : Z;
  ulNumDecodeSurfaces : Z;
  ChromaFormat : cudaVideoChromaFormat;
  OutputFormat : cudaVideoSurfaceFormat;
  ulCreationFlags : Z;
  display_area : rect;
  ulTargetWidth : Z;
  ulTargetHeight : Z;
  ulNumOutputSurfaces : Z;
  vidLock : option nat
}.

(** [memset(&m_videoDecodeCreateInfo, 0, sizeof(...))]: every enum field
    at its zero value. *)
Definition zero_create_info : CUVIDDECODECREATEINFO :=
  {| CodecType := cudaVideoCodec_MPEG1; ulWidth := 0; ulHeight := 0;
     ulNumDecodeSurfaces := 0; ChromaFormat := cudaVideoChromaFormat_Monochrome;
     OutputFormat := cudaVideoSurfaceFormat_NV12; ulCreationFlags := 0;
     display_area := {| left := 0; top := 0; right := 0; bottom := 0 |};
     ulTargetWidth := 0; ulTargetHeight := 0; ulNumOutputSurfaces := 0;
     vidLock := None |}.

(** The condition of line 92-95: any of the four compared fields differs. *)
Definition format_changed (ci : CUVIDDECODECREATEINFO) (f : CUVIDEOFORMAT) : bool :=
  negb (bool_decide (codec f = CodecType ci)) || negb (coded_width f =? ulWidth ci) ||
  negb (coded_height f =? ulHeight ci) || negb (bool_decide (chroma_format f = ChromaFormat ci)).

(** Lines 97-100: the four fields copied from the sequence header, the
    others kept. *)
Definition adopt_format (ci : CUVIDDECODECREATEINFO) (f : CUVIDEOFORMAT) : CUVIDDECODECREATEINFO :=
  {| CodecType := codec f; ulWidth := coded_width f; ulHeight := coded_height f;
     ulNumDecodeSurfaces := ulNumDecodeSurfaces ci; ChromaFormat := chroma_format f;
     OutputFormat := OutputFormat ci; ulCreationFlags := ulCreationFlags ci;
     display_area := display_area ci; ulTargetWidth := ulTargetWidth ci;
     ulTargetHeight := ulTargetHeight ci; ulNumOutputSurfaces := ulNumOutputSurfaces ci;
     vidLock := vidLock ci |}.

(** What the callback changes: the cached parameters, the error flag, the
    log; and what it returns to the parser. *)
Record seq_outcome := {
  so_info : CUVIDDECODECREATEINFO;
  so_error : bool;
  so_log : list log_entry;
  so_ret : Z
}.

(** [DecVideoSequence], lines 90-107, given the cached parameters, the
    tolerance flag [m_bIgnoreDynamicFormatChange] and the error flag. *)
Definition DecVideoSequence (ci : CUVIDDECODECREATEINFO) (ignore err : bool)
    (f : CUVIDEOFORMAT) : seq_outcome :=
  let log0 := [(NV_LOG_TRACE, "DecVideoSequence"%string)] in
  if format_changed ci f then
    {| so_info := adopt_format ci f;
       so_error := if ignore then err else true;
       so_log := log0 ++ [(if ignore then NV_LOG_DEBUG else NV_LOG_ERROR,
                           "dynamic video format changing detected"%string)];
       so_ret := 0 |}
  else
    {| so_info := ci; so_error := err; so_log := log0; so_ret := 1 |}.

(** The spec's equality of formats (section 4.3): codec identity, coded
    width, coded height and chroma layout, and nothing else. *)
Definition same_format (ci : CUVIDDECODECREATEINFO) (f : CUVIDEOFORMAT) : Prop :=
  codec f = CodecType ci ∧ coded_width f = ulWidth ci ∧
  coded_height f = ulHeight ci ∧ chroma_format f = ChromaFormat ci.

#[export] Instance same_format_dec ci f : Decision (same_format ci f).
Proof. unfold same_format. solve_decision. Defined.

(** ** Theorems *)

Lemma format_changed_false ci f :
  format_changed ci f = false <->
  codec f = CodecType ci ∧ coded_width f = ulWidth ci ∧
  coded_height f = ulHeight ci ∧ chroma_format f = ChromaFormat ci.
Proof.
  unfold format_changed. rewrite !orb_false_iff, !negb_false_iff, !bool_decide_eq_true, !Z.eqb_eq.
  tauto.
Qed.

Lemma adopt_format_matches ci f : format_changed (adopt_format ci f) f = false.
Proof. by apply format_changed_false. Qed.

(** C16: The comparison of lines 92-95 decides exactly the spec's equality
    of formats: [format_changed] is the negation of [same_format], so two
    cached parameter sets that agree on codec, coded size and chroma
    format (whatever their target size, display area, surfaces or flags)
    judge every sequence header alike. *)
Theorem format_changed_spec ci ci' f :
  format_changed ci f = negb (bool_decide (same_format ci f)) ∧
  (CodecType ci = CodecType ci' -> ulWidth ci = ulWidth ci' -> ulHeight ci = ulHeight ci' ->
   ChromaFormat ci = ChromaFormat ci' -> format_changed ci f = format_changed ci' f).
Proof.
  split.
  - destruct (format_changed ci f) eqn:E; symmetry.
    + apply negb_true_iff, bool_decide_eq_false. intros Hs. by apply format_changed_false in Hs; congruence.
    + apply negb_false_iff, bool_decide_eq_true. by apply format_changed_false.
  - intros H1 H2 H3 H4. unfold format_changed. by rewrite H1, H2, H3, H4.
Qed.

(** C14: A sequence header equal to the cached format on codec, coded
    width, coded height and chroma format is accepted as a no-op: the
    callback returns 1 and changes neither the cache nor the error flag. *)
Theorem DecVideoSequence_same ci ignore err f :
  codec f = CodecType ci -> coded_width f = ulWidth ci ->
  coded_height f = ulHeight ci -> chroma_format f = ChromaFormat ci ->
  let o := DecVideoSequence ci ignore err f in
  so_info o = ci ∧ so_error o = err ∧ so_ret o = 1.
Proof.
  intros Hc Hw Hh Hf. unfold DecVideoSequence.
  by rewrite (proj2 (format_changed_false ci f) (conj Hc (conj Hw (conj Hh Hf)))).
Qed.

(** C13: A header that differs in any compared field, with tolerance
    disabled, sets the sticky error flag, logs an error, adopts the new
    format into the cache and returns 0 to the parser. *)
Theorem DecVideoSequence_reject ci err f :
  format_changed ci f = true ->
  let o := DecVideoSequence ci false err f in
  so_error o = true ∧ so_ret o = 0 ∧ so_info o = adopt_format ci f ∧
  (NV_LOG_ERROR, "dynamic video format changing detected"%string) ∈ so_log o.
Proof. intros Hc. unfold DecVideoSequence. rewrite Hc. simpl. split_and!; try done. set_solver. Qed.

(** C15: With tolerance enabled, a differing header leaves the error flag
    as it was and adopts the new format, but the callback still returns 0
    (failure) to the parser. *)
Theorem DecVideoSequence_tolerate ci err f :
  format_changed ci f = true ->
  let o := DecVideoSequence ci true err f in
  so_error o = err ∧ so_ret o = 0 ∧ so_info o = adopt_format ci f.
Proof. intros Hc. unfold DecVideoSequence. by rewrite Hc. Qed.

(** C38: After any sequence callback the cache matches the header: the
    same header reported again is accepted with 1 and changes nothing;
    fields other than the four compared ones are never changed. *)
Theorem DecVideoSequence_settles ci ignore err f :
  let o := DecVideoSequence ci ignore err f in
  so_ret (DecVideoSequence (so_info o) ignore (so_error o) f) = 1 ∧
  so_info (DecVideoSequence (so_info o) ignore (so_error o) f) = so_info o ∧
  display_area (so_info o) = display_area ci ∧ ulTargetWidth (so_info o) = ulTargetWidth ci ∧
  ulTargetHeight (so_info o) = ulTargetHeight ci ∧
  ulNumDecodeSurfaces (so_info o) = ulNumDecodeSurfaces ci.
Proof.
  unfold DecVideoSequence.
  destruct (format_changed ci f) eqn:Hc; simpl.
  - by rewrite adopt_format_matches.
  - by rewrite Hc.
Qed.

(** The error flag is sticky through the callback. *)
Lemma DecVideoSequence_error_sticky ci ignore f :
  so_error (DecVideoSequence ci ignore true f) = true.
Proof. unfold DecVideoSequence. by destruct (format_changed ci f), ignore. Qed.

#[export] Hint Resolve DecVideoSequence_error_sticky adopt_format_matches : cuvid.

(** ** Witnesses *)

Definition ci_h264_1080p : CUVIDDECODECREATEINFO :=
  {| CodecType := cudaVideoCodec_H264; ulWidth := 1920; ulHeight := 1080;
     ulNumDecodeSurfaces := 20; ChromaFormat := cudaVideoChromaFormat_420;
     OutputFormat := cudaVideoSurfaceFormat_NV12; ulCreationFlags := cudaVideoCreate_PreferCUVID;
     display_area := {| left := 0; top := 0; right := 0; bottom := 0 |};
     ulTargetWidth := 1920; ulTargetHeight := 1080; ulNumOutputSurfaces := 1;
     vidLock := Some 1%nat |}.

Definition fmt (c : cudaVideoCodec) (w h : Z) (cf : cudaVideoChromaFormat) : CUVIDEOFORMAT :=
  {| codec := c; coded_width := w; coded_height := h; chroma_format := cf;
     seqhdr_data_length := 0 |}.

Definition ci_h264_720_target : CUVIDDECODECREATEINFO :=
  {| CodecType := cudaVideoCodec_H264; ulWidth := 1920; ulHeight := 1080;
     ulNumDecodeSurfaces := 8; ChromaFormat := cudaVideoChromaFormat_420;
     OutputFormat := cudaVideoSurfaceFormat_P016; ulCreationFlags := cudaVideoCreate_Default;
     display_area := {| left := 0; top := 0; right := 0; bottom := 8 |};
     ulTargetWidth := 1280; ulTargetHeight := 720; ulNumOutputSurfaces := 2;
     vidLock := None |}.

Lemma format_changed_spec_witness :
  format_changed ci_h264_1080p (fmt cudaVideoCodec_H264 1920 1080 cudaVideoChromaFormat_444) =
    negb (bool_decide (same_format ci_h264_1080p (fmt cudaVideoCodec_H264 1920 1080 cudaVideoChromaFormat_444))) ∧
  format_changed ci_h264_1080p (fmt cudaVideoCodec_H264 1920 1080 cudaVideoChromaFormat_444) =
    format_changed ci_h264_720_target (fmt cudaVideoCodec_H264 1920 1080 cudaVideoChromaFormat_444) ∧
  format_changed ci_h264_1080p (fmt cudaVideoCodec_H264 1920 1080 cudaVideoChromaFormat_444) = true.
Proof.
  split; [apply (proj1 (format_changed_spec _ ci_h264_720_target _))|].
  split; [apply (proj2 (format_changed_spec _ _ _)); reflexivity|reflexivity].
Defined.

Lemma DecVideoSequence_same_witness :
  let o := DecVideoSequence ci_h264_1080p false false
             (fmt cudaVideoCodec_H264 1920 1080 cudaVideoChromaFormat_420) in
  so_info o = ci_h264_1080p ∧ so_error o = false ∧ so_ret o = 1.
Proof. apply DecVideoSequence_same; reflexivity. Defined.

Lemma DecVideoSequence_reject_witness :
  format_changed ci_h264_1080p (fmt cudaVideoCodec_H264 1280 720 cudaVideoChromaFormat_420) = true ∧
  let o := DecVideoSequence ci_h264_1080p false false
             (fmt cudaVideoCodec_H264 1280 720 cudaVideoChromaFormat_420) in
  so_error o = true ∧ so_ret o = 0 ∧
  so_info o = adopt_format ci_h264_1080p (fmt cudaVideoCodec_H264 1280 720 cudaVideoChromaFormat_420) ∧
  (NV_LOG_ERROR, "dynamic video format changing detected"%string) ∈ so_log o.
Proof. split; [reflexivity|apply DecVideoSequence_reject; reflexivity]. Defined.

Lemma DecVideoSequence_tolerate_witness :
  format_changed ci_h264_1080p (fmt cudaVideoCodec_HEVC 1920 1080 cudaVideoChromaFormat_420) = true ∧
  let o := DecVideoSequence ci_h264_1080p true false
             (fmt cudaVideoCodec_HEVC 1920 1080 cudaVideoChromaFormat_420) in
  so_error o = false ∧ so_ret o = 0 ∧
  so_info o = adopt_format ci_h264_1080p (fmt cudaVideoCodec_HEVC 1920 1080 cudaVideoChromaFormat_420).
Proof. split; [reflexivity|apply DecVideoSequence_tolerate; reflexivity]. Defined.
