(* ===== verification/Timestamp.v ===== *)
(** * Packets and timestamps: the packet [CuvidDecode::DecodePacket] builds

    [DecodePacket] (lines 258-283) fills a [CUVIDSOURCEDATAPACKET]: the
    payload, its size converted to [uint32_t], and, unless the timestamp
    is the sentinel [AV_NOPTS_VALUE], the [CUVID_PKT_TIMESTAMP] flag and
    the timestamp rescaled with libavutil's [av_rescale_q] to the engine's
    10 MHz time base.  [av_rescale_q] and the two constants are declared
    outside [src/]; they follow libavutil's definition (rounding to the
    nearest, halfway cases away from zero; [INT64_MIN] when the result
    does not fit).  The theorems give the packet's fields, their bounds
    (the size's [uint32_t] truncation, the timestamp's overflow to the
    sentinel) and the round trip of a timestamp through the engine's
    time base. *)

From S2P Require Import Prelude Engine.

Local Open Scope Z_scope.

Record AVRational := { num : Z; den : Z }.

(** [AV_NOPTS_VALUE], [(int64_t)0x8000000000000000]. *)
Definition AV_NOPTS_VALUE : Z := INT64_MIN.

(** [CUVID_NATIVE_TIMEBASE], 100 ns ticks. *)
Definition CUVID_NATIVE_TIMEBASE : AVRational := {| num := 1; den := 10000000 |}.

(** [av_rescale_rnd(a, b, c, AV_ROUND_NEAR_INF)]: [a * b / c] rounded to
    the nearest integer, ties away from zero. *)
Definition av_rescale_rnd_near_inf (a b c : Z) : Z :=
  if (c <=? 0) || (b <? 0) then INT64_MIN else
  let r := (Z.abs (Z.max a (- INT64_MAX)) * b + c / 2) / c in
  if INT64_MAX <? r then INT64_MIN else if a <? 0 then - r else r.

(** [av_rescale_q(a, bq, cq)]. *)
Definition av_rescale_q (a : Z) (bq cq : AVRational) : Z :=
  av_rescale_rnd_near_inf a (num bq * den cq) (num cq * den bq).

(** Lines 263-272: the packet for a non-empty payload. *)
Definition DecodePacket_packet (data : list Byte.byte) (nSize timestamp : Z)
    (streamtimebase : AVRational) : CUVIDSOURCEDATAPACKET :=
  let pkt := {| flags := 0; payload_size := wrap_u32 nSize; payload := data;
                pkt_timestamp := 0 |} in
  if negb (timestamp =? AV_NOPTS_VALUE) then
    {| flags := Z.lor (flags pkt) CUVID_PKT_TIMESTAMP; payload_size := payload_size pkt;
       payload := data;
       pkt_timestamp := av_rescale_q timestamp streamtimebase CUVID_NATIVE_TIMEBASE |}
  else pkt.

(** Lines 240-243: the end-of-stream packet of [FlushParser]. *)
Definition FlushParser_packet : CUVIDSOURCEDATAPACKET :=
  {| flags := Z.lor (flags zero_packet) CUVID_PKT_ENDOFSTREAM;
     payload_size := 0; payload := []; pkt_timestamp := 0 |}.

(** ** Arithmetic of the rescale *)

Lemma div_round_exact x c : 0 < c -> 0 <= x -> (x * c + c / 2) / c = x.
Proof.
  intros Hc Hx. rewrite Z.div_add_l by lia.
  rewrite (Z.div_small (c / 2) c); [lia|]. split; [apply Z.div_pos; lia|].
  apply Z.div_lt_upper_bound; lia.
Qed.

(** Scaling up by an integer factor is exact. *)
Lemma av_rescale_rnd_mul a k c :
  0 < c -> 0 <= k -> - INT64_MAX <= a -> Z.abs a * k <= INT64_MAX ->
  av_rescale_rnd_near_inf a (k * c) c = a * k.
Proof.
  intros Hc Hk Ha Hb. unfold av_rescale_rnd_near_inf.
  replace ((c <=? 0) || (k * c <? 0)) with false
    by (symmetry; apply orb_false_iff; split; apply Z.leb_gt || apply Z.ltb_ge; nia).
  rewrite Z.max_l by lia.
  replace (Z.abs a * (k * c) + c / 2) with ((Z.abs a * k) * c + c / 2) by ring.
  rewrite div_round_exact by nia.
  destruct (Z.ltb_spec INT64_MAX (Z.abs a * k)); [lia|].
  destruct (Z.ltb_spec a 0); [rewrite Z.abs_neq by lia; ring|rewrite Z.abs_eq by lia; ring].
Qed.

(** Scaling down by the same factor undoes it. *)
Lemma av_rescale_rnd_div a k c :
  0 < c -> 0 < k -> - INT64_MAX <= a * k -> Z.abs a <= INT64_MAX ->
  av_rescale_rnd_near_inf (a * k) c (c * k) = a.
Proof.
  intros Hc Hk Ha Hb. unfold av_rescale_rnd_near_inf.
  replace ((c * k <=? 0) || (c <? 0)) with false
    by (symmetry; apply orb_false_iff; split; apply Z.leb_gt || apply Z.ltb_ge; nia).
  rewrite Z.max_l by lia. rewrite Z.abs_mul, (Z.abs_eq k) by lia.
  replace (Z.abs a * k * c + c * k / 2) with (Z.abs a * (c * k) + c * k / 2) by ring.
  rewrite div_round_exact by nia.
  destruct (Z.ltb_spec INT64_MAX (Z.abs a)); [lia|].
  destruct (Z.ltb_spec (a * k) 0); [rewrite Z.abs_neq by nia; ring|rewrite Z.abs_eq by nia; ring].
Qed.

(** Scaling up past [INT64_MAX] gives [INT64_MIN]. *)
Lemma av_rescale_rnd_overflow a k c :
  0 < c -> 0 < k -> - INT64_MAX <= a -> INT64_MAX < Z.abs a * k ->
  av_rescale_rnd_near_inf a (k * c) c = INT64_MIN.
Proof.
  intros Hc Hk Ha Hb. unfold av_rescale_rnd_near_inf.
  replace ((c <=? 0) || (k * c <? 0)) with false
    by (symmetry; apply orb_false_iff; split; apply Z.leb_gt || apply Z.ltb_ge; nia).
  rewrite Z.max_l by lia.
  replace (Z.abs a * (k * c) + c / 2) with ((Z.abs a * k) * c + c / 2) by ring.
  rewrite div_round_exact by nia.
  by rewrite (proj2 (Z.ltb_lt _ _) Hb).
Qed.

(** ** Theorems *)

(** C39: The packet [DecodePacket] submits for a non-empty payload: with
    the sentinel [AV_NOPTS_VALUE] no flag is set and the timestamp field
    stays 0 (the sentinel is not rescaled); any other timestamp sets
    [CUVID_PKT_TIMESTAMP] and is rescaled to the engine's 10 MHz base. *)
Theorem DecodePacket_packet_timestamp data nSize ts tb :
  let pkt := DecodePacket_packet data nSize ts tb in
  payload pkt = data ∧
  (ts = AV_NOPTS_VALUE -> flags pkt = 0 ∧ pkt_timestamp pkt = 0) ∧
  (ts ≠ AV_NOPTS_VALUE ->
     flags pkt = CUVID_PKT_TIMESTAMP ∧
     pkt_timestamp pkt = av_rescale_q ts tb CUVID_NATIVE_TIMEBASE).
Proof.
  unfold DecodePacket_packet. destruct (Z.eqb_spec ts AV_NOPTS_VALUE) as [Hts|Hts];
    simpl; split_and!; try done; intros ?; contradiction.
Qed.

(** C40: Bounds of the packet's fields.  The payload size is the
    [uint32_t] conversion of [nSize]: always below 2^32, exact below
    2^32, and a packet of exactly 4 GiB is submitted with size 0.  For a
    stream time base [1/d] with [d * k = 10^7], an [int64_t] timestamp
    whose rescaled value [ts * k] does not fit in 64 bits is submitted
    as [INT64_MIN], which is [AV_NOPTS_VALUE], with the timestamp flag
    set: the packet claims a timestamp and carries the "no timestamp"
    sentinel. *)
Theorem DecodePacket_packet_bounds data nSize ts d k :
  let pkt := DecodePacket_packet data nSize ts {| num := 1; den := d |} in
  (0 <= payload_size pkt < 2 ^ 32 ∧
   (0 <= nSize < 2 ^ 32 -> payload_size pkt = nSize) ∧
   (nSize = 2 ^ 32 -> payload_size pkt = 0)) ∧
  (0 < d -> 0 < k -> d * k = den CUVID_NATIVE_TIMEBASE -> INT64_MIN < ts <= INT64_MAX ->
   INT64_MAX < Z.abs ts * k ->
   flags pkt = CUVID_PKT_TIMESTAMP ∧ pkt_timestamp pkt = AV_NOPTS_VALUE).
Proof.
  simpl. unfold DecodePacket_packet. split.
  - destruct (negb _); simpl;
      (split; [apply wrap_u32_range|split; intros Hn; [apply wrap_u32_id; lia|subst; reflexivity]]).
  - intros Hd Hk Hdk Hts Hov. unfold AV_NOPTS_VALUE.
    rewrite (proj2 (Z.eqb_neq _ _)) by lia. simpl. split; [done|].
    unfold av_rescale_q. simpl. rewrite <-Hdk, Z.mul_1_l, Z.mul_1_l, (Z.mul_comm d k).
    apply av_rescale_rnd_overflow; unfold INT64_MIN, INT64_MAX in *; lia.
Qed.

(** Rescaling between equal time bases is the identity on every
    timestamp other than [INT64_MIN]. *)
Theorem av_rescale_q_same tb a :
  0 < num tb -> 0 < den tb -> - INT64_MAX <= a <= INT64_MAX ->
  av_rescale_q a tb tb = a.
Proof.
  intros Hn Hd Ha. unfold av_rescale_q.
  rewrite <-(Z.mul_1_l (num tb * den tb)) at 1.
  rewrite av_rescale_rnd_mul by nia. ring.
Qed.

(** Round trip: from a time base [1/d] to a finer one [1/(d*k)] the
    rescale multiplies by [k] exactly, and rescaling back returns the
    original timestamp (for instance milliseconds to the engine's 100 ns
    ticks and back). *)
Theorem av_rescale_q_roundtrip a d k :
  0 < d -> 0 < k -> - INT64_MAX <= a * k <= INT64_MAX ->
  let bq := {| num := 1; den := d |} in
  let cq := {| num := 1; den := d * k |} in
  av_rescale_q a bq cq = a * k ∧ av_rescale_q (av_rescale_q a bq cq) cq bq = a.
Proof.
  intros Hd Hk Ha. unfold av_rescale_q; simpl.
  assert (Hm : av_rescale_rnd_near_inf a (1 * (d * k)) (1 * d) = a * k).
  { replace (1 * (d * k)) with (k * d) by ring. rewrite Z.mul_1_l.
    apply av_rescale_rnd_mul; nia. }
  rewrite Hm. split; [done|].
  replace (1 * d) with d by ring. replace (1 * (d * k)) with (d * k) by ring.
  apply av_rescale_rnd_div; nia.
Qed.

(** C20: Round trip of a packet's timestamp.  For a stream time base
    [1/d] that divides the engine's 100 ns base ([d * k = 10^7], for
    instance milliseconds), the timestamp [DecodePacket] submits is the
    stream timestamp times [k], and rescaling it back to [1/d] gives the
    stream timestamp again: no precision is lost between the demuxer and
    the engine. *)
Theorem DecodePacket_timestamp_roundtrip data nSize ts d k :
  0 < d -> 0 < k -> d * k = den CUVID_NATIVE_TIMEBASE -> ts ≠ AV_NOPTS_VALUE ->
  - INT64_MAX <= ts * k <= INT64_MAX ->
  let pkt := DecodePacket_packet data nSize ts {| num := 1; den := d |} in
  pkt_timestamp pkt = ts * k ∧
  av_rescale_q (pkt_timestamp pkt) CUVID_NATIVE_TIMEBASE {| num := 1; den := d |} = ts.
Proof.
  intros Hd Hk Hdk Hts Hr. unfold DecodePacket_packet.
  rewrite (proj2 (Z.eqb_neq _ _) Hts). simpl.
  assert (E : CUVID_NATIVE_TIMEBASE = {| num := 1; den := d * k |}) by (rewrite Hdk; reflexivity).
  rewrite E. apply (av_rescale_q_roundtrip ts d k); lia.
Qed.

(** ** Witnesses *)

Lemma DecodePacket_packet_timestamp_witness :
  let pkt := DecodePacket_packet [Byte.x00] 1 40 {| num := 1; den := 1000 |} in
  payload pkt = [Byte.x00] ∧
  (40 = AV_NOPTS_VALUE -> flags pkt = 0 ∧ pkt_timestamp pkt = 0) ∧
  (40 ≠ AV_NOPTS_VALUE -> flags pkt = CUVID_PKT_TIMESTAMP ∧
     pkt_timestamp pkt = av_rescale_q 40 {| num := 1; den := 1000 |} CUVID_NATIVE_TIMEBASE) ∧
  pkt_timestamp pkt = 400000.
Proof.
  split; [apply DecodePacket_packet_timestamp|].
  split; [apply DecodePacket_packet_timestamp|].
  split; [apply DecodePacket_packet_timestamp|vm_compute; reflexivity].
Defined.

(** A 4 GiB payload; a millisecond timestamp of 2^60 ms. *)
Lemma DecodePacket_packet_bounds_witness :
  let pkt := DecodePacket_packet [] (2 ^ 32) (2 ^ 60) {| num := 1; den := 1000 |} in
  (0 <= payload_size pkt < 2 ^ 32 ∧
   (0 <= 2 ^ 32 < 2 ^ 32 -> payload_size pkt = 2 ^ 32) ∧
   (2 ^ 32 = 2 ^ 32 -> payload_size pkt = 0)) ∧
  flags pkt = CUVID_PKT_TIMESTAMP ∧ pkt_timestamp pkt = AV_NOPTS_VALUE.
Proof.
  pose proof (DecodePacket_packet_bounds [] (2 ^ 32) (2 ^ 60) 1000 10000) as H.
  split; [apply H|]. apply (proj2 H); try reflexivity; unfold INT64_MIN, INT64_MAX; lia.
Defined.

Lemma av_rescale_q_same_witness :
  av_rescale_q 12345 CUVID_NATIVE_TIMEBASE CUVID_NATIVE_TIMEBASE = 12345.
Proof. apply av_rescale_q_same; unfold INT64_MAX; simpl; lia. Defined.

Lemma av_rescale_q_roundtrip_witness :
  av_rescale_q 40 {| num := 1; den := 1000 |} {| num := 1; den := 1000 * 10000 |} = 40 * 10000 ∧
  av_rescale_q (av_rescale_q 40 {| num := 1; den := 1000 |} {| num := 1; den := 1000 * 10000 |})
    {| num := 1; den := 1000 * 10000 |} {| num := 1; den := 1000 |} = 40.
Proof. apply (av_rescale_q_roundtrip 40 1000 10000); unfold INT64_MAX; simpl; lia. Defined.

Lemma DecodePacket_timestamp_roundtrip_witness :
  let pkt := DecodePacket_packet [Byte.x00] 1 1234 {| num := 1; den := 1000 |} in
  pkt_timestamp pkt = 1234 * 10000 ∧
  av_rescale_q (pkt_timestamp pkt) CUVID_NATIVE_TIMEBASE {| num := 1; den := 1000 |} = 1234.
Proof.
  apply (DecodePacket_timestamp_roundtrip [Byte.x00] 1 1234 1000 10000);
    try reflexivity; unfold AV_NOPTS_VALUE, INT64_MIN, INT64_MAX; lia.
Defined.
