(* ===== verification/Session.v ===== *)
(** * The decode session: class [CuvidDecode]

    The object's fields as a record, and the methods of
    [CuvidDecode.cpp] other than [InitDecode]/[CreateDecoder] (in
    [Lifecycle]) as functions of it, generic over the frame queue (any
    instance of [QueueIntf.FrameQueue]).  A method returns a
    [feed_result]: the new object and the C return value, a crash
    (undefined behaviour), or, when a decode callback waits in
    [waitUntilFrameAvailable], the point where the parse call is
    suspended together with what remains to be done once the engine
    returns; [resume] continues it.  Engine calls are recorded, in order,
    in [api_trace]; [AddMessage] records in [log].  The theorems, proved
    against [FrameQueueLaws] and applied to the pool in the witnesses,
    rest on [keeps]: what a run of callbacks preserves (the queue, moved
    only by queue operations; a set error flag; the handles; a trace
    that only grows by parse and decode calls). *)

From S2P Require Import Prelude Engine QueueIntf FrameQueue Format Timestamp.
From stdpp Require Import strings relations.

Local Open Scope Z_scope.
Unset Default Proof Using.

(** [CUVIDEOFORMATEX]: the parser's extended format with the 1024-byte
    sequence-header buffer [raw_seqhdr_data]. *)
Definition SEQHDR_CAPACITY : Z := 1024.

Record CUVIDEOFORMATEX := {
  fx_format : CUVIDEOFORMAT;
  raw_seqhdr_data : list Byte.byte
}.

Definition zero_format : CUVIDEOFORMAT :=
  {| codec := cudaVideoCodec_MPEG1; coded_width := 0; coded_height := 0;
     chroma_format := cudaVideoChromaFormat_Monochrome; seqhdr_data_length := 0 |}.

Definition zero_format_ex : CUVIDEOFORMATEX :=
  {| fx_format := zero_format; raw_seqhdr_data := repeat Byte.x00 (Z.to_nat SEQHDR_CAPACITY) |}.


(** What remains of a method once [cuvidParseVideoData] has returned. *)
Inductive parse_post :=
| PostFlush          (** FlushParser: m_pFrameQueue->endDecode() *)
| PostData           (** DecVideoData: error flag, int result *)
| PostInitHeader.    (** InitDecode: log a failed header *)

Section Session.
Context {Q : Type} `{!FrameQueue Q}.

Record CuvidDecode := {
  m_pFrameQueue : option Q;
  m_decodedFrames : nat;
  m_videoParser : bool;                      (** handle != nullptr *)
  m_videoDecoder : bool;                     (** handle != nullptr *)
  m_ctxLock : option nat;
  m_pPrintMes : bool;                        (** logger set *)
  m_bIgnoreDynamicFormatChange : bool;
  m_bError : bool;
  m_videoDecodeCreateInfo : CUVIDDECODECREATEINFO;
  m_videoFormatEx : CUVIDEOFORMATEX;
  api_trace : list api_call;
  log : list log_entry
}.

(** The constructor, lines 45-50. *)
Definition CuvidDecode_new : CuvidDecode :=
  {| m_pFrameQueue := None; m_decodedFrames := 0; m_videoParser := false;
     m_videoDecoder := false; m_ctxLock := None; m_pPrintMes := false;
     m_bIgnoreDynamicFormatChange := false; m_bError := false;
     m_videoDecodeCreateInfo := zero_create_info; m_videoFormatEx := zero_format_ex;
     api_trace := []; log := [] |}.

Definition AddMessage (lvl : log_level) (msg : string) (s : CuvidDecode) : CuvidDecode :=
  {| s with log := log s ++ [(lvl, msg)] |}.

Definition api (c : api_call) (s : CuvidDecode) : CuvidDecode :=
  {| s with api_trace := api_trace s ++ [c] |}.

(** Assignments to single members. *)
Definition set_frame_queue (q : option Q) (s : CuvidDecode) : CuvidDecode :=
  {| s with m_pFrameQueue := q |}.
Definition set_decoded_frames (n : nat) (s : CuvidDecode) : CuvidDecode :=
  {| s with m_decodedFrames := n |}.
Definition set_parser (b : bool) (s : CuvidDecode) : CuvidDecode :=
  {| s with m_videoParser := b |}.
Definition set_decoder (b : bool) (s : CuvidDecode) : CuvidDecode :=
  {| s with m_videoDecoder := b |}.
Definition set_ctx_lock (l : option nat) (s : CuvidDecode) : CuvidDecode :=
  {| s with m_ctxLock := l |}.
Definition set_print (b : bool) (s : CuvidDecode) : CuvidDecode :=
  {| s with m_pPrintMes := b |}.
Definition set_ignore (b : bool) (s : CuvidDecode) : CuvidDecode :=
  {| s with m_bIgnoreDynamicFormatChange := b |}.
Definition set_error (b : bool) (s : CuvidDecode) : CuvidDecode :=
  {| s with m_bError := b |}.
Definition set_create_info (ci : CUVIDDECODECREATEINFO) (s : CuvidDecode) : CuvidDecode :=
  {| s with m_videoDecodeCreateInfo := ci |}.
Definition set_format_ex (fx : CUVIDEOFORMATEX) (s : CuvidDecode) : CuvidDecode :=
  {| s with m_videoFormatEx := fx |}.

(** [CloseDecoder], lines 117-134: decoder destroyed before parser. *)
Definition CloseDecoder (s : CuvidDecode) : CuvidDecode :=
  let s := if m_videoDecoder s then set_decoder false (api ADestroyDecoder s) else s in
  let s := if m_videoParser s then set_parser false (api ADestroyVideoParser s) else s in
  set_error false (set_decoded_frames 0 (set_frame_queue None (set_print false (set_ctx_lock None s)))).
Arguments CloseDecoder : simpl never.

(** The destructor, lines 52-54. *)
Definition CuvidDecode_delete (s : CuvidDecode) : CuvidDecode := CloseDecoder s.

(** ** The callbacks *)

Inductive cb_result :=
| CBDone (s : CuvidDecode) (ret : Z)
| CBBlocked
| CBCrash (why : crash_reason).

(** [HandleVideoSequence] (lines 30-33) forwarding to [DecVideoSequence]
    (lines 90-107, in [Format]). *)
Definition HandleVideoSequence (s : CuvidDecode) (f : CUVIDEOFORMAT) : CuvidDecode * Z :=
  let o := DecVideoSequence (m_videoDecodeCreateInfo s) (m_bIgnoreDynamicFormatChange s)
             (m_bError s) f in
  (set_create_info (so_info o) (set_error (so_error o) {| s with log := log s ++ so_log o |}),
   so_ret o).

(** [DecPictureDecode], lines 72-88.  The result of
    [waitUntilFrameAvailable] is ignored: only a wait that blocks stops
    the callback. *)
Definition DecPictureDecode (s : CuvidDecode) (pp : CUVIDPICPARAMS)
    (dec : engine_ret CUresult) : cb_result :=
  let s := AddMessage NV_LOG_TRACE "DecPictureDecode idx" s in
  match m_pFrameQueue s with
  | None => CBCrash NullFrameQueue
  | Some q =>
      let waited := match fq_wait q (CurrPicIdx pp) with
                    | WaitOk q' => Some (set_frame_queue (Some q') s)
                    | WaitBlocked => None
                    | WaitEnded | WaitInvalid => Some s
                    end in
      match waited with
      | None => CBBlocked
      | Some s =>
          let s := api (ADecodePicture (CurrPicIdx pp)) s in
          let '(res, faulted) := seh_guard dec in
          let s := if faulted then AddMessage NV_LOG_ERROR "cuvidDecodePicture error" s else s in
          let s := if res =? CUDA_SUCCESS then s else set_error true s in
          CBDone s (if res =? CUDA_SUCCESS then 1 else 0)
      end
  end.

(** [DecPictureDisplay], lines 109-115: [enqueue] returns nothing, the
    counter is incremented in every case. *)
Definition DecPictureDisplay (s : CuvidDecode) (di : CUVIDPARSERDISPINFO) : cb_result :=
  let s := AddMessage NV_LOG_TRACE "DecPictureDisplay idx" s in
  match m_pFrameQueue s with
  | None => CBCrash NullFrameQueue
  | Some q =>
      let q' := default q (fq_enqueue q di) in
      CBDone (set_decoded_frames (S (m_decodedFrames s)) (set_frame_queue (Some q') s)) 1
  end.

(** ** One parse call *)

Inductive parse_run :=
| PRDone (s : CuvidDecode) (r : engine_ret CUresult)
| PRBlocked (s : CuvidDecode) (pp : CUVIDPICPARAMS) (dec : engine_ret CUresult)
    (k : Z -> parse_prog)
| PRCrash (why : crash_reason).

(** The engine running a parse call: each callback goes through its
    static adapter (lines 30-43) to the session; its return value is
    handed back to the engine. *)
Fixpoint run_parse (s : CuvidDecode) (p : parse_prog) : parse_run :=
  match p with
  | PEnd r => PRDone s r
  | PSequence f k => let '(s', ret) := HandleVideoSequence s f in run_parse s' (k ret)
  | PDecode pp dec k =>
      match DecPictureDecode s pp dec with
      | CBDone s' ret => run_parse s' (k ret)
      | CBBlocked => PRBlocked s pp dec k
      | CBCrash why => PRCrash why
      end
  | PDisplay di k =>
      match DecPictureDisplay s di with
      | CBDone s' ret => run_parse s' (k ret)
      | CBBlocked => PRCrash NullFrameQueue
      | CBCrash why => PRCrash why
      end
  end.

Inductive feed_result :=
| FDone (s : CuvidDecode) (r : Z)
| FBlocked (s : CuvidDecode) (pp : CUVIDPICPARAMS) (dec : engine_ret CUresult)
    (k : Z -> parse_prog) (posts : list parse_post)
| FCrash (why : crash_reason).

(** The code after [cuvidParseVideoData] returns, per caller. *)
Definition post_step (p : parse_post) (s : CuvidDecode) (res : CUresult) : exec CuvidDecode Z :=
  match p with
  | PostFlush =>
      match m_pFrameQueue s with
      | None => Crash NullFrameQueue
      | Some q => Done (set_frame_queue (Some (fq_end q)) s) res
      end
  | PostData =>
      if res =? CUDA_SUCCESS then Done s 1
      else Done (set_error true s) 0
  | PostInitHeader =>
      if res =? CUDA_SUCCESS then Done s res
      else Done (AddMessage NV_LOG_ERROR "Failed to decode header" s) res
  end.

Fixpoint apply_posts (posts : list parse_post) (s : CuvidDecode) (res : Z) : feed_result :=
  match posts with
  | [] => FDone s res
  | p :: ps =>
      match post_step p s res with
      | Done s' r' => apply_posts ps s' r'
      | Crash why => FCrash why
      end
  end.

(** The fault guard around [cuvidParseVideoData], then the caller's code. *)
Definition finish_parse (posts : list parse_post) (pr : parse_run) : feed_result :=
  match pr with
  | PRCrash why => FCrash why
  | PRBlocked s pp dec k => FBlocked s pp dec k posts
  | PRDone s r =>
      let '(res, faulted) := seh_guard r in
      let s := if faulted then AddMessage NV_LOG_ERROR "cuvidParseVideoData error" s else s in
      apply_posts posts s res
  end.

Definition parse_call (s : CuvidDecode) (pkt : CUVIDSOURCEDATAPACKET) (prog : parse_prog)
    (posts : list parse_post) : feed_result :=
  finish_parse posts (run_parse (api (AParseVideoData pkt) s) prog).

(** A decode callback that waited is tried again. *)
Definition resume (s : CuvidDecode) (pp : CUVIDPICPARAMS) (dec : engine_ret CUresult)
    (k : Z -> parse_prog) (posts : list parse_post) : feed_result :=
  finish_parse posts (run_parse s (PDecode pp dec k)).

(** ** The methods that feed the parser *)

(** [DecVideoData], lines 56-70. *)
Definition DecVideoData (s : CuvidDecode) (pkt : CUVIDSOURCEDATAPACKET) (prog : parse_prog)
    : feed_result :=
  parse_call s pkt prog [PostData].

(** [HandleVideoData], lines 25-28: the static adapter to [DecVideoData].
    [InitDecode] registers only the sequence, decode and display
    adapters with the parser (lines 182-184), so nothing calls it. *)
Definition HandleVideoData (s : CuvidDecode) (pkt : CUVIDSOURCEDATAPACKET) (prog : parse_prog)
    : feed_result :=
  DecVideoData s pkt prog.

(** [FlushParser], lines 239-256, followed by the caller's [posts]. *)
Definition FlushParser_then (s : CuvidDecode) (prog : parse_prog) (posts : list parse_post)
    : feed_result :=
  parse_call s FlushParser_packet prog (PostFlush :: posts).

Definition FlushParser (s : CuvidDecode) (prog : parse_prog) : feed_result :=
  FlushParser_then s prog [].

(** [DecodePacket], lines 258-283, followed by the caller's [posts]. *)
Definition DecodePacket_then (s : CuvidDecode) (data : option (list Byte.byte))
    (nSize timestamp : Z) (streamtimebase : AVRational) (prog : parse_prog)
    (posts : list parse_post) : feed_result :=
  match data with
  | Some bytes =>
      if nSize =? 0 then FlushParser_then s prog posts
      else parse_call s (DecodePacket_packet bytes nSize timestamp streamtimebase) prog posts
  | None => FlushParser_then s prog posts
  end.

Definition DecodePacket (s : CuvidDecode) (data : option (list Byte.byte))
    (nSize timestamp : Z) (streamtimebase : AVRational) (prog : parse_prog) : feed_result :=
  DecodePacket_then s data nSize timestamp streamtimebase prog [].

End Session.

Arguments CuvidDecode : clear implicits.

(** ** Properties of the session's methods *)

Section SessionTheory.
Context {Q : Type} `{!FrameQueue Q} `{!FrameQueueLaws Q}.

Implicit Types (s : CuvidDecode Q) (p : parse_prog).

(** ** The callbacks keep the queue, the error flag, the trace *)

(** The engine calls a parse call can make: the parse itself and, from a
    decode callback, [cuvidDecodePicture]. *)
Definition engine_io (c : api_call) : Prop :=
  match c with AParseVideoData _ | ADecodePicture _ => True | _ => False end.

(** One transition of the frame queue the session can cause: a
    successful wait, an accepted enqueue, or [endDecode]. *)
Definition fq_step (q q' : Q) : Prop :=
  (∃ i, fq_wait q i = WaitOk q') ∨ (∃ d, fq_enqueue q d = Some q') ∨ q' = fq_end q.

(** What a run of callbacks keeps: an allocated queue stays allocated and
    moves only by frame-queue transitions, the error flag stays set, the
    engine-call trace only grows, by parse and decode calls, and the
    handles are untouched. *)
Definition keeps (s s' : CuvidDecode Q) : Prop :=
  (∀ q, m_pFrameQueue s = Some q -> ∃ q', m_pFrameQueue s' = Some q' ∧ rtc fq_step q q') ∧
  (m_bError s = true -> m_bError s' = true) ∧
  (∃ t, api_trace s' = api_trace s ++ t ∧ Forall engine_io t) ∧
  m_videoParser s' = m_videoParser s ∧ m_videoDecoder s' = m_videoDecoder s.

Lemma keeps_some s s' : keeps s s' -> is_Some (m_pFrameQueue s) -> is_Some (m_pFrameQueue s').
Proof. intros [K _] [q Hq]. destruct (K q Hq) as (q' & -> & _). by eexists. Qed.

(** Changes that leave the queue and the other kept fields as they are. *)
Lemma keeps_same s s' :
  m_pFrameQueue s' = m_pFrameQueue s -> (m_bError s = true -> m_bError s' = true) ->
  api_trace s' = api_trace s -> m_videoParser s' = m_videoParser s ->
  m_videoDecoder s' = m_videoDecoder s -> keeps s s'.
Proof.
  intros Hq He Ht Hp Hd. split_and!; try done.
  - intros q E. exists q. rewrite Hq. split; [done|apply rtc_refl].
  - exists []. by rewrite app_nil_r.
Qed.

(** A single queue transition, the rest unchanged. *)
Lemma keeps_queue s q q' :
  m_pFrameQueue s = Some q -> fq_step q q' -> keeps s (set_frame_queue (Some q') s).
Proof.
  intros Hq Hs. split_and!; try done.
  - intros q0 E. rewrite Hq in E. simplify_eq. exists q'. split; [done|by apply rtc_once].
  - exists []. by rewrite app_nil_r.
Qed.

Lemma keeps_refl s : keeps s s.
Proof. by apply keeps_same. Qed.

Lemma keeps_trans s1 s2 s3 : keeps s1 s2 -> keeps s2 s3 -> keeps s1 s3.
Proof.
  intros (H1 & H2 & (t1 & E1 & F1) & H4 & H5) (G1 & G2 & (t2 & E2 & F2) & G4 & G5).
  split_and!; [|eauto| |congruence|congruence].
  - intros q Hq. destruct (H1 q Hq) as (q2 & Hq2 & R1). destruct (G1 q2 Hq2) as (q3 & Hq3 & R2).
    exists q3. split; [done|by eapply rtc_trans].
  - exists (t1 ++ t2). rewrite E2, E1, app_assoc. split; [done|by apply Forall_app].
Qed.

Lemma keeps_log s lvl msg : keeps s (AddMessage lvl msg s).
Proof. by apply keeps_same. Qed.

Lemma keeps_api s c : engine_io c -> keeps s (api c s).
Proof.
  intros Hc. split_and!; try done.
  - intros q Hq. exists q. split; [done|apply rtc_refl].
  - exists [c]. split; [done|by constructor].
Qed.

Lemma keeps_parse s pkt : keeps s (api (AParseVideoData pkt) s).
Proof. by apply keeps_api. Qed.

#[local] Hint Resolve keeps_refl keeps_log keeps_api : cuvid.

(** The queue clause of [keeps], when the queue stayed or took one
    step recorded in a hypothesis. *)
Ltac keeps_queue_tac :=
  let q0 := fresh "q0" in let H0 := fresh "H0" in
  intros q0 H0;
  repeat match goal with
  | Hq : m_pFrameQueue ?x = Some _ |- context [m_pFrameQueue ?x] => rewrite Hq
  | Hq : m_pFrameQueue ?x = Some _, H1 : m_pFrameQueue ?x = Some _ |- _ =>
      rewrite Hq in H1; simplify_eq
  end; eexists; split; [reflexivity|];
  first [ apply rtc_refl
        | apply rtc_once; left; eexists; eassumption
        | apply rtc_once; right; left; eexists; eassumption
        | apply rtc_once; right; right; reflexivity ].

Lemma HandleVideoSequence_keeps s f : keeps s (HandleVideoSequence s f).1.
Proof.
  apply keeps_same; try done.
  simpl. intros ->. apply DecVideoSequence_error_sticky.
Qed.

Lemma DecPictureDecode_keeps s pp dec s' ret :
  DecPictureDecode s pp dec = CBDone s' ret -> keeps s s'.
Proof.
  unfold DecPictureDecode. simpl. destruct (m_pFrameQueue s) as [q|] eqn:Hq; [|done].
  destruct (fq_wait q _) eqn:Hw; simpl; [| | |done];
  destruct (seh_guard dec) as [res faulted]; destruct faulted, (res =? CUDA_SUCCESS);
    intros [= <- _]; split_and!; simpl; try done; try keeps_queue_tac;
    exists [ADecodePicture (CurrPicIdx pp)]; simpl; rewrite <-?app_assoc; split; try done;
    by constructor.
Qed.

Lemma DecPictureDisplay_keeps s di s' ret :
  DecPictureDisplay s di = CBDone s' ret -> keeps s s'.
Proof.
  unfold DecPictureDisplay. simpl. destruct (m_pFrameQueue s) as [q|] eqn:Hq; [|done].
  intros [= <- _]. split_and!; try done.
  - destruct (fq_enqueue q di) eqn:He; simpl; keeps_queue_tac.
  - exists []. by rewrite app_nil_r.
Qed.

(** With a queue allocated no callback dereferences a null pointer. *)
Lemma DecPictureDecode_some s pp dec q :
  m_pFrameQueue s = Some q -> DecPictureDecode s pp dec ≠ CBCrash NullFrameQueue ∧
  ∀ why, DecPictureDecode s pp dec ≠ CBCrash why.
Proof.
  intros Hq. unfold DecPictureDecode. simpl. rewrite Hq.
  destruct (fq_wait q _); simpl; try (destruct (seh_guard dec)); split; done.
Qed.

Lemma DecPictureDisplay_some s di q :
  m_pFrameQueue s = Some q -> ∃ s', DecPictureDisplay s di = CBDone s' 1.
Proof. intros Hq. unfold DecPictureDisplay. simpl. rewrite Hq. by eexists. Qed.

(** A run of the parser from a state with a queue never crashes, and what
    it leaves keeps that state. *)
Lemma run_parse_keeps s p :
  is_Some (m_pFrameQueue s) ->
  match run_parse s p with
  | PRDone s' _ => keeps s s'
  | PRBlocked s' _ _ _ => keeps s s'
  | PRCrash _ => False
  end.
Proof.
  revert s. induction p as [r|f k IH|pp dec k IH|di k IH]; intros s [q Hq];
    cbn -[HandleVideoSequence DecPictureDecode DecPictureDisplay].
  - apply keeps_refl.
  - destruct (HandleVideoSequence s f) as [s1 ret] eqn:E.
    pose proof (HandleVideoSequence_keeps s f) as K. rewrite E in K. simpl in K.
    specialize (IH ret s1 (keeps_some _ _ K (ex_intro _ q Hq))).
    revert IH; destruct (run_parse s1 (k ret)); eauto using keeps_trans.
  - destruct (DecPictureDecode s pp dec) as [s1 ret| |why] eqn:E.
    + pose proof (DecPictureDecode_keeps _ _ _ _ _ E) as K.
      specialize (IH ret s1 (keeps_some _ _ K (ex_intro _ q Hq))).
      revert IH; destruct (run_parse s1 (k ret)); eauto using keeps_trans.
    + apply keeps_refl.
    + by apply (DecPictureDecode_some s pp dec q Hq) in E.
  - destruct (DecPictureDisplay_some s di q Hq) as [s1 E]. rewrite E.
    pose proof (DecPictureDisplay_keeps _ _ _ _ E) as K.
    specialize (IH 1 s1 (keeps_some _ _ K (ex_intro _ q Hq))).
    revert IH; destruct (run_parse s1 (k 1)); eauto using keeps_trans.
Qed.

Lemma post_step_keeps ps s res :
  is_Some (m_pFrameQueue s) ->
  match post_step ps s res with Done s' _ => keeps s s' | Crash _ => False end.
Proof.
  intros [q Hq]. destruct ps; simpl.
  - rewrite Hq. eapply keeps_queue; [done|by right; right].
  - destruct (res =? CUDA_SUCCESS); [apply keeps_refl|by apply keeps_same].
  - destruct (res =? CUDA_SUCCESS); [apply keeps_refl|apply keeps_log].
Qed.

Lemma apply_posts_keeps posts s res :
  is_Some (m_pFrameQueue s) ->
  match apply_posts posts s res with
  | FDone s' _ => keeps s s'
  | _ => False
  end.
Proof.
  revert s res. induction posts as [|ps posts IH]; intros s res Hq; simpl; [apply keeps_refl|].
  pose proof (post_step_keeps ps s res Hq) as K.
  destruct (post_step ps s res) as [s1 r1|why]; [|done].
  specialize (IH s1 r1 (keeps_some _ _ K Hq)). revert IH.
  destruct (apply_posts posts s1 r1); eauto using keeps_trans.
Qed.

(** A parse call from a state with a queue, whatever the engine does and
    whatever the caller's remaining code: no crash, and the result keeps
    the state (queue, sticky error, growing trace, handles). *)
(** The engine's parse followed by the caller's code, from a state with a
    queue, whatever the engine does: no crash, and the result keeps the
    state (queue, sticky error, growing trace, handles). *)
Lemma finish_parse_keeps s prog posts :
  is_Some (m_pFrameQueue s) ->
  match finish_parse posts (run_parse s prog) with
  | FDone s' _ | FBlocked s' _ _ _ _ => keeps s s'
  | FCrash _ => False
  end.
Proof.
  intros Hq. unfold finish_parse.
  pose proof (run_parse_keeps s prog Hq) as K.
  destruct (run_parse _ prog) as [s1 r|s1 pp dec k|why]; [|done|done].
  destruct (seh_guard r) as [res faulted].
  assert (K1 : keeps s (if faulted then AddMessage NV_LOG_ERROR "cuvidParseVideoData error" s1 else s1)).
  { eapply keeps_trans; [exact K|]. destruct faulted; auto with cuvid. }
  pose proof (apply_posts_keeps posts _ res (keeps_some _ _ K1 Hq)) as K2.
  destruct (apply_posts _ _ _); try contradiction; eauto using keeps_trans.
Qed.

(** A parse call keeps the state from the moment the packet is handed to
    [cuvidParseVideoData]. *)
Lemma parse_call_keeps_api s pkt prog posts :
  is_Some (m_pFrameQueue s) ->
  match parse_call s pkt prog posts with
  | FDone s' _ | FBlocked s' _ _ _ _ => keeps (api (AParseVideoData pkt) s) s'
  | FCrash _ => False
  end.
Proof. intros Hq. apply finish_parse_keeps. done. Qed.

Lemma parse_call_keeps s pkt prog posts :
  is_Some (m_pFrameQueue s) ->
  match parse_call s pkt prog posts with
  | FDone s' _ | FBlocked s' _ _ _ _ => keeps s s'
  | FCrash _ => False
  end.
Proof.
  intros Hq. pose proof (parse_call_keeps_api s pkt prog posts Hq) as K.
  destruct (parse_call _ _ _ _); try done; eapply keeps_trans; [apply keeps_parse|exact K|apply keeps_parse|exact K].
Qed.

Lemma resume_keeps s pp dec k posts :
  is_Some (m_pFrameQueue s) ->
  match resume s pp dec k posts with
  | FDone s' _ | FBlocked s' _ _ _ _ => keeps s s'
  | FCrash _ => False
  end.
Proof. apply finish_parse_keeps. Qed.

Lemma DecodePacket_then_keeps s data nSize ts tb prog posts :
  is_Some (m_pFrameQueue s) ->
  match DecodePacket_then s data nSize ts tb prog posts with
  | FDone s' _ | FBlocked s' _ _ _ _ => keeps s s'
  | FCrash _ => False
  end.
Proof.
  intros Hq. unfold DecodePacket_then, FlushParser_then.
  destruct data; [destruct (nSize =? 0)|]; by apply parse_call_keeps.
Qed.

Lemma close_clears s :
  m_videoDecoder (CloseDecoder s) = false ∧ m_videoParser (CloseDecoder s) = false ∧
  m_pFrameQueue (CloseDecoder s) = None ∧ m_bError (CloseDecoder s) = false ∧
  m_decodedFrames (CloseDecoder s) = 0%nat.
Proof.
  unfold CloseDecoder. destruct (m_videoDecoder s) eqn:Hd; simpl;
    destruct (m_videoParser s) eqn:Hp; simpl; split_and!; done.
Qed.

(** A session whose queue is gone keeps it gone through a parse call, or
    crashes on it. *)
Lemma run_parse_no_queue s p :
  m_pFrameQueue s = None ->
  run_parse s p = PRCrash NullFrameQueue ∨
  ∃ s' r, run_parse s p = PRDone s' r ∧ m_pFrameQueue s' = None.
Proof.
  revert s. induction p as [r|f k IH|pp dec k IH|di k IH]; intros s Hq; simpl.
  - right. eauto.
  - apply IH. by simpl.
  - unfold DecPictureDecode. simpl. rewrite Hq. by left.
  - unfold DecPictureDisplay. simpl. rewrite Hq. by left.
Qed.

(** ** Theorems *)

(** C5: Safety of feeding.  While the frame queue is allocated,
    [DecodePacket] never dereferences a null pointer whatever the engine
    does (callbacks, faults, blocking); the queue stays allocated, a set
    error flag stays set, the engine handles are untouched and the
    engine-call trace only grows. *)
Theorem DecodePacket_safe s data nSize ts tb prog :
  is_Some (m_pFrameQueue s) ->
  match DecodePacket s data nSize ts tb prog with
  | FDone s' _ | FBlocked s' _ _ _ _ => keeps s s'
  | FCrash _ => False
  end.
Proof. apply DecodePacket_then_keeps. Qed.

(** A second [CloseDecoder] makes no engine call and changes nothing. *)
Lemma CloseDecoder_idempotent s : CloseDecoder (CloseDecoder s) = CloseDecoder s.
Proof.
  by destruct s as [? ? [] [] ? ? ? ? ? ? ? ?].
Qed.

(** C23: [CloseDecoder] destroys the decoder before the parser (only the
    handles that exist), and leaves no handle, no queue, no lock, a zero
    frame counter and a clear error flag; the cached format and the
    tolerance flag are not reset.  It is safe to call several times: a
    second call makes no engine call and changes nothing. *)
Theorem CloseDecoder_teardown s :
  let s' := CloseDecoder s in
  api_trace s' = api_trace s ++ (if m_videoDecoder s then [ADestroyDecoder] else [])
                             ++ (if m_videoParser s then [ADestroyVideoParser] else []) ∧
  m_videoDecoder s' = false ∧ m_videoParser s' = false ∧ m_pFrameQueue s' = None ∧
  m_ctxLock s' = None ∧ m_decodedFrames s' = 0%nat ∧ m_bError s' = false ∧
  m_videoDecodeCreateInfo s' = m_videoDecodeCreateInfo s ∧
  m_bIgnoreDynamicFormatChange s' = m_bIgnoreDynamicFormatChange s ∧
  CloseDecoder s' = s'.
Proof.
  cbv zeta. rewrite CloseDecoder_idempotent.
  unfold CloseDecoder. destruct (m_videoDecoder s) eqn:Hd; simpl;
    destruct (m_videoParser s) eqn:Hp; simpl; rewrite ?app_nil_r, <-?app_assoc; split_and!; done.
Qed.



Lemma flush_ends_queue s prog posts s' r :
  FlushParser_then s prog posts = FDone s' r ->
  posts = [] -> ∃ q, m_pFrameQueue s' = Some q ∧ fq_is_ended q = true.
Proof.
  intros Hf ->. revert Hf. unfold FlushParser_then, parse_call, finish_parse.
  destruct (run_parse _ _) as [s1 r1| |]; try done.
  destruct (seh_guard r1) as [res []]; simpl;
    destruct (m_pFrameQueue s1) as [q|]; try done; intros [= <- <-];
    exists (fq_end q); split; auto with cuvid.
Qed.

Lemma DecodePacket_empty_is_flush s data nSize ts tb prog :
  (data = None ∨ nSize = 0) -> DecodePacket s data nSize ts tb prog = FlushParser s prog.
Proof.
  unfold DecodePacket, DecodePacket_then. intros [->| ->]; [done|]. by destruct data.
Qed.

(** C12: Feeding an empty payload (a null pointer or size 0) is
    [FlushParser]; when it returns, the frame queue exists and is ended,
    whatever the engine did during the end-of-stream parse. *)
Theorem DecodePacket_empty_flushes s data nSize ts tb prog :
  (data = None ∨ nSize = 0) ->
  DecodePacket s data nSize ts tb prog = FlushParser s prog ∧
  (∀ s' r, DecodePacket s data nSize ts tb prog = FDone s' r ->
     ∃ q, m_pFrameQueue s' = Some q ∧ fq_is_ended q = true).
Proof.
  intros Hd. rewrite (DecodePacket_empty_is_flush _ _ _ _ _ _ Hd).
  split; [done|]. intros s' r Hf. by eapply flush_ends_queue.
Qed.

(** C27: For an engine whose parse of a non-empty packet makes no
    callback (so that only [DecodePacket]'s own code runs), the parse's
    result is what [DecodePacket] returns: a structured exception inside
    [cuvidParseVideoData] becomes [CUDA_ERROR_UNKNOWN] with an error
    logged and does not escape; a failure code is returned as is; in
    neither case is the sticky error flag set. *)
Theorem DecodePacket_engine_result s bytes nSize ts tb e :
  nSize ≠ 0 ->
  ∃ s', DecodePacket s (Some bytes) nSize ts tb (PEnd e) = FDone s' (seh_guard e).1 ∧
    m_bError s' = m_bError s ∧
    api_trace s' = api_trace s ++ [AParseVideoData (DecodePacket_packet bytes nSize ts tb)] ∧
    (e = EFault -> (seh_guard e).1 = CUDA_ERROR_UNKNOWN ∧
                   (NV_LOG_ERROR, "cuvidParseVideoData error"%string) ∈ log s').
Proof.
  intros Hn. unfold DecodePacket, DecodePacket_then. rewrite (proj2 (Z.eqb_neq _ _) Hn).
  unfold parse_call, finish_parse. simpl. destruct e as [r|]; simpl.
  - eexists. split_and!; try done.
  - eexists. split_and!; try done. intros _. split; [done|]. simpl. set_solver.
Qed.

(** C25: [DecPictureDecode] on every branch of [waitUntilFrameAvailable]:
    when the wait blocks, so does the callback; otherwise it calls
    [cuvidDecodePicture] once, returns 1 exactly when that call succeeded,
    sets the sticky error flag when it failed (a fault counts as a
    failure), and keeps the queue as the wait left it. *)
Theorem DecPictureDecode_spec s pp dec q :
  m_pFrameQueue s = Some q ->
  let ok := (seh_guard dec).1 =? CUDA_SUCCESS in
  match fq_wait q (CurrPicIdx pp) with
  | WaitBlocked => DecPictureDecode s pp dec = CBBlocked
  | w =>
      ∃ s', DecPictureDecode s pp dec = CBDone s' (if ok then 1 else 0) ∧
        api_trace s' = api_trace s ++ [ADecodePicture (CurrPicIdx pp)] ∧
        m_bError s' = m_bError s || negb ok ∧
        m_pFrameQueue s' = Some (match w with WaitOk q' => q' | _ => q end)
  end.
Proof.
  intros Hq. unfold DecPictureDecode. simpl. rewrite Hq.
  destruct (fq_wait q _) as [q'| | |]; try done;
    destruct (seh_guard dec) as [res []]; simpl; destruct (res =? CUDA_SUCCESS);
    eexists; split_and!; simpl; rewrite ?orb_false_r, ?orb_true_r; done.
Qed.

(** C31: Once the queue is ended, a decode callback never blocks, and it
    still calls [cuvidDecodePicture] on the requested surface although the
    wait reserved nothing: the queue is left as it was. *)
Theorem DecPictureDecode_after_end s pp dec q :
  m_pFrameQueue s = Some q -> fq_is_ended q = true ->
  ∃ s' ret, DecPictureDecode s pp dec = CBDone s' ret ∧ m_pFrameQueue s' = Some q ∧
    api_trace s' = api_trace s ++ [ADecodePicture (CurrPicIdx pp)].
Proof.
  intros Hq He. unfold DecPictureDecode. simpl. rewrite Hq, fq_wait_when_ended by done.
  destruct (seh_guard dec) as [res []]; simpl; destruct (res =? CUDA_SUCCESS); by eexists _, _.
Qed.

(** A failed [cuvidDecodePicture] sets the sticky error flag and
    makes the callback return 0, but does not end the frame queue: a
    consumer waiting for a frame is not woken by the failure. *)
Theorem DecPictureDecode_error_not_ended s pp r q s' ret :
  m_pFrameQueue s = Some q -> r ≠ CUDA_SUCCESS ->
  DecPictureDecode s pp (ERet r) = CBDone s' ret ->
  m_bError s' = true ∧ ret = 0 ∧
  ∃ q', m_pFrameQueue s' = Some q' ∧ fq_is_ended q' = fq_is_ended q.
Proof.
  intros Hq Hr. unfold DecPictureDecode. simpl. rewrite Hq.
  destruct (fq_wait q _) as [q'| | |] eqn:Hw; try done; simpl; rewrite (proj2 (Z.eqb_neq _ _) Hr);
    intros [= <- <-]; split_and!; try done; eexists; split; try done.
  by eapply fq_wait_keeps_ended.
Qed.

(** C26: Each display callback returns 1, adds one to the decoded-frame
    counter and hands the picture to [enqueue]; the counter is incremented
    even when the queue refuses the picture. *)
Theorem DecPictureDisplay_counts s di q :
  m_pFrameQueue s = Some q ->
  ∃ s', DecPictureDisplay s di = CBDone s' 1 ∧
    m_decodedFrames s' = S (m_decodedFrames s) ∧
    m_pFrameQueue s' = Some (default q (fq_enqueue q di)) ∧
    m_bError s' = m_bError s.
Proof. intros Hq. unfold DecPictureDisplay. simpl. rewrite Hq. by eexists. Qed.

(** [FlushParser] without a frame queue ends in a null dereference. *)
Lemma FlushParser_no_queue s prog :
  m_pFrameQueue s = None -> FlushParser s prog = FCrash NullFrameQueue.
Proof.
  intros Hq. unfold FlushParser, FlushParser_then, parse_call.
  destruct (run_parse_no_queue (api (AParseVideoData FlushParser_packet) s) prog Hq)
    as [->|(s' & r & -> & Hq')]; [by simpl|].
  simpl. destruct (seh_guard r) as [res []]; simpl; by rewrite Hq'.
Qed.

(** C32: [FlushParser] on a session without a frame queue -- closed by
    [CloseDecoder], or never given one, as after an [InitDecode] that
    failed at the probe or the allocation (C18) -- dereferences the null
    [m_pFrameQueue]: whatever the parser does, the call ends in the
    [endDecode] on the null queue, or earlier in a callback's. *)
Theorem FlushParser_after_close s prog :
  FlushParser (CloseDecoder s) prog = FCrash NullFrameQueue ∧
  (m_pFrameQueue s = None -> FlushParser s prog = FCrash NullFrameQueue).
Proof.
  split; [|apply FlushParser_no_queue].
  apply FlushParser_no_queue. by destruct (close_clears s) as (_ & _ & Hq & _).
Qed.

(** [DecVideoData] (lines 56-70) maps the parse call's result to the
    callback convention: 1 on success; 0 on a failure or a fault, which
    also sets the sticky error flag. *)
Theorem DecVideoData_result s pkt prog s1 r :
  run_parse (api (AParseVideoData pkt) s) prog = PRDone s1 r ->
  ∃ s', DecVideoData s pkt prog = FDone s' (if (seh_guard r).1 =? CUDA_SUCCESS then 1 else 0) ∧
    m_bError s' = m_bError s1 || negb ((seh_guard r).1 =? CUDA_SUCCESS) ∧
    m_pFrameQueue s' = m_pFrameQueue s1.
Proof.
  intros H. unfold DecVideoData, parse_call. rewrite H. simpl.
  destruct (seh_guard r) as [res b]. simpl.
  destruct (res =? CUDA_SUCCESS); simpl; eexists; (split; [reflexivity|]);
    destruct b; simpl; rewrite ?orb_false_r, ?orb_true_r; done.
Qed.

End SessionTheory.

(** ** Witnesses, on the pool of [FrameQueue] *)

Import Pool.

Definition s_open : CuvidDecode pool :=
  set_frame_queue (Some (pool_make cnMaximumSize 1920 1080)) CuvidDecode_new.

Definition s_ended : CuvidDecode pool :=
  set_frame_queue (Some (pool_end (pool_make cnMaximumSize 1920 1080))) CuvidDecode_new.

Definition pic (i : Z) : CUVIDPICPARAMS := {| CurrPicIdx := i |}.

(** The engine decoding one picture into surface 0 and displaying it. *)
Definition prog_one_frame : parse_prog :=
  PDecode (pic 0) (ERet CUDA_SUCCESS) (fun _ => PDisplay (disp 0) (fun _ => PEnd (ERet CUDA_SUCCESS))).

Lemma DecodePacket_safe_witness :
  match DecodePacket s_open (Some [Byte.x00]) 1 0 CUVID_NATIVE_TIMEBASE prog_one_frame with
  | FDone s' _ | FBlocked s' _ _ _ _ => keeps s_open s'
  | FCrash _ => False
  end.
Proof. apply DecodePacket_safe. simpl. by eexists. Defined.

Lemma DecodePacket_empty_flushes_witness :
  DecodePacket s_open None 0 0 CUVID_NATIVE_TIMEBASE prog_one_frame = FlushParser s_open prog_one_frame ∧
  (∀ s' r, DecodePacket s_open None 0 0 CUVID_NATIVE_TIMEBASE prog_one_frame = FDone s' r ->
     ∃ q, m_pFrameQueue s' = Some q ∧ fq_is_ended q = true).
Proof. apply DecodePacket_empty_flushes. by left. Defined.

Lemma DecodePacket_engine_result_witness :
  ∃ s', DecodePacket s_open (Some [Byte.x00]) 1 0 CUVID_NATIVE_TIMEBASE (PEnd EFault) =
          FDone s' (seh_guard EFault).1 ∧
    m_bError s' = m_bError s_open ∧
    api_trace s' = api_trace s_open ++
                   [AParseVideoData (DecodePacket_packet [Byte.x00] 1 0 CUVID_NATIVE_TIMEBASE)] ∧
    (@EFault CUresult = EFault -> (seh_guard EFault).1 = CUDA_ERROR_UNKNOWN ∧
                   (NV_LOG_ERROR, "cuvidParseVideoData error"%string) ∈ log s').
Proof. apply DecodePacket_engine_result. lia. Defined.

Lemma DecPictureDecode_spec_witness :
  let ok := (seh_guard (ERet 1)).1 =? CUDA_SUCCESS in
  match fq_wait (pool_make cnMaximumSize 1920 1080) (CurrPicIdx (pic 3)) with
  | WaitBlocked => DecPictureDecode s_open (pic 3) (ERet 1) = CBBlocked
  | w =>
      ∃ s', DecPictureDecode s_open (pic 3) (ERet 1) = CBDone s' (if ok then 1 else 0) ∧
        api_trace s' = api_trace s_open ++ [ADecodePicture (CurrPicIdx (pic 3))] ∧
        m_bError s' = m_bError s_open || negb ok ∧
        m_pFrameQueue s' = Some (match w with WaitOk q' => q' | _ => pool_make cnMaximumSize 1920 1080 end)
  end.
Proof. apply DecPictureDecode_spec. reflexivity. Defined.

Lemma DecPictureDecode_after_end_witness :
  ∃ s' ret, DecPictureDecode s_ended (pic 5) (ERet CUDA_SUCCESS) = CBDone s' ret ∧
    m_pFrameQueue s' = Some (pool_end (pool_make cnMaximumSize 1920 1080)) ∧
    api_trace s' = api_trace s_ended ++ [ADecodePicture (CurrPicIdx (pic 5))].
Proof. apply DecPictureDecode_after_end; reflexivity. Defined.

Definition decode_failed : CuvidDecode pool * Z :=
  match DecPictureDecode s_open (pic 0) (ERet CUDA_ERROR_UNKNOWN) with
  | CBDone s' ret => (s', ret)
  | _ => (s_open, 1)
  end.

Lemma DecPictureDecode_error_not_ended_witness :
  m_bError decode_failed.1 = true ∧ decode_failed.2 = 0 ∧
  ∃ q', m_pFrameQueue decode_failed.1 = Some q' ∧
        fq_is_ended q' = fq_is_ended (pool_make cnMaximumSize 1920 1080).
Proof.
  apply (DecPictureDecode_error_not_ended s_open (pic 0) CUDA_ERROR_UNKNOWN
           (pool_make cnMaximumSize 1920 1080)); [reflexivity|vm_compute; discriminate|reflexivity].
Defined.

Lemma DecPictureDisplay_counts_witness :
  ∃ s', DecPictureDisplay s_open (disp 0) = CBDone s' 1 ∧
    m_decodedFrames s' = S (m_decodedFrames s_open) ∧
    m_pFrameQueue s' = Some (default (pool_make cnMaximumSize 1920 1080)
                               (fq_enqueue (pool_make cnMaximumSize 1920 1080) (disp 0))) ∧
    m_bError s' = m_bError s_open.
Proof. apply DecPictureDisplay_counts. reflexivity. Defined.

Lemma DecVideoData_result_witness :
  ∃ s', DecVideoData s_open zero_packet (PEnd (ERet 7)) =
          FDone s' (if (seh_guard (ERet 7)).1 =? CUDA_SUCCESS then 1 else 0) ∧
    m_bError s' = m_bError (api (AParseVideoData zero_packet) s_open) ||
                  negb ((seh_guard (ERet 7)).1 =? CUDA_SUCCESS) ∧
    m_pFrameQueue s' = m_pFrameQueue (api (AParseVideoData zero_packet) s_open).
Proof. apply DecVideoData_result. reflexivity. Defined.

Lemma FlushParser_after_close_witness :
  FlushParser (CloseDecoder s_open) prog_one_frame = FCrash NullFrameQueue ∧
  FlushParser (CuvidDecode_new : CuvidDecode pool) prog_one_frame = FCrash NullFrameQueue.
Proof.
  split; [apply (proj1 (FlushParser_after_close s_open prog_one_frame))|].
  apply (proj2 (FlushParser_after_close CuvidDecode_new prog_one_frame)). reflexivity.
Defined.
