(* ===== verification/Lifecycle.v ===== *)
(** * The session's lifecycle: [CuvidDecode::InitDecode] and [CreateDecoder]

    [InitDecode] (lines 147-237) as five phases composed by [init_then],
    each an early return of the source: the reset and the capability probe,
    the frame queue, the sequence header and the parser, the decoder
    created under the context lock, and the sequence header fed through
    [DecodePacket].  The environment ([init_env]) gives what the code asks
    the outside world: the probe, the allocation, the engine's creation
    results and its parse of the header; the probe
    [check_if_nvcuvid_dll_available] (lines 15-22) is a function of what
    [LoadLibrary] returns.  The theorems cover every branch: success, each
    failure code with the resources it leaves, the overflow of the header
    buffer and the round trip of a header that fits, the bracketing of the
    context lock, the decoder's parameters. *)

From S2P Require Import Prelude Engine QueueIntf FrameQueue Format Timestamp Session.
From stdpp Require Import strings relations.

Local Open Scope Z_scope.
Unset Default Proof Using.

(** [InputVideoInfo], the fields [InitDecode] reads. *)
Module Input.
Record crop := { left : Z; up : Z; right : Z; bottom : Z }.
Record t := {
  codec : cudaVideoCodec;
  width : Z; height : Z;
  codedWidth : Z; codedHeight : Z;
  dstWidth : Z; dstHeight : Z;
  crop_e : crop;
  codecExtra : option (list Byte.byte);   (** [None] for [nullptr] *)
  codecExtraSize : Z
}.
End Input.

(** The calls [check_if_nvcuvid_dll_available] makes to the loader. *)
Inductive loader_call :=
| ALoadLibrary (name : string)
| AFreeLibrary (hModule : nat).

(** [check_if_nvcuvid_dll_available], lines 15-22, given what
    [LoadLibrary] returns ([None] for [NULL]): the answer, and the loader
    calls in order. *)
Definition check_if_nvcuvid_dll_available (hModule : option nat) : bool * list loader_call :=
  match hModule with
  | None => (false, [ALoadLibrary "nvcuvid.dll"])
  | Some h => (true, [ALoadLibrary "nvcuvid.dll"; AFreeLibrary h])
  end.

(** What the environment answers during [InitDecode]: the loader, the
    allocator and the engine's creation calls, and the engine's side of
    parsing the sequence header. *)
Record init_env := {
  dll_load : option nat;                      (** LoadLibrary(_T("nvcuvid.dll")) *)
  frame_queue_alloc : bool;                   (** new CUVIDFrameQueue != nullptr *)
  create_parser_result : CUresult;            (** cuvidCreateVideoParser *)
  create_decoder_result : engine_ret CUresult;(** cuvidCreateDecoder *)
  header_parse : parse_prog                   (** cuvidParseVideoData(header) *)
}.

(** The probe's answer, as [InitDecode] uses it (line 154). *)
Definition dll_available (env : init_env) : bool := (check_if_nvcuvid_dll_available (dll_load env)).1.

Section Lifecycle.
Context {Q : Type} `{!FrameQueue Q}.
Local Abbreviation CuvidDecode := (CuvidDecode Q).
Local Abbreviation feed_result := (@feed_result Q).

(** [CreateDecoder], lines 136-145: [cuvidCreateDecoder] under the fault
    guard; the handle is written only by a successful call. *)
Definition CreateDecoder (r : engine_ret CUresult) (s : CuvidDecode) : CuvidDecode * CUresult :=
  let s := api ACreateDecoder s in
  let '(res, faulted) := seh_guard r in
  let s := if faulted then AddMessage NV_LOG_ERROR "cuvidCreateDecoder error" s else s in
  (set_decoder (m_videoDecoder s || (res =? CUDA_SUCCESS)) s, res).

(** ** [InitDecode] *)

(** Lines 170-174: [memset] the extended format, then, for a non-null
    [codecExtra] of non-zero size, [memcpy] it into the 1024-byte
    [raw_seqhdr_data]; a size outside [0, 1024] writes past the buffer. *)
Definition copy_seqhdr (input : Input.t) : option CUVIDEOFORMATEX :=
  match Input.codecExtra input with
  | Some bytes =>
      if Input.codecExtraSize input =? 0 then Some zero_format_ex
      else if (0 <? Input.codecExtraSize input) && (Input.codecExtraSize input <=? SEQHDR_CAPACITY) then
        let n := Z.to_nat (Input.codecExtraSize input) in
        Some {| fx_format := {| codec := codec zero_format;
                                coded_width := coded_width zero_format;
                                coded_height := coded_height zero_format;
                                chroma_format := chroma_format zero_format;
                                seqhdr_data_length := wrap_u32 (Input.codecExtraSize input) |};
                raw_seqhdr_data := take n bytes ++ drop n (raw_seqhdr_data zero_format_ex) |}
      else None
  | None => Some zero_format_ex
  end.

(** Lines 195-220: the decoder's creation parameters.  [int] values are
    converted to [unsigned long] and [short] as the assignments do. *)
Definition make_create_info (input : Input.t) (lock : option nat) : CUVIDDECODECREATEINFO :=
  {| CodecType := Input.codec input;
     ulWidth := wrap_u32 (if negb (Input.codedWidth input =? 0)
                          then Input.codedWidth input else Input.width input);
     ulHeight := wrap_u32 (if negb (Input.codedHeight input =? 0)
                           then Input.codedHeight input else Input.height input);
     ulNumDecodeSurfaces := Z.of_nat cnMaximumSize;
     ChromaFormat := cudaVideoChromaFormat_420;
     OutputFormat := cudaVideoSurfaceFormat_NV12;
     ulTargetWidth := wrap_u32 (if (0 <? Input.dstWidth input) && (0 <? Input.dstHeight input)
                                then Input.dstWidth input else Input.width input);
     ulTargetHeight := wrap_u32 (if (0 <? Input.dstWidth input) && (0 <? Input.dstHeight input)
                                 then Input.dstHeight input else Input.height input);
     display_area :=
       {| Format.left := to_short (Input.left (Input.crop_e input));
          Format.top := to_short (Input.up (Input.crop_e input));
          Format.right := to_short (Input.right (Input.crop_e input) + Input.codedWidth input
                             - Input.width input);
          Format.bottom := to_short (Input.bottom (Input.crop_e input) + Input.codedHeight input
                              - Input.height input) |};
     ulNumOutputSurfaces := 1;
     ulCreationFlags := cudaVideoCreate_PreferCUVID;
     vidLock := lock |}.

(** The phases of [InitDecode]: either go on with the object or return. *)
Inductive init_step :=
| Next (s : CuvidDecode)
| Stop (r : feed_result).

Definition init_then (m : init_step) (k : CuvidDecode -> init_step) : init_step :=
  match m with Next s => k s | Stop r => Stop r end.

(** Lines 148-158: reset, then the capability probe. *)
Definition InitDecode_open (pLog ignoreDynamicFormatChange : bool) (env : init_env)
    (s : CuvidDecode) : init_step :=
  let s := set_ignore ignoreDynamicFormatChange (set_print pLog (CloseDecoder s)) in
  if negb (dll_available env) then
    Stop (FDone (AddMessage NV_LOG_ERROR "nvcuvid.dll does not exist." s) CUDA_ERROR_NOT_FOUND)
  else Next (AddMessage NV_LOG_DEBUG "nvcuvid.dll available" s).

(** Lines 160-167: the context lock and the frame queue. *)
Definition InitDecode_queue (ctxLock : option nat) (input : Input.t) (env : init_env)
    (s : CuvidDecode) : init_step :=
  let s := set_ctx_lock ctxLock s in
  if negb (frame_queue_alloc env) then
    Stop (FDone (AddMessage NV_LOG_ERROR "Failed to alloc frame queue for decoder." s)
            CUDA_ERROR_OUT_OF_MEMORY)
  else
    Next (AddMessage NV_LOG_DEBUG "created frame queue"
            (set_frame_queue (Some (fq_new (Input.width input) (Input.height input))) s)).

(** Lines 169-192: the sequence header and the parser. *)
Definition InitDecode_parser (input : Input.t) (env : init_env) (s : CuvidDecode) : init_step :=
  match copy_seqhdr input with
  | None => Stop (FCrash SeqHdrOverflow)
  | Some fx =>
      let s := api ACreateVideoParser (set_format_ex fx s) in
      let r := create_parser_result env in
      if negb (r =? CUDA_SUCCESS) then
        Stop (FDone (AddMessage NV_LOG_ERROR "Failed cuvidCreateVideoParser" s) r)
      else Next (AddMessage NV_LOG_DEBUG "created video parser" (set_parser true s))
  end.

(** Lines 194-227: the decoder, created with the context lock held. *)
Definition InitDecode_decoder (input : Input.t) (env : init_env) (s : CuvidDecode) : init_step :=
  let s := set_create_info (make_create_info input (m_ctxLock s)) (api ACtxLock s) in
  let '(s, r) := CreateDecoder (create_decoder_result env) s in
  let s := api ACtxUnlock s in
  if negb (r =? CUDA_SUCCESS) then
    Stop (FDone (AddMessage NV_LOG_ERROR "Failed cuvidCreateDecoder" s) r)
  else Next (AddMessage NV_LOG_DEBUG "created decoder" s).

(** Lines 229-236: feed the sequence header, if any, through [DecodePacket]. *)
Definition InitDecode_header (env : init_env) (s : CuvidDecode) : feed_result :=
  let fx := m_videoFormatEx s in
  let len := seqhdr_data_length (fx_format fx) in
  if negb (len =? 0) then
    DecodePacket_then s (Some (raw_seqhdr_data fx)) len AV_NOPTS_VALUE CUVID_NATIVE_TIMEBASE
      (header_parse env) [PostInitHeader]
  else FDone s CUDA_SUCCESS.

(** [InitDecode], lines 147-237. *)
Definition InitDecode (ctxLock : option nat) (input : Input.t)
    (pLog ignoreDynamicFormatChange : bool) (env : init_env) (s : CuvidDecode) : feed_result :=
  match init_then (init_then (init_then (InitDecode_open pLog ignoreDynamicFormatChange env s)
                                         (InitDecode_queue ctxLock input env))
                             (InitDecode_parser input env))
                  (InitDecode_decoder input env) with
  | Next s => InitDecode_header env s
  | Stop r => r
  end.

End Lifecycle.

(** ** Properties of [InitDecode] *)

Section LifecycleTheory.
Context {Q : Type} `{!FrameQueue Q} `{!FrameQueueLaws Q}.

Implicit Types (s : CuvidDecode Q).

Lemma copy_seqhdr_none input :
  Input.codecExtra input = None ∨ Input.codecExtraSize input = 0 ->
  copy_seqhdr input = Some zero_format_ex.
Proof.
  unfold copy_seqhdr. intros [H|H]; rewrite H; [done|]. by destruct (Input.codecExtra input).
Qed.

Lemma copy_seqhdr_some input bytes :
  Input.codecExtra input = Some bytes -> 0 < Input.codecExtraSize input <= SEQHDR_CAPACITY ->
  let n := Z.to_nat (Input.codecExtraSize input) in
  ∃ fx, copy_seqhdr input = Some fx ∧
    seqhdr_data_length (fx_format fx) = Input.codecExtraSize input ∧
    raw_seqhdr_data fx = take n bytes ++ drop n (raw_seqhdr_data zero_format_ex).
Proof.
  intros Hx Hn. unfold copy_seqhdr. rewrite Hx.
  rewrite (proj2 (Z.eqb_neq _ _)) by lia.
  rewrite (proj2 (Z.ltb_lt _ _)), (proj2 (Z.leb_le _ _)) by lia. simpl.
  eexists; split_and!; [reflexivity| |reflexivity].
  simpl. apply wrap_u32_id. unfold SEQHDR_CAPACITY in Hn. lia.
Qed.

(** The header phase hands [cuvidParseVideoData] the packet built from
    the cached extended format, before anything else. *)
Lemma InitDecode_header_packet env s :
  is_Some (m_pFrameQueue s) -> seqhdr_data_length (fx_format (m_videoFormatEx s)) ≠ 0 ->
  match InitDecode_header env s with
  | FDone s' _ | FBlocked s' _ _ _ _ =>
      ∃ t, api_trace s' = api_trace s ++
             AParseVideoData (DecodePacket_packet (raw_seqhdr_data (m_videoFormatEx s))
                                (seqhdr_data_length (fx_format (m_videoFormatEx s)))
                                AV_NOPTS_VALUE CUVID_NATIVE_TIMEBASE) :: t
  | FCrash _ => False
  end.
Proof.
  intros Hq Hl. unfold InitDecode_header, DecodePacket_then.
  rewrite (proj2 (Z.eqb_neq _ _) Hl). simpl.
  pose proof (parse_call_keeps_api s (DecodePacket_packet (raw_seqhdr_data (m_videoFormatEx s))
                (seqhdr_data_length (fx_format (m_videoFormatEx s))) AV_NOPTS_VALUE
                CUVID_NATIVE_TIMEBASE) (header_parse env) [PostInitHeader] Hq) as K.
  destruct (parse_call _ _ _ _); try done; destruct K as (_ & _ & (t & Ht & _) & _);
    exists t; rewrite Ht; simpl; by rewrite <-app_assoc.
Qed.

(** C19: Round trip of the sequence header.  For a [codecExtra] of
    [codecExtraSize] bytes (1 to 1024), [InitDecode] copies it into the
    1024-byte [raw_seqhdr_data] and records its size, and the first call
    of the header phase hands the engine a packet whose [payload_size]
    first bytes are exactly those [codecExtraSize] bytes of
    [codecExtra]. *)
Theorem seqhdr_roundtrip input bytes env s :
  Input.codecExtra input = Some bytes -> 0 < Input.codecExtraSize input <= SEQHDR_CAPACITY ->
  (Z.to_nat (Input.codecExtraSize input) <= length bytes)%nat ->
  ∃ fx, copy_seqhdr input = Some fx ∧
    length (raw_seqhdr_data fx) = Z.to_nat SEQHDR_CAPACITY ∧
    let pkt := DecodePacket_packet (raw_seqhdr_data fx) (seqhdr_data_length (fx_format fx))
                 AV_NOPTS_VALUE CUVID_NATIVE_TIMEBASE in
    payload_size pkt = Input.codecExtraSize input ∧
    take (Z.to_nat (payload_size pkt)) (payload pkt) = take (Z.to_nat (Input.codecExtraSize input)) bytes ∧
    (m_videoFormatEx s = fx -> is_Some (m_pFrameQueue s) ->
     match InitDecode_header env s with
     | FDone s' _ | FBlocked s' _ _ _ _ => ∃ t, api_trace s' = api_trace s ++ AParseVideoData pkt :: t
     | FCrash _ => False
     end).
Proof.
  intros Hx Hn Hlen.
  destruct (copy_seqhdr_some input bytes Hx Hn) as (fx & Hc & Hl & Hr).
  assert (Hlt : (Z.to_nat (Input.codecExtraSize input) <= Z.to_nat SEQHDR_CAPACITY)%nat) by lia.
  assert (Hz : length (raw_seqhdr_data zero_format_ex) = Z.to_nat SEQHDR_CAPACITY)
    by apply repeat_length.
  assert (Hsz : payload_size (DecodePacket_packet (raw_seqhdr_data fx) (seqhdr_data_length (fx_format fx))
                  AV_NOPTS_VALUE CUVID_NATIVE_TIMEBASE) = Input.codecExtraSize input).
  { unfold DecodePacket_packet. simpl. rewrite Hl. apply wrap_u32_id.
    unfold SEQHDR_CAPACITY in Hn. lia. }
  exists fx. split; [done|]. split.
  { rewrite Hr, length_app, length_take, length_drop, Hz. lia. }
  cbv zeta. split_and!.
  - exact Hsz.
  - rewrite Hsz. unfold DecodePacket_packet. simpl. rewrite Hr.
    rewrite take_app_length'; [done|]. rewrite length_take. lia.
  - intros <- Hq. apply InitDecode_header_packet; [done|]. rewrite Hl. lia.
Qed.

(** The probe answers whether [LoadLibrary] succeeded, and frees what it
    loaded. *)
Lemma dll_available_load env :
  (dll_load env = None -> dll_available env = false) ∧
  (is_Some (dll_load env) -> dll_available env = true).
Proof. unfold dll_available. split; [by intros ->|by intros [h ->]]. Qed.

(** Each phase of [InitDecode] when its engine call succeeds. *)
Lemma InitDecode_open_ok pLog ign env s :
  dll_available env = true ->
  InitDecode_open pLog ign env s =
  Next (AddMessage NV_LOG_DEBUG "nvcuvid.dll available" (set_ignore ign (set_print pLog (CloseDecoder s)))).
Proof. intros H. unfold InitDecode_open. by rewrite H. Qed.

Lemma InitDecode_queue_ok lock input env s :
  frame_queue_alloc env = true ->
  InitDecode_queue lock input env s =
  Next (AddMessage NV_LOG_DEBUG "created frame queue"
          (set_frame_queue (Some (fq_new (Input.width input) (Input.height input)))
             (set_ctx_lock lock s))).
Proof. intros H. unfold InitDecode_queue. by rewrite H. Qed.

Lemma InitDecode_parser_ok input env s fx :
  copy_seqhdr input = Some fx -> create_parser_result env = CUDA_SUCCESS ->
  InitDecode_parser input env s =
  Next (AddMessage NV_LOG_DEBUG "created video parser"
          (set_parser true (api ACreateVideoParser (set_format_ex fx s)))).
Proof. intros H1 H2. unfold InitDecode_parser. by rewrite H1, H2. Qed.

Lemma InitDecode_decoder_ok input env s :
  create_decoder_result env = ERet CUDA_SUCCESS ->
  InitDecode_decoder input env s =
  Next (AddMessage NV_LOG_DEBUG "created decoder"
          (api ACtxUnlock
             (set_decoder (m_videoDecoder s || true)
                (api ACreateDecoder
                   (set_create_info (make_create_info input (m_ctxLock s)) (api ACtxLock s)))))).
Proof. intros H. unfold InitDecode_decoder, CreateDecoder. by rewrite H. Qed.

Lemma InitDecode_header_none env s :
  seqhdr_data_length (fx_format (m_videoFormatEx s)) = 0 ->
  InitDecode_header env s = FDone s CUDA_SUCCESS.
Proof. intros H. unfold InitDecode_header. by rewrite H. Qed.

(** The engine calls of each phase, on every branch. *)
(** The members a failing phase leaves as it found them. *)
Definition same_frame s s' : Prop :=
  m_pFrameQueue s' = m_pFrameQueue s ∧ m_videoParser s' = m_videoParser s ∧
  m_videoDecoder s' = m_videoDecoder s.

(** No queue, no parser, no decoder. *)
Definition closed_frame s : Prop :=
  m_pFrameQueue s = None ∧ m_videoParser s = false ∧ m_videoDecoder s = false.

Lemma InitDecode_open_trace pLog ign env s :
  match InitDecode_open pLog ign env s with
  | Next s1 => api_trace s1 = api_trace (CloseDecoder s) ∧ closed_frame s1
  | Stop (FDone s1 r) => api_trace s1 = api_trace (CloseDecoder s) ∧ r ≠ CUDA_SUCCESS ∧ closed_frame s1
  | Stop _ => False
  end.
Proof.
  unfold InitDecode_open. destruct (close_clears s) as (? & ? & ? & _).
  by destruct (negb _).
Qed.

Lemma InitDecode_queue_trace lock input env s :
  match InitDecode_queue lock input env s with
  | Next s2 => api_trace s2 = api_trace s ∧
               m_pFrameQueue s2 = Some (fq_new (Input.width input) (Input.height input)) ∧
               m_videoParser s2 = m_videoParser s ∧ m_videoDecoder s2 = m_videoDecoder s
  | Stop (FDone s2 r) => api_trace s2 = api_trace s ∧ r ≠ CUDA_SUCCESS ∧ same_frame s s2
  | Stop _ => False
  end.
Proof. unfold InitDecode_queue. by destruct (negb _). Qed.

Lemma InitDecode_parser_trace input env s :
  match InitDecode_parser input env s with
  | Next s3 => api_trace s3 = api_trace s ++ [ACreateVideoParser] ∧
               m_pFrameQueue s3 = m_pFrameQueue s ∧ m_videoParser s3 = true ∧
               m_videoDecoder s3 = m_videoDecoder s
  | Stop (FDone s3 r) => api_trace s3 = api_trace s ++ [ACreateVideoParser] ∧ r ≠ CUDA_SUCCESS ∧
                         same_frame s s3 ∧ r = create_parser_result env
  | Stop (FCrash _) => True
  | Stop _ => False
  end.
Proof.
  unfold InitDecode_parser. destruct (copy_seqhdr input); [|done].
  destruct (create_parser_result env =? CUDA_SUCCESS) eqn:E; simpl; [done|].
  split_and!; try done. by apply Z.eqb_neq.
Qed.

Lemma InitDecode_decoder_trace input env s :
  match InitDecode_decoder input env s with
  | Next s4 => api_trace s4 = api_trace s ++ [ACtxLock; ACreateDecoder; ACtxUnlock] ∧
               m_pFrameQueue s4 = m_pFrameQueue s ∧ m_videoParser s4 = m_videoParser s ∧
               m_videoDecoder s4 = true
  | Stop (FDone s4 r) => api_trace s4 = api_trace s ++ [ACtxLock; ACreateDecoder; ACtxUnlock] ∧
                         r ≠ CUDA_SUCCESS ∧ same_frame s s4 ∧ r = (seh_guard (create_decoder_result env)).1
  | Stop _ => False
  end.
Proof.
  unfold InitDecode_decoder, CreateDecoder.
  destruct (seh_guard _) as [res []] eqn:G; simpl; destruct (res =? CUDA_SUCCESS) eqn:E; simpl;
    rewrite <-?app_assoc, ?orb_true_r, ?orb_false_r; split_and!; try done; by apply Z.eqb_neq.
Qed.

Lemma InitDecode_header_trace env s :
  is_Some (m_pFrameQueue s) ->
  match InitDecode_header env s with
  | FDone s' _ | FBlocked s' _ _ _ _ => keeps s s'
  | FCrash _ => False
  end.
Proof.
  intros Hq. unfold InitDecode_header. destruct (negb _); [|apply keeps_refl].
  pose proof (DecodePacket_then_keeps s (Some (raw_seqhdr_data (m_videoFormatEx s)))
    (seqhdr_data_length (fx_format (m_videoFormatEx s))) AV_NOPTS_VALUE CUVID_NATIVE_TIMEBASE
    (header_parse env) [PostInitHeader] Hq) as K.
  destruct (DecodePacket_then _ _ _ _ _ _ _); try done; apply K.
Qed.


Lemma InitDecode_decoder_fail input env s :
  (seh_guard (create_decoder_result env)).1 ≠ CUDA_SUCCESS ->
  ∃ s', InitDecode_decoder input env s = Stop (FDone s' (seh_guard (create_decoder_result env)).1) ∧
    m_videoDecoder s' = m_videoDecoder s ∧ m_videoParser s' = m_videoParser s ∧
    m_pFrameQueue s' = m_pFrameQueue s.
Proof.
  intros H. unfold InitDecode_decoder, CreateDecoder.
  destruct (seh_guard _) as [res []]; simpl in *;
    rewrite (proj2 (Z.eqb_neq _ _) H), ?orb_false_r; simpl; by eexists.
Qed.

(** C36: The decoder is always created for 4:2:0 output: a sequence header
    that reports any other chroma format differs from the parameters
    [InitDecode] caches, and, without tolerance, sets the sticky error
    flag and fails the sequence callback. *)
Theorem make_create_info_chroma_rejected input lock err f :
  chroma_format f ≠ cudaVideoChromaFormat_420 ->
  let o := DecVideoSequence (make_create_info input lock) false err f in
  format_changed (make_create_info input lock) f = true ∧ so_error o = true ∧ so_ret o = 0.
Proof.
  intros Hc.
  assert (Hf : format_changed (make_create_info input lock) f = true).
  { apply not_false_iff_true. intros (_ & _ & _ & Hx)%format_changed_false. by apply Hc. }
  split; [done|]. unfold DecVideoSequence. by rewrite Hf.
Qed.

(** C37: The decoder's dimensions and display area: a coded size of 0
    falls back to the picture size for [ulWidth]/[ulHeight], every
    unsigned field is within 32 bits and every edge of the display area
    within 16 bits; but the right and bottom edges add the coded size
    as is, so with [codedWidth = 0] the right edge is
    [crop.right - width], left of the picture's origin. *)
Theorem make_create_info_dimensions input lock :
  let ci := make_create_info input lock in
  0 <= ulWidth ci < 2^32 ∧ 0 <= ulHeight ci < 2^32 ∧
  0 <= ulTargetWidth ci < 2^32 ∧ 0 <= ulTargetHeight ci < 2^32 ∧
  -2^15 <= Format.right (display_area ci) < 2^15 ∧
  -2^15 <= Format.bottom (display_area ci) < 2^15 ∧
  (Input.codedWidth input = 0 -> 0 <= Input.width input < 2^32 ->
   -2^15 <= Input.right (Input.crop_e input) - Input.width input < 2^15 ->
   ulWidth ci = Input.width input ∧
   Format.right (display_area ci) = Input.right (Input.crop_e input) - Input.width input).
Proof.
  simpl. split_and!; try apply wrap_u32_range; try apply to_short_range.
  intros H0 Hw Hr. rewrite H0. simpl. rewrite !wrap_u32_id, Z.add_0_r, to_short_id by lia.
  done.
Qed.

Local Opaque make_create_info zero_format_ex fq_new CloseDecoder.

(** C18: When [LoadLibrary("nvcuvid.dll")] fails, the probe reports the
    engine unavailable and [InitDecode] returns [CUDA_ERROR_NOT_FOUND]
    after the teardown of the previous session, without allocating the
    frame queue or creating any engine object. *)
Theorem InitDecode_engine_unavailable lock input pLog ign env s :
  dll_load env = None ->
  ∃ s', InitDecode lock input pLog ign env s = FDone s' CUDA_ERROR_NOT_FOUND ∧
    m_pFrameQueue s' = None ∧ m_videoParser s' = false ∧ m_videoDecoder s' = false ∧
    api_trace s' = api_trace (CloseDecoder s).
Proof.
  intros H. unfold InitDecode, InitDecode_open.
  rewrite (proj1 (dll_available_load env)) by done. cbn [negb init_then].
  destruct (close_clears s) as (? & ? & ? & ? & ?).
  eexists; split; [reflexivity|]. by split_and!.
Qed.

(** C17: When every engine call succeeds and there is no sequence header
    to feed, [InitDecode] returns [CUDA_SUCCESS] with the frame queue
    allocated for the input's size, parser and decoder created, the
    decoder's parameters computed from the input, a clear error flag and
    counter, and exactly the engine calls: create parser, lock, create
    decoder, unlock; the probe has loaded and freed the engine's library. *)
Theorem InitDecode_success lock input pLog ign env s h :
  dll_load env = Some h -> frame_queue_alloc env = true ->
  create_parser_result env = CUDA_SUCCESS -> create_decoder_result env = ERet CUDA_SUCCESS ->
  Input.codecExtra input = None ∨ Input.codecExtraSize input = 0 ->
  ∃ s', InitDecode lock input pLog ign env s = FDone s' CUDA_SUCCESS ∧
    m_pFrameQueue s' = Some (fq_new (Input.width input) (Input.height input)) ∧
    m_videoParser s' = true ∧ m_videoDecoder s' = true ∧ m_ctxLock s' = lock ∧
    m_videoDecodeCreateInfo s' = make_create_info input lock ∧
    m_bError s' = false ∧ m_decodedFrames s' = 0%nat ∧ m_bIgnoreDynamicFormatChange s' = ign ∧
    api_trace s' = api_trace (CloseDecoder s) ++
                   [ACreateVideoParser; ACtxLock; ACreateDecoder; ACtxUnlock] ∧
    (check_if_nvcuvid_dll_available (dll_load env)).2 =
      [ALoadLibrary "nvcuvid.dll"; AFreeLibrary h].
Proof.
  intros Hd Ha Hp Hc Hx. unfold InitDecode.
  rewrite InitDecode_open_ok by (apply dll_available_load; by rewrite Hd). cbn [init_then].
  rewrite InitDecode_queue_ok by done. cbn [init_then].
  rewrite (InitDecode_parser_ok _ _ _ _ (copy_seqhdr_none _ Hx)) by done. cbn [init_then].
  rewrite InitDecode_decoder_ok by done.
  rewrite InitDecode_header_none by reflexivity.
  destruct (close_clears s) as (? & ? & ? & ? & ?).
  eexists; split; [reflexivity|]. split_and!.
  all: simpl; rewrite ?orb_true_r, ?Hd.
  1-8, 10: done.
  by rewrite <-!app_assoc.
Qed.

(** C21: On every path through [InitDecode] that returns (or waits in the
    header's decode), the engine calls after the teardown are: none, the
    parser's creation alone, or the parser's creation followed by
    [cuvidCtxLock], [cuvidCreateDecoder], [cuvidCtxUnlock] and then only
    parse and decode calls: the context lock brackets exactly the
    decoder's creation and is always released. *)
Theorem InitDecode_ctx_lock lock input pLog ign env s :
  match InitDecode lock input pLog ign env s with
  | FDone s' _ | FBlocked s' _ _ _ _ =>
      ∃ t, api_trace s' = api_trace (CloseDecoder s) ++ t ∧
        (t = [] ∨ t = [ACreateVideoParser] ∨
         ∃ t', t = [ACreateVideoParser; ACtxLock; ACreateDecoder; ACtxUnlock] ++ t' ∧
               Forall engine_io t')
  | FCrash _ => True
  end.
Proof.
  unfold InitDecode.
  pose proof (InitDecode_open_trace pLog ign env s) as H1.
  destruct (InitDecode_open _ _ _ _) as [s1|[s1 r1| | ]]; cbn [init_then]; try done;
    [|destruct H1 as [H1 _]; exists []; rewrite app_nil_r; auto].
  destruct H1 as [H1 _].
  pose proof (InitDecode_queue_trace lock input env s1) as H2.
  destruct (InitDecode_queue _ _ _ _) as [s2|[s2 r2| | ]]; cbn [init_then]; try done;
    [|destruct H2 as [H2 _]; exists []; rewrite H2, H1, app_nil_r; auto].
  destruct H2 as (H2 & Hq2 & _).
  pose proof (InitDecode_parser_trace input env s2) as H3.
  destruct (InitDecode_parser _ _ _) as [s3|[s3 r3| | ]]; cbn [init_then]; try done;
    [|destruct H3 as [H3 _]; exists [ACreateVideoParser]; rewrite H3, H2, H1; auto].
  destruct H3 as (H3 & Hq3 & _).
  pose proof (InitDecode_decoder_trace input env s3) as H4.
  destruct (InitDecode_decoder _ _ _) as [s4|[s4 r4| | ]]; cbn [init_then]; try done.
  - destruct H4 as (H4 & Hq4 & _).
    assert (Hq : is_Some (m_pFrameQueue s4)) by (rewrite Hq4, Hq3, Hq2; by eexists).
    pose proof (InitDecode_header_trace env s4 Hq) as H5.
    destruct (InitDecode_header _ _); try done; destruct H5 as (_ & _ & (t' & H5 & Ht') & _);
      exists ([ACreateVideoParser; ACtxLock; ACreateDecoder; ACtxUnlock] ++ t');
      (split; [rewrite H5, H4, H3, H2, H1; by rewrite <-!app_assoc|right; right; eauto]).
  - destruct H4 as [H4 _].
    exists ([ACreateVideoParser; ACtxLock; ACreateDecoder; ACtxUnlock] ++ []).
    split; [rewrite H4, H3, H2, H1; by rewrite <-!app_assoc|right; right; eauto].
Qed.

(** What a successful [InitDecode] leaves: a queue initialised for the
    input's picture size and moved since only by the header's callbacks,
    the parser and the decoder created. *)
Definition started (input : Input.t) (s' : CuvidDecode Q) : Prop :=
  ∃ q, m_pFrameQueue s' = Some q ∧ rtc fq_step (fq_new (Input.width input) (Input.height input)) q ∧
       m_videoParser s' = true ∧ m_videoDecoder s' = true.

Lemma InitDecode_starts lock input pLog ign env s :
  match InitDecode lock input pLog ign env s with
  | FDone s' r => r = CUDA_SUCCESS -> started input s'
  | FBlocked s' _ _ _ _ => started input s'
  | FCrash _ => True
  end.
Proof.
  unfold InitDecode.
  pose proof (InitDecode_open_trace pLog ign env s) as H1.
  destruct (InitDecode_open _ _ _ _) as [s1|[s1 r1| | ]]; cbn [init_then]; try done;
    [|destruct H1 as (_ & ? & _); done].
  pose proof (InitDecode_queue_trace lock input env s1) as H2.
  destruct (InitDecode_queue _ _ _ _) as [s2|[s2 r2| | ]]; cbn [init_then]; try done;
    [|destruct H2 as (_ & ? & _); done].
  destruct H2 as (_ & Hq2 & _).
  pose proof (InitDecode_parser_trace input env s2) as H3.
  destruct (InitDecode_parser _ _ _) as [s3|[s3 r3| | ]]; cbn [init_then]; try done;
    [|destruct H3 as (_ & ? & _); done].
  destruct H3 as (_ & Hq3 & Hp3 & _).
  pose proof (InitDecode_decoder_trace input env s3) as H4.
  destruct (InitDecode_decoder _ _ _) as [s4|[s4 r4| | ]]; cbn [init_then]; try done;
    [|destruct H4 as (_ & ? & _); done].
  destruct H4 as (_ & Hq4 & Hp4 & Hd4).
  assert (Hq : m_pFrameQueue s4 = Some (fq_new (Input.width input) (Input.height input)))
    by by rewrite Hq4, Hq3.
  pose proof (InitDecode_header_trace env s4 (ex_intro _ _ Hq)) as H5.
  assert (K : ∀ s', keeps s4 s' -> started input s').
  { intros s' (Kq & _ & _ & Kp & Kd). destruct (Kq _ Hq) as (q & ? & ?).
    exists q. split_and!; try done; congruence. }
  destruct (InitDecode_header _ _); try done; auto.
Qed.

(** C22: [InitDecode] returns [CUDA_SUCCESS] only from a started session,
    and every failure code comes from one of its failing steps: when it
    returns success, or waits inside the header's decode, the frame queue
    is the one it allocated for [width] x [height] (moved only by the
    header's callbacks), and the parser and the decoder exist. *)
Theorem InitDecode_started lock input pLog ign env s :
  match InitDecode lock input pLog ign env s with
  | FDone s' r => r = CUDA_SUCCESS -> started input s'
  | FBlocked s' _ _ _ _ => started input s'
  | FCrash _ => True
  end.
Proof. apply InitDecode_starts. Qed.


(** C33: When [cuvidCreateVideoParser] fails, [InitDecode] returns its
    error with the frame queue still allocated and no parser: the partial
    resources are not released until the next [CloseDecoder]. *)
Theorem InitDecode_parser_failure lock input pLog ign env s fx :
  dll_available env = true -> frame_queue_alloc env = true ->
  copy_seqhdr input = Some fx -> create_parser_result env ≠ CUDA_SUCCESS ->
  ∃ s', InitDecode lock input pLog ign env s = FDone s' (create_parser_result env) ∧
    m_pFrameQueue s' = Some (fq_new (Input.width input) (Input.height input)) ∧
    m_videoParser s' = false.
Proof.
  intros Hd Ha Hx Hp. unfold InitDecode.
  rewrite InitDecode_open_ok by done. cbn [init_then].
  rewrite InitDecode_queue_ok by done. cbn [init_then].
  unfold InitDecode_parser. rewrite Hx, (proj2 (Z.eqb_neq _ _) Hp). cbn [negb init_then].
  destruct (close_clears s) as (? & ? & ? & ? & ?).
  eexists; split; [reflexivity|]. split; [done|]. by simpl.
Qed.

(** C35: A [codecExtraSize] outside [0, 1024] makes [InitDecode] write
    past the 1024-byte [raw_seqhdr_data]: a size above 1024 copies that
    many bytes, and a negative [int] size is converted to a [size_t]
    beyond any buffer; the code checks neither bound. *)
Theorem InitDecode_seqhdr_overflow lock input pLog ign env s bytes :
  dll_available env = true -> frame_queue_alloc env = true ->
  Input.codecExtra input = Some bytes ->
  Input.codecExtraSize input < 0 ∨ SEQHDR_CAPACITY < Input.codecExtraSize input ->
  InitDecode lock input pLog ign env s = FCrash SeqHdrOverflow.
Proof.
  intros Hd Ha Hx Hn. unfold InitDecode.
  rewrite InitDecode_open_ok by done. cbn [init_then].
  rewrite InitDecode_queue_ok by done. cbn [init_then].
  unfold InitDecode_parser, copy_seqhdr. rewrite Hx.
  unfold SEQHDR_CAPACITY in *.
  rewrite (proj2 (Z.eqb_neq _ _)) by lia.
  destruct Hn as [Hn|Hn].
  - by rewrite (proj2 (Z.ltb_ge _ _)) by lia.
  - rewrite (proj2 (Z.leb_gt _ _)) by lia. by rewrite andb_false_r.
Qed.

(** C34: When [cuvidCreateDecoder] fails (or faults), [InitDecode]
    returns its error with the frame queue and the parser still held and
    no decoder: they are released only by the next [CloseDecoder]. *)
Theorem InitDecode_decoder_failure lock input pLog ign env s fx :
  dll_available env = true -> frame_queue_alloc env = true ->
  copy_seqhdr input = Some fx -> create_parser_result env = CUDA_SUCCESS ->
  (seh_guard (create_decoder_result env)).1 ≠ CUDA_SUCCESS ->
  ∃ s', InitDecode lock input pLog ign env s = FDone s' (seh_guard (create_decoder_result env)).1 ∧
    m_pFrameQueue s' = Some (fq_new (Input.width input) (Input.height input)) ∧
    m_videoParser s' = true ∧ m_videoDecoder s' = false.
Proof.
  intros Hd Ha Hx Hp Hc. unfold InitDecode.
  rewrite InitDecode_open_ok by done. cbn [init_then].
  rewrite InitDecode_queue_ok by done. cbn [init_then].
  rewrite (InitDecode_parser_ok _ _ _ _ Hx) by done. cbn [init_then].
  destruct (InitDecode_decoder_fail input env
    (AddMessage NV_LOG_DEBUG "created video parser"
       (set_parser true (api ACreateVideoParser (set_format_ex fx
          (AddMessage NV_LOG_DEBUG "created frame queue"
             (set_frame_queue (Some (fq_new (Input.width input) (Input.height input)))
                (set_ctx_lock lock (AddMessage NV_LOG_DEBUG "nvcuvid.dll available"
                   (set_ignore ign (set_print pLog (CloseDecoder s)))))))))))
    Hc) as (s' & -> & Hdec & Hpar & Hq).
  destruct (close_clears s) as (? & ? & ? & ? & ?).
  eexists; split; [reflexivity|]. rewrite Hdec, Hpar, Hq. by simpl.
Qed.

End LifecycleTheory.

(** ** Witnesses, on the pool of [FrameQueue] *)

Import Pool.

Definition input_1080p : Input.t :=
  {| Input.codec := cudaVideoCodec_H264; Input.width := 1920; Input.height := 1080;
     Input.codedWidth := 1920; Input.codedHeight := 1088; Input.dstWidth := 0; Input.dstHeight := 0;
     Input.crop_e := {| Input.left := 0; Input.up := 0; Input.right := 0; Input.bottom := 8 |};
     Input.codecExtra := None; Input.codecExtraSize := 0 |}.

Definition env_ok : init_env :=
  {| dll_load := Some 1%nat; frame_queue_alloc := true; create_parser_result := CUDA_SUCCESS;
     create_decoder_result := ERet CUDA_SUCCESS; header_parse := PEnd (ERet CUDA_SUCCESS) |}.

Lemma InitDecode_engine_unavailable_witness :
  ∃ s', InitDecode (Some 1%nat) input_1080p true false
          {| dll_load := None; frame_queue_alloc := true; create_parser_result := CUDA_SUCCESS;
             create_decoder_result := ERet CUDA_SUCCESS; header_parse := PEnd (ERet CUDA_SUCCESS) |}
          s_open = FDone s' CUDA_ERROR_NOT_FOUND ∧
    m_pFrameQueue s' = None ∧ m_videoParser s' = false ∧ m_videoDecoder s' = false ∧
    api_trace s' = api_trace (CloseDecoder s_open).
Proof. apply InitDecode_engine_unavailable. reflexivity. Defined.

Lemma InitDecode_success_witness :
  ∃ s', InitDecode (Some 1%nat) input_1080p true false env_ok s_open = FDone s' CUDA_SUCCESS ∧
    m_pFrameQueue s' = Some (fq_new 1920 1080) ∧
    m_videoParser s' = true ∧ m_videoDecoder s' = true ∧ m_ctxLock s' = Some 1%nat ∧
    m_videoDecodeCreateInfo s' = make_create_info input_1080p (Some 1%nat) ∧
    m_bError s' = false ∧ m_decodedFrames s' = 0%nat ∧ m_bIgnoreDynamicFormatChange s' = false ∧
    api_trace s' = api_trace (CloseDecoder s_open) ++
                   [ACreateVideoParser; ACtxLock; ACreateDecoder; ACtxUnlock] ∧
    (check_if_nvcuvid_dll_available (dll_load env_ok)).2 =
      [ALoadLibrary "nvcuvid.dll"; AFreeLibrary 1%nat].
Proof.
  refine (InitDecode_success (Some 1%nat) input_1080p true false env_ok s_open 1%nat _ _ _ _ _);
    try reflexivity. by left.
Defined.

Lemma InitDecode_parser_failure_witness :
  ∃ s', InitDecode None input_1080p false false
          {| dll_load := Some 1%nat; frame_queue_alloc := true; create_parser_result := 101;
             create_decoder_result := ERet CUDA_SUCCESS; header_parse := PEnd (ERet CUDA_SUCCESS) |}
          s_open = FDone s' 101 ∧
    m_pFrameQueue s' = Some (fq_new 1920 1080) ∧ m_videoParser s' = false.
Proof. eapply InitDecode_parser_failure; try reflexivity. vm_compute. discriminate. Defined.

Lemma InitDecode_seqhdr_overflow_witness :
  InitDecode None {| Input.codec := cudaVideoCodec_HEVC; Input.width := 1920; Input.height := 1080;
                     Input.codedWidth := 0; Input.codedHeight := 0; Input.dstWidth := 0;
                     Input.dstHeight := 0;
                     Input.crop_e := {| Input.left := 0; Input.up := 0; Input.right := 0;
                                        Input.bottom := 0 |};
                     Input.codecExtra := Some []; Input.codecExtraSize := 2048 |}
    false false env_ok s_open = FCrash SeqHdrOverflow.
Proof. eapply InitDecode_seqhdr_overflow; try reflexivity. right. reflexivity. Defined.

Lemma InitDecode_decoder_failure_witness :
  ∃ s', InitDecode None input_1080p false false
          {| dll_load := Some 1%nat; frame_queue_alloc := true; create_parser_result := CUDA_SUCCESS;
             create_decoder_result := EFault; header_parse := PEnd (ERet CUDA_SUCCESS) |}
          s_open = FDone s' CUDA_ERROR_UNKNOWN ∧
    m_pFrameQueue s' = Some (fq_new 1920 1080) ∧ m_videoParser s' = true ∧ m_videoDecoder s' = false.
Proof. eapply InitDecode_decoder_failure; try reflexivity. vm_compute. discriminate. Defined.

Lemma make_create_info_chroma_rejected_witness :
  let o := DecVideoSequence (make_create_info input_1080p None) false false
             (fmt cudaVideoCodec_H264 1920 1088 cudaVideoChromaFormat_444) in
  format_changed (make_create_info input_1080p None)
    (fmt cudaVideoCodec_H264 1920 1088 cudaVideoChromaFormat_444) = true ∧
  so_error o = true ∧ so_ret o = 0.
Proof. apply make_create_info_chroma_rejected. discriminate. Defined.

Lemma make_create_info_dimensions_witness :
  ulWidth (make_create_info (Input.Build_t cudaVideoCodec_H264 1280 720 0 0 0 0
                               (Input.Build_crop 0 0 0 0) None 0) None) = 1280 ∧
  Format.right (display_area (make_create_info (Input.Build_t cudaVideoCodec_H264 1280 720 0 0 0 0
                               (Input.Build_crop 0 0 0 0) None 0) None)) = -1280.
Proof.
  apply (make_create_info_dimensions (Input.Build_t cudaVideoCodec_H264 1280 720 0 0 0 0
                                        (Input.Build_crop 0 0 0 0) None 0) None); simpl; lia.
Defined.

Lemma seqhdr_roundtrip_witness :
  ∃ fx, copy_seqhdr (Input.Build_t cudaVideoCodec_HEVC 1920 1080 0 0 0 0 (Input.Build_crop 0 0 0 0)
                       (Some [Byte.x01; Byte.x02; Byte.x03]) 3) = Some fx ∧
    length (raw_seqhdr_data fx) = Z.to_nat SEQHDR_CAPACITY ∧
    let pkt := DecodePacket_packet (raw_seqhdr_data fx) (seqhdr_data_length (fx_format fx))
                 AV_NOPTS_VALUE CUVID_NATIVE_TIMEBASE in
    payload_size pkt = 3 ∧
    take (Z.to_nat (payload_size pkt)) (payload pkt) = take (Z.to_nat 3) [Byte.x01; Byte.x02; Byte.x03] ∧
    (m_videoFormatEx s_open = fx -> is_Some (m_pFrameQueue s_open) ->
     match InitDecode_header env_ok s_open with
     | FDone s' _ | FBlocked s' _ _ _ _ => ∃ t, api_trace s' = api_trace s_open ++ AParseVideoData pkt :: t
     | FCrash _ => False
     end).
Proof. apply seqhdr_roundtrip; try reflexivity; unfold SEQHDR_CAPACITY; simpl; lia. Defined.
