(* ===== verification/SessionSpec.v ===== *)
(** * The session against the spec's lifecycle

    Section 4.2 of the spec describes the session as a state machine:
    closed (before [open] and after [close]), running, and draining once
    the end of the stream has been sent.  This file states that machine
    ([lc_step]), reads the state of a [CuvidDecode] object as one of its
    states ([abs], from the frame queue the object owns and whether the
    queue is ended), and drives the object by a client that calls its
    public methods one after the other ([client_step], [run_client]:
    [InitDecode], [DecodePacket], [CloseDecoder], the destructor).

    Two results.  The well-formedness of the object ([session_wf]: a
    decoder only with a parser, a parser only with a frame queue) holds
    after every call, from any state.  And, as long as the engine's
    creation calls and its parse of the sequence header succeed, every
    run of the client is a run of the spec's machine: the object refines
    the lifecycle.  Where the engine fails during [open], the object does
    not return to the closed state (theorems [InitDecode_parser_failure]
    and [InitDecode_decoder_failure] of [Lifecycle]); a flush on a closed
    object crashes instead of doing nothing ([FlushParser_after_close]). *)

From S2P Require Import Prelude Engine QueueIntf FrameQueue Format Timestamp Session Lifecycle.
From stdpp Require Import strings relations.

Local Open Scope Z_scope.
Unset Default Proof Using.

(** ** The spec's lifecycle *)

Inductive lc_state := LClosed | LRunning | LDraining.

#[export] Instance lc_state_eq_dec : EqDecision lc_state.
Proof. solve_decision. Defined.

(** What a client call is, seen from the lifecycle: an [open] that
    succeeded or failed, a feed of data, a flush (a feed of an empty
    payload), a close. *)
Inductive lc_event := EvOpen (ok : bool) | EvFeed | EvFlush | EvClose.

(** Section 4.2: [open] leads to running, or, when it fails, to closed
    with everything released; a feed keeps the state (on a closed
    session it is rejected, [InvalidState]); a flush ends the stream, and
    after close it is a no-op; close always leads to closed. *)
Inductive lc_step : lc_state -> lc_event -> lc_state -> Prop :=
| lc_open_ok st : lc_step st (EvOpen true) LRunning
| lc_open_fail st : lc_step st (EvOpen false) LClosed
| lc_feed st : lc_step st EvFeed st
| lc_flush_closed : lc_step LClosed EvFlush LClosed
| lc_flush_running : lc_step LRunning EvFlush LDraining
| lc_flush_draining : lc_step LDraining EvFlush LDraining
| lc_close st : lc_step st EvClose LClosed.

Inductive lc_run : lc_state -> list lc_event -> lc_state -> Prop :=
| lc_run_nil st : lc_run st [] st
| lc_run_cons st ev st' evs st'' : lc_step st ev st' -> lc_run st' evs st'' -> lc_run st (ev :: evs) st''.

(** ** The client *)

(** One call of the session's public interface, with what the world
    answers during it. *)
Inductive client_call :=
| CInit (ctxLock : option nat) (input : Input.t) (pLog ignore : bool) (env : init_env)
| CDecode (data : option (list Byte.byte)) (nSize timestamp : Z) (tb : AVRational) (prog : parse_prog)
| CClose
| CDelete.

(** Line 259: [DecodePacket] of a null or empty payload is a flush. *)
Definition is_flush (data : option (list Byte.byte)) (nSize : Z) : bool :=
  match data with None => true | Some _ => nSize =? 0 end.

(** The engine answers success to every call whose result the caller
    checks: the parse of the engine's program ends in [CUDA_SUCCESS],
    whatever the callbacks return. *)
Fixpoint parse_succeeds (p : parse_prog) : Prop :=
  match p with
  | PEnd r => r = ERet CUDA_SUCCESS
  | PSequence _ k | PDecode _ _ k | PDisplay _ k => ∀ v, parse_succeeds (k v)
  end.

(** An engine whose creation calls and parse of the sequence header
    succeed, during an [InitDecode]. *)
Definition engine_cooperates (c : client_call) : Prop :=
  match c with
  | CInit _ _ _ _ env =>
      create_parser_result env = CUDA_SUCCESS ∧
      (seh_guard (create_decoder_result env)).1 = CUDA_SUCCESS ∧
      parse_succeeds (header_parse env)
  | _ => True
  end.

Section SessionSpec.
Context {Q : Type} `{!FrameQueue Q} `{!FrameQueueLaws Q}.

Implicit Types (s : CuvidDecode Q).

(** The object seen as a state of the lifecycle. *)
Definition ended_of s : option bool := fq_is_ended <$> m_pFrameQueue s.

Definition abs s : lc_state :=
  match ended_of s with
  | None => LClosed
  | Some false => LRunning
  | Some true => LDraining
  end.

(** A decoder only with a parser, a parser only with a frame queue. *)
Definition session_wf s : Prop :=
  (m_videoDecoder s = true -> m_videoParser s = true) ∧
  (m_videoParser s = true -> is_Some (m_pFrameQueue s)).

(** One call of the client; [None] when the call does not return (a
    decode callback waits) or crashes. *)
Definition client_step s (c : client_call) : option (CuvidDecode Q * lc_event) :=
  match c with
  | CInit lock input pLog ign env =>
      match InitDecode lock input pLog ign env s with
      | FDone s' r => Some (s', EvOpen (r =? CUDA_SUCCESS))
      | _ => None
      end
  | CDecode data nSize ts tb prog =>
      match DecodePacket s data nSize ts tb prog with
      | FDone s' _ => Some (s', if is_flush data nSize then EvFlush else EvFeed)
      | _ => None
      end
  | CClose => Some (CloseDecoder s, EvClose)
  | CDelete => Some (CuvidDecode_delete s, EvClose)
  end.

Fixpoint run_client s (cs : list client_call) : option (CuvidDecode Q * list lc_event) :=
  match cs with
  | [] => Some (s, [])
  | c :: cs' =>
      match client_step s c with
      | Some (s1, ev) =>
          match run_client s1 cs' with
          | Some (s2, evs) => Some (s2, ev :: evs)
          | None => None
          end
      | None => None
      end
  end.

(** ** What a call leaves of the lifecycle state *)

(** The part of the object the lifecycle reads: whether the queue exists
    and is ended, and the two engine handles. *)
Definition frame s s' : Prop :=
  ended_of s' = ended_of s ∧ m_videoParser s' = m_videoParser s ∧
  m_videoDecoder s' = m_videoDecoder s.

#[local] Instance frame_preorder : PreOrder frame.
Proof.
  split; [done|]. intros s1 s2 s3 (E1 & P1 & D1) (E2 & P2 & D2). split_and!; congruence.
Qed.

Lemma frame_same s s' :
  m_pFrameQueue s' = m_pFrameQueue s -> m_videoParser s' = m_videoParser s ->
  m_videoDecoder s' = m_videoDecoder s -> frame s s'.
Proof. intros Hq Hp Hd. unfold frame, ended_of. by rewrite Hq. Qed.

(** A queue transition that is not [endDecode] keeps whether it is ended. *)
Lemma frame_queue s q q' :
  m_pFrameQueue s = Some q -> fq_is_ended q' = fq_is_ended q ->
  frame s (set_frame_queue (Some q') s).
Proof. intros Hq He. unfold frame, ended_of. simpl. rewrite Hq. simpl. by rewrite He. Qed.

#[local] Hint Resolve frame_same : cuvid.

Lemma HandleVideoSequence_frame s f : frame s (HandleVideoSequence s f).1.
Proof. by apply frame_same. Qed.

Lemma DecPictureDecode_frame s pp dec s' ret :
  DecPictureDecode s pp dec = CBDone s' ret -> frame s s'.
Proof.
  unfold DecPictureDecode. simpl. destruct (m_pFrameQueue s) as [q|] eqn:Hq; [|done].
  destruct (fq_wait q _) as [q'| | |] eqn:Hw; simpl; [| | |done];
  destruct (seh_guard dec) as [res faulted]; destruct faulted, (res =? CUDA_SUCCESS);
    intros [= <- _]; try (apply frame_same; done);
    (etrans; [apply (frame_queue s q q'); [done|by eapply fq_wait_keeps_ended]|by apply frame_same]).
Qed.

Lemma DecPictureDisplay_frame s di s' ret :
  DecPictureDisplay s di = CBDone s' ret -> frame s s'.
Proof.
  unfold DecPictureDisplay. simpl. destruct (m_pFrameQueue s) as [q|] eqn:Hq; [|done].
  intros [= <- _]. destruct (fq_enqueue q di) as [q'|] eqn:He; simpl.
  - etrans; [apply (frame_queue s q q'); [done|by eapply fq_enqueue_keeps_ended]|by apply frame_same].
  - by apply frame_same.
Qed.

(** The engine's parse, from any state, leaves the lifecycle state as it
    found it. *)
Lemma run_parse_frame s p :
  match run_parse s p with
  | PRDone s' _ | PRBlocked s' _ _ _ => frame s s'
  | PRCrash _ => True
  end.
Proof.
  revert s. induction p as [r|f k IH|pp dec k IH|di k IH]; intros s;
    cbn -[HandleVideoSequence DecPictureDecode DecPictureDisplay]; [done| | |].
  - pose proof (HandleVideoSequence_frame s f) as F.
    destruct (HandleVideoSequence s f) as [s1 ret]. specialize (IH ret s1).
    destruct (run_parse s1 (k ret)); try done; by etrans.
  - destruct (DecPictureDecode s pp dec) as [s1 ret| |why] eqn:E; [|done|done].
    specialize (IH ret s1). apply DecPictureDecode_frame in E.
    destruct (run_parse s1 (k ret)); try done; by etrans.
  - destruct (DecPictureDisplay s di) as [s1 ret| |why] eqn:E; [|done|done].
    specialize (IH ret s1). apply DecPictureDisplay_frame in E.
    destruct (run_parse s1 (k ret)); try done; by etrans.
Qed.

(** Under an engine that succeeds, a parse that returns returns success. *)
Lemma run_parse_succeeds s p s' r :
  parse_succeeds p -> run_parse s p = PRDone s' r -> r = ERet CUDA_SUCCESS.
Proof.
  revert s. induction p as [r0|f k IH|pp dec k IH|di k IH]; intros s Hp; simpl in *.
  - by intros [= _ <-].
  - destruct (HandleVideoSequence s f) as [s1 ret]. by apply IH.
  - destruct (DecPictureDecode s pp dec); [by apply IH|done|done].
  - destruct (DecPictureDisplay s di); [by apply IH|done|done].
Qed.

Lemma post_step_frame p s res :
  p ≠ PostFlush -> match post_step p s res with Done s' _ => frame s s' | Crash _ => True end.
Proof.
  intros Hp. destruct p; simpl; [done| |];
    destruct (res =? CUDA_SUCCESS); by apply frame_same.
Qed.

Lemma apply_posts_frame posts s res :
  Forall (λ p, p ≠ PostFlush) posts ->
  match apply_posts posts s res with
  | FDone s' _ | FBlocked s' _ _ _ _ => frame s s'
  | FCrash _ => True
  end.
Proof.
  revert s res. induction posts as [|p posts IH]; intros s res Hps; simpl; [done|].
  apply Forall_cons in Hps as [Hp Hps].
  pose proof (post_step_frame p s res Hp) as F.
  destruct (post_step p s res) as [s1 r1|]; [|done].
  specialize (IH s1 r1 Hps). destruct (apply_posts posts s1 r1); try done; by etrans.
Qed.

(** A parse call whose caller does not end the stream leaves the
    lifecycle state as it found it. *)
Lemma parse_call_frame s pkt prog posts :
  Forall (λ p, p ≠ PostFlush) posts ->
  match parse_call s pkt prog posts with
  | FDone s' _ | FBlocked s' _ _ _ _ => frame s s'
  | FCrash _ => True
  end.
Proof.
  intros Hps. unfold parse_call, finish_parse.
  assert (F0 : frame s (api (AParseVideoData pkt) s)) by (by apply frame_same).
  pose proof (run_parse_frame (api (AParseVideoData pkt) s) prog) as F.
  destruct (run_parse _ prog) as [s1 r|s1 pp dec k|why]; [|by etrans|done].
  destruct (seh_guard r) as [res faulted].
  assert (F1 : frame s (if faulted then AddMessage NV_LOG_ERROR "cuvidParseVideoData error" s1 else s1))
    by (etrans; [etrans; [exact F0|exact F]|destruct faulted; by apply frame_same]).
  pose proof (apply_posts_frame posts
    (if faulted then AddMessage NV_LOG_ERROR "cuvidParseVideoData error" s1 else s1) res Hps) as F2.
  destruct (apply_posts _ _ _); try done; by etrans.
Qed.

(** A flush that returns found the queue allocated and leaves it ended;
    it does not touch the handles. *)
Lemma FlushParser_frame s prog s' r :
  FlushParser s prog = FDone s' r ->
  ended_of s ≠ None ∧ ended_of s' = Some true ∧
  m_videoParser s' = m_videoParser s ∧ m_videoDecoder s' = m_videoDecoder s.
Proof.
  unfold FlushParser, FlushParser_then, parse_call, finish_parse.
  assert (F0 : frame s (api (AParseVideoData FlushParser_packet) s)) by (by apply frame_same).
  pose proof (run_parse_frame (api (AParseVideoData FlushParser_packet) s) prog) as F.
  destruct (run_parse _ prog) as [s1 r1| |]; try done.
  assert (F1 : frame s s1) by (by etrans).
  destruct F1 as (E & P & D). unfold ended_of in *.
  destruct (seh_guard r1) as [res []]; simpl;
    destruct (m_pFrameQueue s1) as [q|] eqn:Hq; simpl in *; try done; intros [= <- <-];
    simpl; rewrite ?Hq; simpl; rewrite fq_end_is_ended;
    (split; [destruct (m_pFrameQueue s); done|done]).
Qed.

(** What [DecodePacket] leaves of the lifecycle state: a flush ends an
    allocated queue; any other packet changes nothing of it. *)
Lemma DecodePacket_frame s data nSize ts tb prog s' r :
  DecodePacket s data nSize ts tb prog = FDone s' r ->
  if is_flush data nSize
  then ended_of s ≠ None ∧ ended_of s' = Some true ∧
       m_videoParser s' = m_videoParser s ∧ m_videoDecoder s' = m_videoDecoder s
  else frame s s'.
Proof.
  destruct (is_flush data nSize) eqn:Hf.
  - rewrite DecodePacket_empty_is_flush; [apply FlushParser_frame|].
    destruct data; simpl in Hf; [right; by apply Z.eqb_eq|by left].
  - destruct data as [bytes|]; [|done]. simpl in Hf.
    unfold DecodePacket, DecodePacket_then. rewrite Hf. intros E.
    pose proof (parse_call_frame s (DecodePacket_packet bytes nSize ts tb) prog [] ltac:(by constructor)) as F.
    by rewrite E in F.
Qed.

(** ** [InitDecode] seen from the lifecycle *)

(** A running session: a queue that is not ended, both handles. *)
Definition running_frame s : Prop :=
  ended_of s = Some false ∧ m_videoParser s = true ∧ m_videoDecoder s = true.

Lemma frame_running s s' : frame s s' -> running_frame s -> running_frame s'.
Proof. intros (E & P & D) (E' & P' & D'). split_and!; congruence. Qed.

Lemma same_frame_frame s s' : same_frame s s' -> frame s s'.
Proof. intros (Hq & Hp & Hd). by apply frame_same. Qed.

(** The header phase: the lifecycle state is kept, and under an engine
    whose parse succeeds the phase returns success. *)
Lemma InitDecode_header_frame env s :
  match InitDecode_header env s with
  | FDone s' r => frame s s' ∧ (parse_succeeds (header_parse env) -> r = CUDA_SUCCESS)
  | FBlocked s' _ _ _ _ => frame s s'
  | FCrash _ => True
  end.
Proof.
  unfold InitDecode_header. destruct (negb _) eqn:Hl; [|done].
  unfold DecodePacket_then. apply negb_true_iff in Hl. rewrite Hl.
  pose proof (parse_call_frame s (DecodePacket_packet (raw_seqhdr_data (m_videoFormatEx s))
    (seqhdr_data_length (fx_format (m_videoFormatEx s))) AV_NOPTS_VALUE CUVID_NATIVE_TIMEBASE)
    (header_parse env) [PostInitHeader] ltac:(by repeat constructor)) as F.
  destruct (parse_call _ _ _ _) as [s' r| | ] eqn:E; try done. split; [done|].
  intros Hp. revert E. unfold parse_call, finish_parse.
  destruct (run_parse _ _) as [s1 r1| |] eqn:R; try done.
  rewrite (run_parse_succeeds _ _ _ _ Hp R). simpl. by intros [= _ <-].
Qed.

(** Every way [InitDecode] can return: the probe or the allocation
    failed and nothing is left; the parser or the decoder failed with a
    queue left allocated and no decoder; or the session runs, and it
    returns success when the engine's parse of the header does. *)
Lemma InitDecode_cases lock input pLog ign env s :
  match InitDecode lock input pLog ign env s with
  | FDone s' r =>
      (r ≠ CUDA_SUCCESS ∧ closed_frame s') ∨
      (r ≠ CUDA_SUCCESS ∧
       (r = create_parser_result env ∨ r = (seh_guard (create_decoder_result env)).1) ∧
       is_Some (m_pFrameQueue s') ∧ m_videoDecoder s' = false) ∨
      (running_frame s' ∧ (parse_succeeds (header_parse env) -> r = CUDA_SUCCESS))
  | FBlocked s' _ _ _ _ => running_frame s'
  | FCrash _ => True
  end.
Proof.
  unfold InitDecode.
  pose proof (InitDecode_open_trace pLog ign env s) as H1.
  destruct (InitDecode_open _ _ _ _) as [s1|[s1 r1| | ]]; cbn [init_then]; try done;
    [|left; by destruct H1 as (_ & ? & ?)].
  destruct H1 as (_ & Hq1 & Hp1 & Hd1).
  pose proof (InitDecode_queue_trace lock input env s1) as H2.
  destruct (InitDecode_queue _ _ _ _) as [s2|[s2 r2| | ]]; cbn [init_then]; try done;
    [|left; destruct H2 as (_ & ? & ? & ? & ?); split; [done|unfold closed_frame; split_and!; congruence]].
  destruct H2 as (_ & Hq2 & Hp2 & Hd2).
  pose proof (InitDecode_parser_trace input env s2) as H3.
  destruct (InitDecode_parser _ _ _) as [s3|[s3 r3| | ]]; cbn [init_then]; try done;
    [|right; left; destruct H3 as (_ & ? & (? & ? & ?) & ?); split_and!; try done;
      [by left|rewrite H0, Hq2; by eexists|congruence]].
  destruct H3 as (_ & Hq3 & Hp3 & Hd3).
  pose proof (InitDecode_decoder_trace input env s3) as H4.
  destruct (InitDecode_decoder _ _ _) as [s4|[s4 r4| | ]]; cbn [init_then]; try done;
    [|right; left; destruct H4 as (_ & ? & (? & ? & ?) & ?); split_and!; try done;
      [by right|rewrite H0, Hq3, Hq2; by eexists|congruence]].
  destruct H4 as (_ & Hq4 & Hp4 & Hd4).
  assert (R4 : running_frame s4).
  { unfold running_frame, ended_of. rewrite Hq4, Hq3, Hq2. simpl.
    by rewrite fq_new_not_ended, Hp4, Hp3. }
  pose proof (InitDecode_header_frame env s4) as H5.
  destruct (InitDecode_header _ _); try done.
  - right; right. destruct H5 as [F H5]. split; [by eapply frame_running|done].
  - by eapply frame_running.
Qed.

(** ** Each client call *)

Lemma frame_wf s s' : frame s s' -> session_wf s -> session_wf s'.
Proof.
  intros (E & P & D) [W1 W2]. unfold ended_of in E. split.
  - rewrite D, P. apply W1.
  - rewrite P. intros Hp. destruct (m_pFrameQueue s') eqn:Hq; [by eexists|].
    destruct (W2 Hp) as [q Hq']. by rewrite Hq' in E.
Qed.

Lemma frame_abs s s' : frame s s' -> abs s' = abs s.
Proof. intros (E & _ & _). unfold abs. by rewrite E. Qed.

Lemma close_abs_wf s : abs (CloseDecoder s) = LClosed ∧ session_wf (CloseDecoder s).
Proof.
  destruct (close_clears s) as (Hd & Hp & Hq & _).
  unfold abs, ended_of, session_wf. rewrite Hd, Hp, Hq. done.
Qed.

Lemma closed_frame_abs_wf s : closed_frame s -> abs s = LClosed ∧ session_wf s.
Proof. intros (Hq & Hp & Hd). unfold abs, ended_of, session_wf. by rewrite Hq, Hp, Hd. Qed.

Lemma running_frame_abs_wf s : running_frame s -> abs s = LRunning ∧ session_wf s.
Proof.
  intros (E & Hp & Hd). unfold abs. rewrite E. split; [done|]. split; [done|].
  intros _. unfold ended_of in E. destruct (m_pFrameQueue s); [by eexists|done].
Qed.

Lemma client_step_wf s c s' ev :
  session_wf s -> client_step s c = Some (s', ev) -> session_wf s'.
Proof.
  intros W. destruct c as [lock input pLog ign env|data nSize ts tb prog| |]; simpl.
  - pose proof (InitDecode_cases lock input pLog ign env s) as H.
    destruct (InitDecode _ _ _ _ _ _) as [s1 r| |]; intros [= <- _];
      destruct H as [(_ & H)|[(_ & _ & [q Hq] & Hd)|(H & _)]].
    + by apply closed_frame_abs_wf.
    + split; [by rewrite Hd|rewrite Hq; by eexists].
    + by apply running_frame_abs_wf.
  - destruct (DecodePacket s data nSize ts tb prog) as [s1 r| |] eqn:E; intros [= <- _].
    apply DecodePacket_frame in E. destruct (is_flush data nSize); [|by eapply frame_wf].
    destruct E as (_ & E & Hp & Hd). unfold ended_of in E.
    split; [rewrite Hd, Hp; apply W|].
    intros _. destruct (m_pFrameQueue s1); [by eexists|done].
  - intros [= <- _]. apply close_abs_wf.
  - intros [= <- _]. apply close_abs_wf.
Qed.

(** Under an engine that cooperates, each call is a step of the spec's
    lifecycle between the states the object is read as. *)
Lemma client_step_lc s c s' ev :
  engine_cooperates c -> client_step s c = Some (s', ev) -> lc_step (abs s) ev (abs s').
Proof.
  destruct c as [lock input pLog ign env|data nSize ts tb prog| |]; simpl.
  - intros (Hp & Hd & Hh). pose proof (InitDecode_cases lock input pLog ign env s) as H.
    destruct (InitDecode _ _ _ _ _ _) as [s1 r| |]; intros [= <- <-];
      destruct H as [(Hr & H)|[(Hr & [-> | ->] & _)|(H & Hr)]]; try done.
    + rewrite (proj1 (closed_frame_abs_wf _ H)), (proj2 (Z.eqb_neq _ _) Hr). constructor.
    + rewrite (proj1 (running_frame_abs_wf _ H)), (Hr Hh). constructor.
  - intros _. destruct (DecodePacket s data nSize ts tb prog) as [s1 r| |] eqn:E; intros [= <- <-].
    apply DecodePacket_frame in E. destruct (is_flush data nSize).
    + destruct E as (E0 & E & _). unfold abs. rewrite E.
      destruct (ended_of s) as [[]|]; [constructor|constructor|done].
    + rewrite (frame_abs _ _ E). constructor.
  - intros _ [= <- <-]. rewrite (proj1 (close_abs_wf s)). constructor.
  - intros _ [= <- <-]. unfold CuvidDecode_delete. rewrite (proj1 (close_abs_wf s)). constructor.
Qed.

(** ** Theorems *)

(** C11: Well-formedness of the object.  Whatever the engine answers,
    after every call of a client that returns -- [InitDecode] from any
    state, [DecodePacket], [CloseDecoder], the destructor -- the object
    owns a decoder only with a parser, and a parser only with a frame
    queue. *)
Theorem run_client_wf s cs s' evs :
  session_wf s -> run_client s cs = Some (s', evs) -> session_wf s'.
Proof.
  revert s evs. induction cs as [|c cs IH]; intros s evs W; simpl; [by intros [= <- _]|].
  destruct (client_step s c) as [[s1 ev]|] eqn:E; [|done].
  destruct (run_client s1 cs) as [[s2 evs2]|] eqn:E2; [|done]. intros [= <- _].
  eapply IH; [eapply client_step_wf; eauto|exact E2].
Qed.

(** C3: Refinement of the spec's lifecycle.  As long as the engine's
    creation calls and its parse of the sequence header succeed, every
    run of a client of the object is a run of the lifecycle of
    section 4.2, between the states the object is read as (no queue:
    closed; a queue not ended: running; an ended queue: draining), with
    one event per call: open with its outcome, feed, flush for an empty
    payload, close for [CloseDecoder] and the destructor. *)
Theorem run_client_refines s cs s' evs :
  Forall engine_cooperates cs -> run_client s cs = Some (s', evs) ->
  lc_run (abs s) evs (abs s').
Proof.
  revert s evs. induction cs as [|c cs IH]; intros s evs Hc; simpl; [intros [= <- <-]; constructor|].
  apply Forall_cons in Hc as [Hc Hcs].
  destruct (client_step s c) as [[s1 ev]|] eqn:E; [|done].
  destruct (run_client s1 cs) as [[s2 evs2]|] eqn:E2; [|done]. intros [= <- <-].
  econstructor; [eapply client_step_lc; eauto|eapply IH; eauto].
Qed.

End SessionSpec.

(** ** Witnesses, on the pool of [FrameQueue] *)

Import Pool.

(** Open a 1080p session, feed one packet the engine decodes and
    displays, flush, close. *)
Definition run_calls : list client_call :=
  [CInit (Some 1%nat) input_1080p true false env_ok;
   CDecode (Some [Byte.x00]) 1 0 CUVID_NATIVE_TIMEBASE prog_one_frame;
   CDecode None 0 0 CUVID_NATIVE_TIMEBASE (PEnd (ERet CUDA_SUCCESS));
   CClose].

(** The same client when the engine refuses to create the parser: the
    open fails, the feed still reaches the engine, the destructor ends. *)
Definition env_parser_fails : init_env :=
  {| dll_load := Some 1%nat; frame_queue_alloc := true; create_parser_result := 101;
     create_decoder_result := ERet CUDA_SUCCESS; header_parse := PEnd (ERet CUDA_SUCCESS) |}.

Definition failing_calls : list client_call :=
  [CInit None input_1080p false false env_parser_fails;
   CDecode (Some [Byte.x00]) 1 0 CUVID_NATIVE_TIMEBASE prog_one_frame;
   CDelete].

Lemma run_client_wf_witness :
  session_wf (CuvidDecode_new : CuvidDecode pool) ∧
  ∃ s' evs, run_client (CuvidDecode_new : CuvidDecode pool) failing_calls = Some (s', evs) ∧
            session_wf s'.
Proof.
  assert (W : session_wf (CuvidDecode_new : CuvidDecode pool)) by (split; discriminate).
  split; [exact W|]. do 2 eexists. split; [vm_compute; reflexivity|].
  eapply (run_client_wf _ failing_calls); [exact W|]. vm_compute. reflexivity.
Defined.

Lemma run_client_refines_witness :
  Forall engine_cooperates run_calls ∧
  ∃ s', run_client (CuvidDecode_new : CuvidDecode pool) run_calls =
          Some (s', [EvOpen true; EvFeed; EvFlush; EvClose]) ∧
        lc_run (abs (CuvidDecode_new : CuvidDecode pool)) [EvOpen true; EvFeed; EvFlush; EvClose] (abs s').
Proof.
  assert (C : Forall engine_cooperates run_calls) by (repeat constructor).
  split; [exact C|]. eexists. split; [vm_compute; reflexivity|].
  eapply (run_client_refines _ run_calls); [exact C|]. vm_compute. reflexivity.
Defined.
