(* ===== verification/System.v ===== *)
(** * The feeder, the engine's callbacks and the consumer, interleaved

    The session is driven by two parties that share the frame queue: the
    feeder, which calls [DecodePacket] (and, blocked in a decode callback,
    waits in it), and the consumer, which takes the oldest ready surface
    and later releases it.  This file runs them over one queue, the pool
    of [FrameQueue] with a record of the operations performed on it (a
    history the code does not keep, only observed here), as a step
    relation [sys_step] from the states [InitDecode] starts, and proves by
    rule induction what holds of every reachable state: the queue is the
    pool reached by the operations recorded, so the pool's invariant and
    its available count hold; the consumer receives surfaces, and their
    display records, in the order the display callbacks published them; a surface in use makes a decode
    callback wait; a release wakes a decode callback waiting for that
    surface; a flush lets the consumer drain the queue and then see the
    end of the stream, while a failed decode leaves it waiting. *)

From S2P Require Import Prelude Engine QueueIntf FrameQueue Format Timestamp Session Lifecycle SessionSpec.
From stdpp Require Import strings relations.
Import Pool.

Local Open Scope Z_scope.
Unset Default Proof Using.

Module System.

(** ** The pool with the record of its operations *)

Record gpool := { gp_pool : pool; gp_hist : list pool_op }.

Definition gp_record (g : gpool) (p' : pool) (o : pool_op) : gpool :=
  {| gp_pool := p'; gp_hist := gp_hist g ++ [o] |}.

Definition gp_wait (g : gpool) (i : Z) : wait_result gpool :=
  match pool_reserve (gp_pool g) i with
  | WaitOk p' => WaitOk (gp_record g p' (OpReserve i))
  | WaitEnded => WaitEnded
  | WaitInvalid => WaitInvalid
  | WaitBlocked => WaitBlocked
  end.

Definition gp_enqueue (g : gpool) (d : CUVIDPARSERDISPINFO) : option gpool :=
  (λ p', gp_record g p' (OpPublish d)) <$> pool_publish (gp_pool g) d.

Definition gp_end (g : gpool) : gpool := gp_record g (pool_end (gp_pool g)) OpEnd.

#[export] Instance gpool_frame_queue : FrameQueue gpool := {|
  fq_new w h := {| gp_pool := pool_make cnMaximumSize w h; gp_hist := [] |};
  fq_wait := gp_wait;
  fq_enqueue := gp_enqueue;
  fq_end := gp_end;
  fq_is_ended g := p_ended (gp_pool g)
|}.

#[export] Instance gpool_frame_queue_laws : FrameQueueLaws gpool.
Proof.
  split; simpl.
  - done.
  - done.
  - intros g i He. unfold gp_wait, pool_reserve. by rewrite He.
  - intros g i g'. unfold gp_wait. destruct (pool_reserve _ i) eqn:E; intros; simplify_eq/=.
    exact (fq_wait_keeps_ended (gp_pool g) i _ E).
  - intros g d g'. unfold gp_enqueue. destruct (pool_publish _ d) eqn:E; intros; simplify_eq/=.
    exact (fq_enqueue_keeps_ended (gp_pool g) d _ E).
Qed.

(** The operations the feeder's side performs on the queue. *)
Definition feeder_op (o : pool_op) : Prop :=
  match o with OpReserve _ | OpPublish _ | OpEnd => True | OpTake | OpRelease _ => False end.

(** The recorded operations, run from [p0], give the pool. *)
Definition ghost_ok (p0 : pool) (g : gpool) : Prop := (pool_run p0 (gp_hist g)).1 = gp_pool g.

(** ** Lemmas on the record *)

Lemma pool_run_app p os os' :
  pool_run p (os ++ os') =
  ((pool_run (pool_run p os).1 os').1, (pool_run p os).2 ++ (pool_run (pool_run p os).1 os').2).
Proof.
  revert p. induction os as [|o os IH]; intros p; simpl; [by destruct (pool_run p os')|].
  destruct (pool_step p o) as [p1 e]. rewrite IH.
  destruct (pool_run p1 os) as [p2 es]. simpl. by destruct (pool_run p2 os').
Qed.

Lemma pool_run_snoc p os o :
  pool_run p (os ++ [o]) =
  ((pool_step (pool_run p os).1 o).1, (pool_run p os).2 ++ [(pool_step (pool_run p os).1 o).2]).
Proof. rewrite pool_run_app. simpl. by destruct (pool_step _ o). Qed.

Lemma ghost_ok_record p0 g o :
  ghost_ok p0 g -> ghost_ok p0 (gp_record g (pool_step (gp_pool g) o).1 o).
Proof. unfold ghost_ok. simpl. rewrite pool_run_snoc. intros ->. done. Qed.

(** A session-side transition of the queue is one recorded feeder
    operation, performed as [pool_step] performs it. *)
Lemma fq_step_record g g' :
  fq_step g g' ->
  ∃ o, feeder_op o ∧ g' = gp_record g (pool_step (gp_pool g) o).1 o.
Proof.
  intros [(i & Hw)|[(d & He)| ->]]; simpl in *.
  - exists (OpReserve i). split; [done|]. unfold gp_wait in Hw. simpl.
    destruct (pool_reserve _ i); by simplify_eq.
  - exists (OpPublish d). split; [done|]. unfold gp_enqueue in He. simpl.
    destruct (pool_publish _ d); by simplify_eq/=.
  - by exists OpEnd.
Qed.

Lemma rtc_fq_step_record p0 g g' :
  rtc fq_step g g' -> ghost_ok p0 g ->
  ghost_ok p0 g' ∧ ∃ os, gp_hist g' = gp_hist g ++ os ∧ Forall feeder_op os.
Proof.
  induction 1 as [g|g g1 g' Hs _ IH]; intros Hg.
  - split; [done|]. exists []. by rewrite app_nil_r.
  - destruct (fq_step_record g g1 Hs) as (o & Ho & ->).
    destruct (IH (ghost_ok_record p0 g o Hg)) as [Hg' (os & Eh & Fos)].
    split; [done|]. exists (o :: os). rewrite Eh. simpl. rewrite <-app_assoc.
    split; [done|by constructor].
Qed.

Lemma pool_step_feeder_not_taken p o : feeder_op o -> taken_of [(pool_step p o).2] = [].
Proof.
  destruct o; simpl; try done; intros _.
  - by destruct (pool_reserve p i).
  - by destruct (pool_publish p d).
Qed.

Lemma pool_run_feeder_not_taken p os : Forall feeder_op os -> taken_of (pool_run p os).2 = [].
Proof.
  revert p. induction os as [|o os IH]; intros p Hos; [done|]. inversion Hos; subst.
  rewrite pool_run_cons. cbn [snd]. rewrite taken_of_cons, pool_step_feeder_not_taken by done.
  simpl. by apply IH.
Qed.

Lemma taken_of_app es es' : taken_of (es ++ es') = taken_of es ++ taken_of es'.
Proof. apply omap_app. Qed.

Lemma pool_step_feeder_no_infos p o : feeder_op o -> taken_infos [(pool_step p o).2] = [].
Proof.
  destruct o; simpl; try done; intros _.
  - by destruct (pool_reserve p i).
  - by destruct (pool_publish p d).
Qed.

Lemma pool_run_feeder_no_infos p os : Forall feeder_op os -> taken_infos (pool_run p os).2 = [].
Proof.
  revert p. induction os as [|o os IH]; intros p Hos; [done|]. inversion Hos; subst.
  rewrite pool_run_cons. cbn [snd]. rewrite taken_infos_cons, pool_step_feeder_no_infos by done.
  simpl. by apply IH.
Qed.

Lemma taken_infos_app es es' : taken_infos (es ++ es') = taken_infos es ++ taken_infos es'.
Proof. apply omap_app. Qed.

(** ** The system *)

(** A feeder waiting in a decode callback: the callback's arguments, the
    rest of the engine's parse, and the caller's code after the parse. *)
Definition blocked : Type :=
  (CUVIDPICPARAMS * engine_ret CUresult * (Z -> parse_prog) * list parse_post)%type.

Record sys := {
  sys_sess : CuvidDecode gpool;
  sys_wait : option blocked;
  sys_out : list nat;       (** the surfaces the consumer has taken, in order *)
  sys_frames : list CUVIDPARSERDISPINFO;  (** the display records it received with them *)
  sys_eos : bool            (** the consumer has seen the end of the stream *)
}.

(** The feeder's call returned, or waits in a decode callback. *)
Definition feed_to (y : sys) (r : feed_result) : option sys :=
  match r with
  | FDone s _ =>
      Some {| sys_sess := s; sys_wait := None; sys_out := sys_out y; sys_frames := sys_frames y;
              sys_eos := sys_eos y |}
  | FBlocked s pp dec k posts =>
      Some {| sys_sess := s; sys_wait := Some (pp, dec, k, posts); sys_out := sys_out y;
              sys_frames := sys_frames y; sys_eos := sys_eos y |}
  | FCrash _ => None
  end.

(** The consumer's [take_ready] on the queue the session owns. *)
Definition consumer_take (y : sys) : option sys :=
  match m_pFrameQueue (sys_sess y) with
  | Some g =>
      match pool_take (gp_pool g) with
      | Taken n info p' =>
          Some {| sys_sess := set_frame_queue (Some (gp_record g p' OpTake)) (sys_sess y);
                  sys_wait := sys_wait y; sys_out := sys_out y ++ [n];
                  sys_frames := sys_frames y ++ [info]; sys_eos := sys_eos y |}
      | TakeEndOfStream =>
          Some {| sys_sess := sys_sess y; sys_wait := sys_wait y; sys_out := sys_out y;
                  sys_frames := sys_frames y; sys_eos := true |}
      | TakeBlocked => None
      end
  | None => None
  end.

(** The consumer's [release(n)]. *)
Definition consumer_release (y : sys) (n : nat) : option sys :=
  match m_pFrameQueue (sys_sess y) with
  | Some g =>
      match pool_release (gp_pool g) n with
      | Some p' =>
          Some {| sys_sess := set_frame_queue (Some (gp_record g p' (OpRelease n))) (sys_sess y);
                  sys_wait := sys_wait y; sys_out := sys_out y; sys_frames := sys_frames y;
                  sys_eos := sys_eos y |}
      | None => None
      end
  | None => None
  end.

Inductive sys_step : sys -> sys -> Prop :=
| step_feed y data nSize ts tb prog y' :
    sys_wait y = None ->
    feed_to y (DecodePacket (sys_sess y) data nSize ts tb prog) = Some y' -> sys_step y y'
| step_resume y pp dec k posts y' :
    sys_wait y = Some (pp, dec, k, posts) ->
    feed_to y (resume (sys_sess y) pp dec k posts) = Some y' -> sys_step y y'
| step_take y y' : consumer_take y = Some y' -> sys_step y y'
| step_release y n y' : consumer_release y n = Some y' -> sys_step y y'.

(** The states a successful [InitDecode] starts: returned, or waiting in
    the decode of the sequence header. *)
Inductive sys_init (input : Input.t) : sys -> Prop :=
| init_done lock pLog ign env s0 s :
    InitDecode lock input pLog ign env s0 = FDone s CUDA_SUCCESS ->
    sys_init input {| sys_sess := s; sys_wait := None; sys_out := []; sys_frames := [];
                      sys_eos := false |}
| init_blocked lock pLog ign env s0 s pp dec k posts :
    InitDecode lock input pLog ign env s0 = FBlocked s pp dec k posts ->
    sys_init input {| sys_sess := s; sys_wait := Some (pp, dec, k, posts); sys_out := [];
                      sys_frames := []; sys_eos := false |}.

Definition reachable (input : Input.t) (y : sys) : Prop :=
  ∃ y0, sys_init input y0 ∧ rtc sys_step y0 y.

(** The pool [InitDecode] allocates. *)
Definition pool0 (input : Input.t) : pool :=
  pool_make cnMaximumSize (Input.width input) (Input.height input).

(** The invariant: the queue is allocated and is the pool the recorded
    operations reach; the consumer has taken exactly the surfaces, and
    received exactly the display records, the recorded takes handed out;
    the engine handles exist. *)
Definition sys_inv (p0 : pool) (y : sys) : Prop :=
  ∃ g, m_pFrameQueue (sys_sess y) = Some g ∧ ghost_ok p0 g ∧
       sys_out y = taken_of (pool_run p0 (gp_hist g)).2 ∧
       sys_frames y = taken_infos (pool_run p0 (gp_hist g)).2 ∧
       m_videoParser (sys_sess y) = true ∧ m_videoDecoder (sys_sess y) = true.

(** ** Preservation *)

Lemma keeps_inv p0 y s' :
  sys_inv p0 y -> keeps (sys_sess y) s' ->
  ∃ g, m_pFrameQueue s' = Some g ∧ ghost_ok p0 g ∧
       sys_out y = taken_of (pool_run p0 (gp_hist g)).2 ∧
       sys_frames y = taken_infos (pool_run p0 (gp_hist g)).2 ∧
       m_videoParser s' = true ∧ m_videoDecoder s' = true.
Proof.
  intros (g & Hq & Hg & Ho & Hf & Hp & Hd) (Kq & _ & _ & Kp & Kd).
  destruct (Kq g Hq) as (g' & Hq' & R).
  destruct (rtc_fq_step_record p0 g g' R Hg) as [Hg' (os & Eh & Fos)].
  exists g'. split_and!; try congruence; rewrite Eh, pool_run_app; cbn [snd];
    unfold ghost_ok in Hg; rewrite Hg.
  - rewrite taken_of_app, (pool_run_feeder_not_taken _ os Fos). by rewrite app_nil_r.
  - rewrite taken_infos_app, (pool_run_feeder_no_infos _ os Fos). by rewrite app_nil_r.
Qed.

Lemma feed_to_inv p0 y r y' :
  sys_inv p0 y ->
  match r with
  | FDone s' _ | FBlocked s' _ _ _ _ => keeps (sys_sess y) s'
  | FCrash _ => False
  end ->
  feed_to y r = Some y' -> sys_inv p0 y'.
Proof.
  intros Hi K. destruct r as [s' r|s' pp dec k posts|why]; simpl; intros; simplify_eq;
    try done; by apply (keeps_inv p0 y s').
Qed.

Lemma consumer_take_inv p0 y y' : sys_inv p0 y -> consumer_take y = Some y' -> sys_inv p0 y'.
Proof.
  intros (g & Hq & Hg & Ho & Hf & Hp & Hd). unfold consumer_take. rewrite Hq.
  destruct (pool_take (gp_pool g)) as [n info p'| |] eqn:Ht; intros; simplify_eq/=.
  - assert (E : (pool_step (gp_pool g) OpTake) = (p', EvTaken n info)) by (simpl; by rewrite Ht).
    eexists; split_and!; try done.
    + unfold ghost_ok. simpl. rewrite pool_run_snoc, Hg, E. done.
    + simpl. rewrite pool_run_snoc. cbn [fst snd]. rewrite taken_of_app, Hg, E, Ho. done.
    + simpl. rewrite pool_run_snoc. cbn [fst snd]. rewrite taken_infos_app, Hg, E, Hf. done.
  - eexists; split_and!; done.
Qed.

Lemma consumer_release_inv p0 y n y' :
  sys_inv p0 y -> consumer_release y n = Some y' -> sys_inv p0 y'.
Proof.
  intros (g & Hq & Hg & Ho & Hf & Hp & Hd). unfold consumer_release. rewrite Hq.
  destruct (pool_release (gp_pool g) n) as [p'|] eqn:Hr; intros; simplify_eq/=.
  assert (E : (pool_step (gp_pool g) (OpRelease n)) = (p', EvReleased n)) by (simpl; by rewrite Hr).
  eexists; split_and!; try done.
  - unfold ghost_ok. simpl. rewrite pool_run_snoc, Hg, E. done.
  - simpl. rewrite pool_run_snoc. cbn [fst snd]. rewrite taken_of_app, Hg, E, Ho. simpl. by rewrite app_nil_r.
  - simpl. rewrite pool_run_snoc. cbn [fst snd]. rewrite taken_infos_app, Hg, E, Hf. simpl. by rewrite app_nil_r.
Qed.

Lemma sys_step_inv p0 y y' : sys_inv p0 y -> sys_step y y' -> sys_inv p0 y'.
Proof.
  intros Hi Hs. destruct Hs as [y data nSize ts tb prog y' _ E|y pp dec k posts y' _ E|y y' E|y n y' E].
  - eapply feed_to_inv; [done| |exact E]. apply DecodePacket_then_keeps.
    destruct Hi as (g & -> & _). by eexists.
  - eapply feed_to_inv; [done| |exact E]. apply resume_keeps.
    destruct Hi as (g & -> & _). by eexists.
  - by eapply consumer_take_inv.
  - by eapply consumer_release_inv.
Qed.

Lemma sys_init_inv input y : sys_init input y -> sys_inv (pool0 input) y.
Proof.
  intros [lock pLog ign env s0 s E|lock pLog ign env s0 s pp dec k posts E];
    pose proof (InitDecode_starts lock input pLog ign env s0) as H; rewrite E in H;
    [specialize (H eq_refl)|];
    destruct H as (g & Hq & R & Hp & Hd);
    destruct (rtc_fq_step_record (pool0 input) _ g R eq_refl) as [Hg (os & Eh & Fos)];
    exists g; split_and!; try done; simpl in Eh; rewrite Eh;
    by rewrite ?pool_run_feeder_not_taken, ?pool_run_feeder_no_infos.
Qed.

(** ** Theorems *)

Lemma reachable_sys_inv input y : reachable input y -> sys_inv (pool0 input) y.
Proof.
  intros (y0 & Hi & Hr). apply sys_init_inv in Hi.
  induction Hr as [y|y y1 y' Hs _ IH]; [done|]. by apply IH, (sys_step_inv _ y).
Qed.

(** C1: Invariant of the interleaving.  In every state reachable from a
    successful [InitDecode] by feeder calls, resumed decode callbacks,
    takes and releases, the frame queue is allocated and is exactly the
    pool that the operations performed on it, in the order performed,
    produce from the pool [InitDecode] allocated; the surfaces the consumer
    has taken are those the takes handed out; the parser and the decoder
    exist. *)
Theorem reachable_inv input y :
  reachable input y ->
  ∃ g, m_pFrameQueue (sys_sess y) = Some g ∧
       gp_pool g = (pool_run (pool0 input) (gp_hist g)).1 ∧
       sys_out y = taken_of (pool_run (pool0 input) (gp_hist g)).2 ∧
       m_videoParser (sys_sess y) = true ∧ m_videoDecoder (sys_sess y) = true.
Proof.
  intros Hr. destruct (reachable_sys_inv input y Hr) as (g & Hq & Hg & Ho & _ & Hp & Hd).
  by exists g.
Qed.

Lemma reachable_queue input y :
  reachable input y ->
  ∃ g, m_pFrameQueue (sys_sess y) = Some g ∧ gp_pool g = (pool_run (pool0 input) (gp_hist g)).1.
Proof. intros Hr. destruct (reachable_sys_inv input y Hr) as (g & Hq & Hg & _). by exists g. Qed.

Lemma reachable_pool_wf input y :
  reachable input y -> ∃ g, m_pFrameQueue (sys_sess y) = Some g ∧ pool_wf (gp_pool g).
Proof.
  intros Hr. destruct (reachable_queue input y Hr) as (g & Hq & Hg). exists g. split; [done|].
  rewrite Hg. apply pool_run_wf, pool_make_wf.
Qed.

(** C4: In every reachable state the pool is well formed, has
    [cnMaximumSize] surfaces, and its available count is [cnMaximumSize]
    minus the surfaces reserved for decode or ready for display; the
    surfaces queued for the consumer are at most the [Ready] ones, so the
    feeder is never more than [cnMaximumSize] frames ahead of it
    (backpressure). *)
Theorem reachable_available input y :
  reachable input y ->
  ∃ g, m_pFrameQueue (sys_sess y) = Some g ∧ pool_wf (gp_pool g) ∧
       p_capacity (gp_pool g) = cnMaximumSize ∧
       p_available (gp_pool g) =
         (cnMaximumSize - (count_state Reserved (gp_pool g) + count_state Ready (gp_pool g)))%nat ∧
       (length (p_queue (gp_pool g)) <= count_state Ready (gp_pool g) <= cnMaximumSize)%nat.
Proof.
  intros Hr. destruct (reachable_queue input y Hr) as (g & Hq & Hg).
  pose proof (pool_run_wf (pool0 input) (gp_hist g) (pool_make_wf _ _ _)) as Hwf.
  pose proof (pool_run_capacity (pool0 input) (gp_hist g)) as Hc.
  rewrite <-Hg in Hwf, Hc. exists g. split_and!; try done.
  all: pose proof (wf_available _ Hwf); pose proof (pool_queue_bound _ Hwf); simpl in Hc; lia.
Qed.

(** C2: FIFO across the interleaving.  The surfaces the consumer has
    taken, followed by those still queued, are exactly the surfaces the
    display callbacks' [enqueue] calls published, in the order of those
    calls; and the display records the consumer received with them,
    followed by those of the queued surfaces, are exactly the records
    those [enqueue] calls passed and the pool accepted, in the same
    order: the pool loses, alters or reorders no record between
    [enqueue] and the consumer.  (That the display callback hands
    [enqueue] the engine's record is C26.) *)
Theorem reachable_fifo input y :
  reachable input y ->
  ∃ g, m_pFrameQueue (sys_sess y) = Some g ∧
       sys_out y ++ p_queue (gp_pool g) = published_of (pool_run (pool0 input) (gp_hist g)).2 ∧
       sys_frames y ++ queued_infos (gp_pool g) = published_infos (pool_run (pool0 input) (gp_hist g)).2.
Proof.
  intros Hr. destruct (reachable_sys_inv input y Hr) as (g & Hq & Hg & Ho & Hf & _).
  exists g. split_and!; [done| |].
  - rewrite Ho, <-Hg. apply (pool_run_fifo (pool0 input)).
  - rewrite Hf, <-Hg. apply (pool_run_fifo_info (pool0 input)), pool_make_wf.
Qed.

(** C28: The feeder is never stuck by the session: in every reachable
    state where it is not waiting, [DecodePacket] of any packet, whatever
    the engine does, returns or waits in a decode callback, and so does
    resuming a waiting decode callback; neither dereferences a null
    queue. *)
Theorem reachable_feeder_progress input y :
  reachable input y ->
  (sys_wait y = None -> ∀ data nSize ts tb prog,
     ∃ y', feed_to y (DecodePacket (sys_sess y) data nSize ts tb prog) = Some y' ∧ sys_step y y') ∧
  (∀ pp dec k posts, sys_wait y = Some (pp, dec, k, posts) ->
     ∃ y', feed_to y (resume (sys_sess y) pp dec k posts) = Some y' ∧ sys_step y y').
Proof.
  intros Hr. destruct (reachable_sys_inv input y Hr) as (g & Hq & _).
  assert (Hs : is_Some (m_pFrameQueue (sys_sess y))) by by eexists.
  split.
  - intros Hw data nSize ts tb prog.
    pose proof (DecodePacket_then_keeps _ data nSize ts tb prog [] Hs) as K.
    change (DecodePacket_then _ _ _ _ _ _ []) with (DecodePacket (sys_sess y) data nSize ts tb prog) in K.
    destruct (DecodePacket (sys_sess y) data nSize ts tb prog) eqn:E; try done;
      (eexists; split; [reflexivity|]); (eapply (step_feed y data nSize ts tb prog); [done|by rewrite E]).
  - intros pp dec k posts Hw.
    pose proof (resume_keeps _ pp dec k posts Hs) as K.
    destruct (resume (sys_sess y) pp dec k posts) eqn:E; try done;
      (eexists; split; [reflexivity|]); (eapply (step_resume y pp dec k posts); [done|by rewrite E]).
Qed.

(** ** Waiting and waking *)

Lemma pool_reserve_in_use p i n sl :
  p_ended p = false -> slot_index p i = Some n -> p_slots p !! n = Some sl -> fs_state sl ≠ Free ->
  pool_reserve p i = WaitBlocked.
Proof. intros He Hi Hn Hs. unfold pool_reserve. rewrite He, Hi, Hn. by case_decide. Qed.

Lemma pool_release_free p n p' i :
  pool_release p n = Some p' -> slot_index p i = Some n -> pool_reserve p' i ≠ WaitBlocked.
Proof.
  unfold pool_release. destruct (p_slots p !! n) as [sl|] eqn:Hn; [|done].
  case_decide; [|done]. intros [= <-] Hi.
  pose proof (set_slot_length p n {| fs_state := Free; fs_info := fs_info sl |}
                (S (p_available p)) (p_queue p)) as Hlen.
  pose proof (set_slot_lookup p n {| fs_state := Free; fs_info := fs_info sl |}
                (S (p_available p)) (p_queue p) n) as Hl.
  rewrite decide_True in Hl by (split; [done|by eapply slot_index_lt]).
  revert Hlen Hl.
  generalize (set_slot p n {| fs_state := Free; fs_info := fs_info sl |} (S (p_available p)) (p_queue p)).
  intros p' Hlen Hl.
  assert (Hi' : slot_index p' i = Some n) by (revert Hi; unfold slot_index; by rewrite Hlen).
  unfold pool_reserve. destruct (p_ended p'); [done|]. rewrite Hi', Hl. by case_decide.
Qed.

(** The decode callback as the feeder, waiting, retries it. *)
Lemma resume_blocked s pp dec k posts :
  DecPictureDecode s pp dec = CBBlocked -> resume s pp dec k posts = FBlocked s pp dec k posts.
Proof. intros H. unfold resume. simpl. by rewrite H. Qed.

(** C6: A surface is never reserved twice: while surface [i] is reserved
    for decode or held for display and the stream has not ended, a decode
    callback for [i] waits without changing the session, and a feeder
    waiting in it stays waiting, whatever the consumer has not yet done. *)
Theorem decode_waits_in_use y g pp dec k posts n sl :
  m_pFrameQueue (sys_sess y) = Some g -> p_ended (gp_pool g) = false ->
  slot_index (gp_pool g) (CurrPicIdx pp) = Some n -> p_slots (gp_pool g) !! n = Some sl ->
  fs_state sl ≠ Free ->
  DecPictureDecode (sys_sess y) pp dec = CBBlocked ∧
  resume (sys_sess y) pp dec k posts = FBlocked (sys_sess y) pp dec k posts.
Proof.
  intros Hq He Hi Hn Hs.
  assert (H : DecPictureDecode (sys_sess y) pp dec = CBBlocked).
  { unfold DecPictureDecode. simpl. rewrite Hq. simpl. unfold gp_wait.
    by rewrite (pool_reserve_in_use _ _ _ _ He Hi Hn Hs). }
  split; [done|by apply resume_blocked].
Qed.

(** C7: A release wakes the decode callback waiting for that surface:
    once the consumer releases surface [n], a decode callback for [n]
    (in particular the one the feeder waits in) no longer waits. *)
Theorem release_wakes_decode y g n y' pp dec :
  m_pFrameQueue (sys_sess y) = Some g -> slot_index (gp_pool g) (CurrPicIdx pp) = Some n ->
  consumer_release y n = Some y' ->
  DecPictureDecode (sys_sess y') pp dec ≠ CBBlocked.
Proof.
  intros Hq Hi. unfold consumer_release. rewrite Hq.
  destruct (pool_release (gp_pool g) n) as [p'|] eqn:Hr; [|done]. intros [= <-].
  unfold DecPictureDecode. simpl. unfold gp_wait. simpl.
  pose proof (pool_release_free _ _ _ _ Hr Hi) as Hw.
  destruct (pool_reserve p' (CurrPicIdx pp)); try done; by destruct (seh_guard dec).
Qed.

(** ** End of stream and errors, seen by the consumer *)

Lemma consumer_drain y g :
  m_pFrameQueue (sys_sess y) = Some g -> p_ended (gp_pool g) = true ->
  ∃ y2, rtc sys_step y y2 ∧ sys_eos y2 = true ∧
        sys_out y2 = sys_out y ++ p_queue (gp_pool g) ∧ sys_wait y2 = sys_wait y.
Proof.
  remember (p_queue (gp_pool g)) as q eqn:Eq. revert y g Eq.
  induction q as [|m rest IH]; intros y g Eq Hq He.
  - exists {| sys_sess := sys_sess y; sys_wait := sys_wait y; sys_out := sys_out y;
              sys_frames := sys_frames y; sys_eos := true |}.
    split_and!; [|done|simpl; by rewrite app_nil_r|done].
    apply rtc_once, step_take. unfold consumer_take. rewrite Hq. unfold pool_take.
    by rewrite <-Eq, He.
  - set (p1 := {| p_capacity := p_capacity (gp_pool g); p_width := p_width (gp_pool g);
                   p_height := p_height (gp_pool g); p_slots := p_slots (gp_pool g);
                   p_available := p_available (gp_pool g); p_queue := rest;
                   p_ended := p_ended (gp_pool g) |}).
    set (y1 := {| sys_sess := set_frame_queue (Some (gp_record g p1 OpTake)) (sys_sess y);
                  sys_wait := sys_wait y; sys_out := sys_out y ++ [m];
                  sys_frames := sys_frames y ++ [slot_info (gp_pool g) m]; sys_eos := sys_eos y |}).
    assert (Ht : consumer_take y = Some y1).
    { unfold consumer_take. rewrite Hq. unfold pool_take. by rewrite <-Eq. }
    destruct (IH y1 (gp_record g p1 OpTake) eq_refl eq_refl He) as (y2 & R & Heos & Ho & Hw).
    exists y2. split_and!; [eapply rtc_l; [by apply step_take|exact R]|done| |done].
    rewrite Ho. simpl. by rewrite <-app_assoc.
Qed.

(** ** What only grows *)

(** From one state to a later one: a set error flag stays set, the
    consumer's surfaces and records only grow, the end of the stream once
    seen stays seen. *)
Definition grows (y y' : sys) : Prop :=
  (m_bError (sys_sess y) = true -> m_bError (sys_sess y') = true) ∧
  sys_out y `prefix_of` sys_out y' ∧ sys_frames y `prefix_of` sys_frames y' ∧
  (sys_eos y = true -> sys_eos y' = true).

#[local] Instance grows_preorder : PreOrder grows.
Proof.
  split.
  - intros y. split_and!; done.
  - intros y1 y2 y3 (E1 & O1 & F1 & S1) (E2 & O2 & F2 & S2).
    split_and!; [auto|by etrans|by etrans|auto].
Qed.

Lemma feed_to_grows y r y' :
  match r with
  | FDone s' _ | FBlocked s' _ _ _ _ => keeps (sys_sess y) s'
  | FCrash _ => False
  end ->
  feed_to y r = Some y' -> grows y y'.
Proof.
  intros K. destruct r as [s' r|s' pp dec k posts|why]; simpl; intros; simplify_eq/=; try done;
    destruct K as (_ & Ke & _); split_and!; done.
Qed.

Lemma sys_step_grows p0 y y' : sys_inv p0 y -> sys_step y y' -> grows y y'.
Proof.
  intros Hi Hs. destruct Hi as (g & Hq & _).
  assert (Hs' : is_Some (m_pFrameQueue (sys_sess y))) by by eexists.
  destruct Hs as [y data nSize ts tb prog y' _ E|y pp dec k posts y' _ E|y y' E|y n y' E].
  - eapply feed_to_grows; [|exact E]. by apply DecodePacket_then_keeps.
  - eapply feed_to_grows; [|exact E]. by apply resume_keeps.
  - revert E. unfold consumer_take. rewrite Hq.
    destruct (pool_take (gp_pool g)); intros; simplify_eq/=; split_and!; try done;
      by eexists.
  - revert E. unfold consumer_release. rewrite Hq.
    destruct (pool_release (gp_pool g) n); intros; simplify_eq/=. split_and!; done.
Qed.

(** C24: Monotonicity of the interleaving.  Along every run from a
    reachable state -- feeder calls, resumed decode callbacks, takes and
    releases in any order -- the sticky error flag, once set, stays set;
    the surfaces the consumer has taken and the display records it has
    received only grow; the end of the stream, once seen, stays seen. *)
Theorem reachable_grows input y y' :
  reachable input y -> rtc sys_step y y' -> grows y y'.
Proof.
  intros Hr R. pose proof (reachable_sys_inv input y Hr) as Hi. clear Hr.
  induction R as [y|y y1 y' Hs _ IH]; [done|].
  etrans; [exact (sys_step_grows _ _ _ Hi Hs)|]. apply IH. by eapply sys_step_inv.
Qed.

(** C8: Flush lets the consumer finish: after [DecodePacket] of an
    empty payload returns, the consumer can take every surface still
    queued, in order, and then sees the end of the stream instead of
    waiting. *)
Theorem flush_then_drain y data nSize ts tb prog s' r :
  sys_wait y = None -> (data = None ∨ nSize = 0) ->
  DecodePacket (sys_sess y) data nSize ts tb prog = FDone s' r ->
  ∃ g y2, m_pFrameQueue s' = Some g ∧ rtc sys_step y y2 ∧ sys_eos y2 = true ∧
          sys_out y2 = sys_out y ++ p_queue (gp_pool g) ∧ sys_wait y2 = None.
Proof.
  intros Hw Hd E.
  rewrite (DecodePacket_empty_is_flush _ _ _ _ _ _ Hd) in E.
  destruct (flush_ends_queue _ _ _ _ _ E eq_refl) as (g & Hq & He).
  set (y1 := {| sys_sess := s'; sys_wait := None; sys_out := sys_out y; sys_frames := sys_frames y;
                sys_eos := sys_eos y |}).
  destruct (consumer_drain y1 g Hq He) as (y2 & R & Heos & Ho & Hw2).
  exists g, y2. split_and!; try done.
  eapply rtc_l; [|exact R]. apply (step_feed y data nSize ts tb prog); [done|].
  by rewrite (DecodePacket_empty_is_flush _ _ _ _ _ _ Hd), E.
Qed.

Lemma pool_reserve_queue p i p' :
  pool_reserve p i = WaitOk p' -> p_queue p' = p_queue p ∧ p_ended p' = p_ended p.
Proof. unfold pool_reserve. pool_cases. intros [= <-]. done. Qed.

(** C29: A failed decode does not reach the consumer: when the engine's
    [cuvidDecodePicture] fails in a packet's decode callback, the packet's
    [DecodePacket] sets the sticky error flag, but with nothing queued the
    consumer's [take_ready] still waits: the queue is not ended. *)
Theorem decode_error_consumer_waits y g bytes nSize ts tb pp e y' :
  sys_wait y = None -> m_pFrameQueue (sys_sess y) = Some g ->
  p_queue (gp_pool g) = [] -> p_ended (gp_pool g) = false ->
  pool_reserve (gp_pool g) (CurrPicIdx pp) ≠ WaitBlocked ->
  e ≠ CUDA_SUCCESS -> nSize ≠ 0 ->
  feed_to y (DecodePacket (sys_sess y) (Some bytes) nSize ts tb
               (PDecode pp (ERet e) (λ _, PEnd (ERet CUDA_SUCCESS)))) = Some y' ->
  sys_step y y' ∧ m_bError (sys_sess y') = true ∧ consumer_take y' = None.
Proof.
  intros Hw Hq Hqe He Hr Hne Hn Hf. split; [by eapply step_feed|].
  revert Hf. unfold DecodePacket, DecodePacket_then. rewrite (proj2 (Z.eqb_neq _ _) Hn).
  unfold parse_call. cbn [run_parse]. unfold DecPictureDecode at 1. simpl. rewrite Hq. simpl.
  unfold gp_wait. destruct (pool_reserve (gp_pool g) (CurrPicIdx pp)) as [p'| | |] eqn:E;
    try done; simpl; rewrite (proj2 (Z.eqb_neq _ _) Hne); simpl; intros [= <-];
    (split; [done|]); unfold consumer_take; simpl.
  all: rewrite ?Hq; unfold pool_take; simpl;
    try (destruct (pool_reserve_queue _ _ _ E) as [Hq' He']; rewrite Hq', He');
    by rewrite Hqe, He.
Qed.

(** ** Witnesses: a run from [InitDecode] *)

Definition sess_start : CuvidDecode gpool :=
  match InitDecode None input_1080p false false env_ok CuvidDecode_new with
  | FDone s _ => s
  | _ => CuvidDecode_new
  end.

Definition y_start : sys :=
  {| sys_sess := sess_start; sys_wait := None; sys_out := []; sys_frames := []; sys_eos := false |}.

(** The feeder's packet: surface 0 decoded and displayed. *)
Definition y_fed : sys :=
  default y_start (feed_to y_start (DecodePacket (sys_sess y_start) (Some [Byte.x00]) 1 0
                                      CUVID_NATIVE_TIMEBASE prog_one_frame)).

(** The consumer takes surface 0, then releases it. *)
Definition y_taken : sys := default y_fed (consumer_take y_fed).
Definition y_released : sys := default y_taken (consumer_release y_taken 0).

Definition queue_of (y : sys) : gpool :=
  default {| gp_pool := pool0 input_1080p; gp_hist := [] |} (m_pFrameQueue (sys_sess y)).

Lemma y_start_init : sys_init input_1080p y_start.
Proof. apply (init_done input_1080p None false false env_ok CuvidDecode_new). vm_compute. reflexivity. Qed.

Lemma y_taken_reachable : reachable input_1080p y_taken.
Proof.
  exists y_start. split; [apply y_start_init|].
  eapply rtc_l; [eapply (step_feed y_start (Some [Byte.x00]) 1 0 CUVID_NATIVE_TIMEBASE prog_one_frame);
                 [reflexivity|vm_compute; reflexivity]|].
  eapply rtc_l; [apply step_take; vm_compute; reflexivity|]. apply rtc_refl.
Qed.

Lemma reachable_inv_witness :
  sys_out y_taken = [0%nat] ∧
  ∃ g, m_pFrameQueue (sys_sess y_taken) = Some g ∧
       gp_pool g = (pool_run (pool0 input_1080p) (gp_hist g)).1 ∧
       sys_out y_taken = taken_of (pool_run (pool0 input_1080p) (gp_hist g)).2 ∧
       m_videoParser (sys_sess y_taken) = true ∧ m_videoDecoder (sys_sess y_taken) = true.
Proof. split; [vm_compute; reflexivity|apply reachable_inv, y_taken_reachable]. Defined.

Lemma reachable_available_witness :
  ∃ g, m_pFrameQueue (sys_sess y_taken) = Some g ∧ pool_wf (gp_pool g) ∧
       p_capacity (gp_pool g) = cnMaximumSize ∧
       p_available (gp_pool g) =
         (cnMaximumSize - (count_state Reserved (gp_pool g) + count_state Ready (gp_pool g)))%nat ∧
       (length (p_queue (gp_pool g)) <= count_state Ready (gp_pool g) <= cnMaximumSize)%nat.
Proof. apply (reachable_available input_1080p), y_taken_reachable. Defined.

Lemma reachable_fifo_witness :
  sys_frames y_taken = [disp 0] ∧
  ∃ g, m_pFrameQueue (sys_sess y_taken) = Some g ∧
       sys_out y_taken ++ p_queue (gp_pool g) = published_of (pool_run (pool0 input_1080p) (gp_hist g)).2 ∧
       sys_frames y_taken ++ queued_infos (gp_pool g) =
         published_infos (pool_run (pool0 input_1080p) (gp_hist g)).2.
Proof. split; [vm_compute; reflexivity|apply (reachable_fifo input_1080p), y_taken_reachable]. Defined.

Lemma reachable_feeder_progress_witness :
  ∃ y', feed_to y_taken (DecodePacket (sys_sess y_taken) None 0 0 CUVID_NATIVE_TIMEBASE
                           (PEnd (ERet CUDA_SUCCESS))) = Some y' ∧ sys_step y_taken y'.
Proof.
  apply (proj1 (reachable_feeder_progress input_1080p y_taken y_taken_reachable)).
  vm_compute. reflexivity.
Defined.

Lemma decode_waits_in_use_witness :
  DecPictureDecode (sys_sess y_taken) (pic 0) (ERet CUDA_SUCCESS) = CBBlocked ∧
  resume (sys_sess y_taken) (pic 0) (ERet CUDA_SUCCESS) (λ _, PEnd (ERet CUDA_SUCCESS)) [] =
    FBlocked (sys_sess y_taken) (pic 0) (ERet CUDA_SUCCESS) (λ _, PEnd (ERet CUDA_SUCCESS)) [].
Proof.
  apply (decode_waits_in_use y_taken (queue_of y_taken) _ _ _ _ 0
           {| fs_state := Ready; fs_info := disp 0 |});
    vm_compute; try reflexivity; discriminate.
Defined.

Lemma release_wakes_decode_witness :
  DecPictureDecode (sys_sess y_released) (pic 0) (ERet CUDA_SUCCESS) ≠ CBBlocked.
Proof.
  apply (release_wakes_decode y_taken (queue_of y_taken) 0); vm_compute; reflexivity.
Defined.

Lemma flush_then_drain_witness :
  ∃ g y2, m_pFrameQueue (default CuvidDecode_new
             (match DecodePacket (sys_sess y_fed) None 0 0 CUVID_NATIVE_TIMEBASE (PEnd (ERet CUDA_SUCCESS))
              with FDone s _ => Some s | _ => None end)) = Some g ∧
          rtc sys_step y_fed y2 ∧ sys_eos y2 = true ∧
          sys_out y2 = sys_out y_fed ++ p_queue (gp_pool g) ∧ sys_wait y2 = None.
Proof.
  eapply (flush_then_drain y_fed None 0 0 CUVID_NATIVE_TIMEBASE (PEnd (ERet CUDA_SUCCESS)) _ 0);
    [vm_compute; reflexivity|by left|vm_compute; reflexivity].
Defined.

Lemma decode_error_consumer_waits_witness :
  let y' := default y_start
              (feed_to y_start (DecodePacket (sys_sess y_start) (Some [Byte.x00]) 1 0 CUVID_NATIVE_TIMEBASE
                                  (PDecode (pic 0) (ERet 1) (λ _, PEnd (ERet CUDA_SUCCESS))))) in
  sys_step y_start y' ∧ m_bError (sys_sess y') = true ∧ consumer_take y' = None.
Proof.
  apply (decode_error_consumer_waits y_start (queue_of y_start) [Byte.x00] 1 0 CUVID_NATIVE_TIMEBASE (pic 0) 1);
    vm_compute; try reflexivity; discriminate.
Defined.

Lemma reachable_grows_witness :
  sys_out y_taken = [0%nat] ∧ grows y_start y_taken.
Proof.
  split; [vm_compute; reflexivity|].
  apply (reachable_grows input_1080p).
  - exists y_start. split; [apply y_start_init|apply rtc_refl].
  - eapply rtc_l; [eapply (step_feed y_start (Some [Byte.x00]) 1 0 CUVID_NATIVE_TIMEBASE prog_one_frame);
                   [reflexivity|vm_compute; reflexivity]|].
    eapply rtc_l; [apply step_take; vm_compute; reflexivity|]. apply rtc_refl.
Defined.

End System.
