(* ===== verification/Consumer.v ===== *)
(** * The consumer's loop

    Section 6 of the spec: the consumer calls [take_ready], reads the
    slot's picture and its display record, releases the slot, and stops
    at [EndOfStream].  This file writes that loop over the system of
    [System] ([consumer_loop], with fuel: one round per [take_ready]) and
    proves that once the stream is ended it terminates: with one round
    per queued surface and one more, it returns having received every
    queued surface with its record, in order, released them all, and seen
    the end of the stream; each round is a step of the interleaving. *)

From S2P Require Import Prelude Engine QueueIntf FrameQueue Timestamp Session Lifecycle SessionSpec System.
From stdpp Require Import relations.
Import Pool System.

Local Open Scope Z_scope.
Unset Default Proof Using.

Module Consumer.

(** One [take_ready]: a slot is read and released, and the loop goes on;
    [EndOfStream] ends it; a [take_ready] that would wait gives up the
    round ([None]), as does a failed release. *)
Fixpoint consumer_loop (fuel : nat) (y : sys) : option sys :=
  match fuel with
  | O => None
  | S fuel' =>
      match m_pFrameQueue (sys_sess y) with
      | Some g =>
          match pool_take (gp_pool g) with
          | Taken n _ _ =>
              match consumer_take y with
              | Some y1 =>
                  match consumer_release y1 n with
                  | Some y2 => consumer_loop fuel' y2
                  | None => None
                  end
              | None => None
              end
          | TakeEndOfStream => consumer_take y
          | TakeBlocked => None
          end
      | None => None
      end
  end.

(** ** Lemmas *)

Lemma reachable_step input y y' : reachable input y -> sys_step y y' -> reachable input y'.
Proof. intros (y0 & Hi & R) Hs. exists y0. split; [done|]. by eapply rtc_r. Qed.

(** The slot [take_ready] handed out can be released: it is [Ready] and
    no longer queued. *)
Lemma pool_release_taken p m rest sl :
  pool_wf p -> p_queue p = m :: rest -> p_slots p !! m = Some sl ->
  pool_release {| p_capacity := p_capacity p; p_width := p_width p; p_height := p_height p;
                  p_slots := p_slots p; p_available := p_available p;
                  p_queue := rest; p_ended := p_ended p |} m =
  Some (set_slot {| p_capacity := p_capacity p; p_width := p_width p; p_height := p_height p;
                    p_slots := p_slots p; p_available := p_available p;
                    p_queue := rest; p_ended := p_ended p |} m
          {| fs_state := Free; fs_info := fs_info sl |} (S (p_available p)) rest).
Proof.
  intros Hwf Hq Hm. unfold pool_release. simpl. rewrite Hm.
  pose proof (wf_queue_ready p Hwf m) as Hr. rewrite Hq, Hm in Hr.
  pose proof (wf_queue_nodup p Hwf) as Hn. rewrite Hq in Hn. apply NoDup_cons in Hn as [Hn _].
  rewrite decide_True; [done|]. split; [|done].
  specialize (Hr ltac:(by left)). by simplify_eq/=.
Qed.

(** One round on a reachable state with the head [m] queued: two steps of
    the interleaving, the surface and its record received, [m] released. *)
Lemma consumer_round input y g m rest :
  reachable input y -> m_pFrameQueue (sys_sess y) = Some g -> p_queue (gp_pool g) = m :: rest ->
  ∃ y2 g2, (∃ y1, consumer_take y = Some y1 ∧ consumer_release y1 m = Some y2) ∧
    rtc sys_step y y2 ∧ reachable input y2 ∧ m_pFrameQueue (sys_sess y2) = Some g2 ∧
    p_queue (gp_pool g2) = rest ∧ p_ended (gp_pool g2) = p_ended (gp_pool g) ∧
    sys_out y2 = sys_out y ++ [m] ∧ sys_frames y2 = sys_frames y ++ [slot_info (gp_pool g) m] ∧
    queued_infos (gp_pool g2) = slot_info (gp_pool g) <$> rest.
Proof.
  intros Hr Hq Hqm.
  destruct (reachable_pool_wf input y Hr) as (g' & Hq' & Hwf).
  rewrite Hq in Hq'. injection Hq' as <-.
  destruct (p_slots (gp_pool g) !! m) as [sl|] eqn:Hm.
  2:{ pose proof (wf_queue_ready _ Hwf m) as Hx. rewrite Hqm, Hm in Hx. by specialize (Hx ltac:(by left)). }
  assert (Ht : consumer_take y = Some
    {| sys_sess := set_frame_queue (Some (gp_record g
          {| p_capacity := p_capacity (gp_pool g); p_width := p_width (gp_pool g);
             p_height := p_height (gp_pool g); p_slots := p_slots (gp_pool g);
             p_available := p_available (gp_pool g); p_queue := rest;
             p_ended := p_ended (gp_pool g) |} OpTake)) (sys_sess y);
       sys_wait := sys_wait y; sys_out := sys_out y ++ [m];
       sys_frames := sys_frames y ++ [slot_info (gp_pool g) m]; sys_eos := sys_eos y |}).
  { unfold consumer_take. rewrite Hq. unfold pool_take. by rewrite Hqm. }
  eexists _, _. split_and!.
  - eexists. split; [exact Ht|]. unfold consumer_release. simpl.
    rewrite (pool_release_taken _ m rest sl Hwf Hqm Hm). reflexivity.
  - eapply rtc_l; [by apply step_take|]. apply rtc_once. eapply step_release.
    unfold consumer_release. simpl. by rewrite (pool_release_taken _ m rest sl Hwf Hqm Hm).
  - eapply reachable_step; [eapply reachable_step; [exact Hr|by apply step_take]|].
    eapply step_release. unfold consumer_release. simpl.
    by rewrite (pool_release_taken _ m rest sl Hwf Hqm Hm).
  - reflexivity.
  - done.
  - done.
  - done.
  - done.
  - unfold queued_infos. simpl. apply list_fmap_ext. intros i k _.
    by rewrite (slot_info_set_slot _ m sl).
Qed.

(** ** Termination *)

(** C10: The consumer's loop terminates once the stream is ended.  From
    any reachable state whose queue is ended, the loop given one round
    per queued surface and one more (or any larger fuel) returns: it has
    received every queued surface, in queue order, with the display
    record each was published with, released each of them, and seen
    [EndOfStream]; every round is a step of the interleaving. *)
Theorem consumer_loop_terminates input y g fuel :
  reachable input y -> m_pFrameQueue (sys_sess y) = Some g -> p_ended (gp_pool g) = true ->
  (S (length (p_queue (gp_pool g))) <= fuel)%nat ->
  ∃ y', consumer_loop fuel y = Some y' ∧ rtc sys_step y y' ∧ sys_eos y' = true ∧
        sys_out y' = sys_out y ++ p_queue (gp_pool g) ∧
        sys_frames y' = sys_frames y ++ queued_infos (gp_pool g).
Proof.
  unfold queued_infos. remember (p_queue (gp_pool g)) as q eqn:Eq. revert y g fuel Eq.
  induction q as [|m rest IH]; intros y g [|fuel] Eq Hr Hq He Hf; simpl in Hf; [lia| |lia|].
  - simpl. rewrite Hq. unfold pool_take. rewrite <-Eq, He.
    eexists. split_and!; [unfold consumer_take; rewrite Hq; unfold pool_take; by rewrite <-Eq, He| | |
                          simpl; by rewrite app_nil_r|simpl; by rewrite app_nil_r]; [|done].
    apply rtc_once, step_take. unfold consumer_take. rewrite Hq. unfold pool_take. by rewrite <-Eq, He.
  - destruct (consumer_round input y g m rest Hr Hq (eq_sym Eq))
      as (y2 & g2 & (y1 & Ht & Hrel) & R & Hr2 & Hq2 & Eq2 & He2 & Ho & Hfr & Hi).
    destruct (IH y2 g2 fuel (eq_sym Eq2) Hr2 Hq2 (eq_trans He2 He) ltac:(lia))
      as (y' & Hl & R' & Heos & Ho' & Hf').
    exists y'. simpl. rewrite Hq. unfold pool_take. rewrite <-Eq, Ht, Hrel.
    split_and!; [done|by etrans|done| |].
    + rewrite Ho', Ho, <-app_assoc. done.
    + rewrite Hf', Hfr, <-app_assoc. unfold queued_infos in Hi. rewrite Eq2 in Hi. by rewrite Hi.
Qed.

(** ** Witness: the run of [System] flushed *)

(** After the packet of [y_fed], the feeder flushes. *)
Definition y_flushed : sys :=
  default y_fed (feed_to y_fed (DecodePacket (sys_sess y_fed) None 0 0 CUVID_NATIVE_TIMEBASE
                                  (PEnd (ERet CUDA_SUCCESS)))).

Lemma y_flushed_reachable : reachable input_1080p y_flushed.
Proof.
  exists y_start. split; [apply y_start_init|].
  eapply rtc_l; [eapply (step_feed y_start (Some [Byte.x00]) 1 0 CUVID_NATIVE_TIMEBASE prog_one_frame);
                 [reflexivity|vm_compute; reflexivity]|].
  eapply rtc_l; [eapply (step_feed y_fed None 0 0 CUVID_NATIVE_TIMEBASE (PEnd (ERet CUDA_SUCCESS)));
                 [reflexivity|vm_compute; reflexivity]|].
  apply rtc_refl.
Qed.

Lemma consumer_loop_terminates_witness :
  p_queue (gp_pool (queue_of y_flushed)) = [0%nat] ∧
  ∃ y', consumer_loop 2 y_flushed = Some y' ∧ rtc sys_step y_flushed y' ∧ sys_eos y' = true ∧
        sys_out y' = sys_out y_flushed ++ p_queue (gp_pool (queue_of y_flushed)) ∧
        sys_frames y' = sys_frames y_flushed ++ queued_infos (gp_pool (queue_of y_flushed)).
Proof.
  split; [vm_compute; reflexivity|].
  apply (consumer_loop_terminates input_1080p y_flushed (queue_of y_flushed) 2 y_flushed_reachable);
    vm_compute; [reflexivity|reflexivity|lia].
Defined.

End Consumer.
