(* ===== verification/Progress.v ===== *)
(** * Progress of a feeder waiting in a decode callback

    When the engine asks, in a decode callback, for a surface that is in
    use, [waitUntilFrameAvailable] makes the feeder wait inside
    [DecodePacket] (the state [sys_wait] of [System]).  Who can end the
    wait?  The feeder cannot: it is blocked.  This file answers by the
    surface's state.

    - The surface is [Ready] (published, queued or held by the consumer):
      the consumer alone, by taking the queued surfaces up to it and
      releasing it, makes the decode callback go on
      ([consumer_unblocks_feeder]).
    - The surface is [Reserved] (decoded into, not yet displayed): only
      the feeder's own display callback would publish it, and only the
      feeder's [FlushParser] ends the queue, so no step of the system
      ever ends the wait ([feeder_deadlock]).  The spec asks that a
      blocked party can always be cancelled by [mark_ended]; the code
      calls [endDecode] only from [FlushParser], on the feeder's side. *)

From S2P Require Import Prelude Engine QueueIntf FrameQueue Timestamp Session Lifecycle SessionSpec System.
From stdpp Require Import relations.
Import Pool System.

Local Open Scope Z_scope.
Unset Default Proof Using.

Module Progress.

(** A step of the consumer alone: a [take_ready] or a [release]. *)
Definition consumer_step (y y' : sys) : Prop :=
  consumer_take y = Some y' ∨ ∃ n, consumer_release y n = Some y'.

(** The feeder waits, in the decode callback [b], for surface [n], which
    is reserved for decode, and the stream is not ended. *)
Definition waits_reserved (b : blocked) (n : nat) (y : sys) : Prop :=
  sys_wait y = Some b ∧
  ∃ g, m_pFrameQueue (sys_sess y) = Some g ∧ p_ended (gp_pool g) = false ∧
       slot_index (gp_pool g) (CurrPicIdx b.1.1.1) = Some n ∧
       fs_state <$> p_slots (gp_pool g) !! n = Some Reserved.

(** ** The decode callback and the reservation *)

Lemma decode_blocked s g pp dec :
  m_pFrameQueue s = Some g -> pool_reserve (gp_pool g) (CurrPicIdx pp) = WaitBlocked ->
  DecPictureDecode s pp dec = CBBlocked.
Proof. intros Hq Hr. unfold DecPictureDecode. simpl. rewrite Hq. simpl. unfold gp_wait. by rewrite Hr. Qed.

Lemma decode_not_blocked s g pp dec :
  m_pFrameQueue s = Some g -> pool_reserve (gp_pool g) (CurrPicIdx pp) ≠ WaitBlocked ->
  DecPictureDecode s pp dec ≠ CBBlocked.
Proof.
  intros Hq Hr. unfold DecPictureDecode. simpl. rewrite Hq. simpl. unfold gp_wait.
  destruct (pool_reserve _ _); try done; by destruct (seh_guard dec).
Qed.

Lemma slot_index_same_slots p p' i :
  length (p_slots p') = length (p_slots p) -> slot_index p' i = slot_index p i.
Proof. intros E. unfold slot_index. by rewrite E. Qed.

(** ** The consumer alone *)

Lemma consumer_step_sys y y' : consumer_step y y' -> sys_step y y'.
Proof. intros [H|[n H]]; [by apply step_take|by eapply step_release]. Qed.

Lemma rtc_consumer_sys y y' : rtc consumer_step y y' -> rtc sys_step y y'.
Proof. induction 1; [done|]. eapply rtc_l; [by apply consumer_step_sys|done]. Qed.

(** The consumer takes the queued surfaces [l] in order: the pool keeps
    its slots, count and end flag, the feeder keeps waiting. *)
Lemma consumer_take_prefix y g l rest :
  m_pFrameQueue (sys_sess y) = Some g -> p_queue (gp_pool g) = l ++ rest ->
  ∃ y' g', rtc consumer_step y y' ∧ m_pFrameQueue (sys_sess y') = Some g' ∧
    gp_pool g' = {| p_capacity := p_capacity (gp_pool g); p_width := p_width (gp_pool g);
                    p_height := p_height (gp_pool g); p_slots := p_slots (gp_pool g);
                    p_available := p_available (gp_pool g); p_queue := rest;
                    p_ended := p_ended (gp_pool g) |} ∧
    sys_wait y' = sys_wait y.
Proof.
  revert y g. induction l as [|m l IH]; intros y g Hq Hl.
  - exists y, g. split_and!; [done|done| |done]. simpl in Hl. rewrite <-Hl.
    by destruct (gp_pool g).
  - set (p1 := {| p_capacity := p_capacity (gp_pool g); p_width := p_width (gp_pool g);
                  p_height := p_height (gp_pool g); p_slots := p_slots (gp_pool g);
                  p_available := p_available (gp_pool g); p_queue := l ++ rest;
                  p_ended := p_ended (gp_pool g) |}).
    set (y1 := {| sys_sess := set_frame_queue (Some (gp_record g p1 OpTake)) (sys_sess y);
                  sys_wait := sys_wait y; sys_out := sys_out y ++ [m];
                  sys_frames := sys_frames y ++ [slot_info (gp_pool g) m]; sys_eos := sys_eos y |}).
    assert (Ht : consumer_take y = Some y1).
    { unfold consumer_take. rewrite Hq. unfold pool_take. by rewrite Hl. }
    destruct (IH y1 (gp_record g p1 OpTake) eq_refl eq_refl) as (y' & g' & R & Hq' & Hp' & Hw').
    exists y', g'. split_and!; [|done|by rewrite Hp'|done].
    eapply rtc_l; [by left|exact R].
Qed.

(** ** Preservation of a wait on a reserved surface *)

Lemma waits_reserved_step b n y y' :
  waits_reserved b n y -> sys_step y y' -> waits_reserved b n y'.
Proof.
  destruct b as [[[pp dec] k] posts]. intros [Hw (g & Hq & He & Hi & Hn)] Hs. simpl in Hi.
  destruct (p_slots (gp_pool g) !! n) as [sl|] eqn:Hsl; simplify_eq/=.
  assert (Hb : DecPictureDecode (sys_sess y) pp dec = CBBlocked).
  { apply (decode_blocked _ g); [done|]. apply (pool_reserve_in_use _ _ n sl); try done; congruence. }
  destruct Hs as [y0 data nSize ts tb prog y1 Hw0 _|y0 pp' dec' k' posts' y1 Hw0 E|y0 y1 E|y0 m y1 E].
  - congruence.
  - rewrite Hw in Hw0. simplify_eq. rewrite (resume_blocked _ _ _ _ _ Hb) in E. simpl in E.
    simplify_eq. split; [done|]. exists g. simpl. rewrite Hsl. split_and!; try done. simpl. by rewrite Hn.
  - revert E. unfold consumer_take. rewrite Hq.
    destruct (pool_take (gp_pool g)) as [m info p'| |] eqn:Ht; intros; simplify_eq/=.
    + split; [done|]. revert Ht. unfold pool_take.
      destruct (p_queue (gp_pool g)); [by destruct (p_ended _)|]. intros [= <- <- <-].
      eexists. split; [reflexivity|]. simpl.
      split_and!; [done|by rewrite (slot_index_same_slots (gp_pool g))|rewrite Hsl; simpl; by rewrite Hn].
    + split; [done|]. exists g. simpl. rewrite Hsl. split_and!; try done. simpl. by rewrite Hn.
  - revert E. unfold consumer_release. rewrite Hq.
    destruct (pool_release (gp_pool g) m) as [p'|] eqn:Hr; intros; simplify_eq/=.
    split; [done|]. revert Hr. unfold pool_release.
    destruct (p_slots (gp_pool g) !! m) as [slm|] eqn:Hm; [|done].
    case_decide as Hc; [|done]. intros [= <-].
    assert (m ≠ n) by (intros ->; rewrite Hm in Hsl; destruct Hc; congruence).
    exists (gp_record g (set_slot (gp_pool g) m {| fs_state := Free; fs_info := fs_info slm |}
                          (S (p_available (gp_pool g))) (p_queue (gp_pool g))) (OpRelease m)).
    simpl. split_and!; [done|done| |].
    + rewrite (slot_index_same_slots (gp_pool g)); [done|]. apply set_slot_length.
    + rewrite list_lookup_insert_ne by done. rewrite Hsl. simpl. by rewrite Hn.
Qed.

Lemma waits_reserved_blocked pp dec k posts n y :
  waits_reserved (pp, dec, k, posts) n y ->
  resume (sys_sess y) pp dec k posts = FBlocked (sys_sess y) pp dec k posts.
Proof.
  intros [_ (g & Hq & He & Hi & Hn)]. simpl in Hi. apply resume_blocked, (decode_blocked _ g); [done|].
  destruct (p_slots (gp_pool g) !! n) as [sl|] eqn:Hsl; simplify_eq/=.
  apply (pool_reserve_in_use _ _ n sl); try done; congruence.
Qed.

(** ** Theorems *)

(** C9: The consumer alone unblocks a feeder waiting for a [Ready]
    surface.  In every reachable state where the feeder waits in a
    decode callback for a surface that is published (queued for the
    consumer or held by it), the consumer, by [take_ready] calls up to
    that surface and a [release] of it, reaches a state where the feeder
    still waits in the same callback and the callback no longer waits. *)
Theorem consumer_unblocks_feeder input y pp dec k posts g n :
  reachable input y -> sys_wait y = Some (pp, dec, k, posts) ->
  m_pFrameQueue (sys_sess y) = Some g -> slot_index (gp_pool g) (CurrPicIdx pp) = Some n ->
  fs_state <$> p_slots (gp_pool g) !! n = Some Ready ->
  ∃ y', rtc consumer_step y y' ∧ sys_wait y' = sys_wait y ∧
        DecPictureDecode (sys_sess y') pp dec ≠ CBBlocked.
Proof.
  intros Hr Hw Hq Hi Hn.
  destruct (reachable_pool_wf input y Hr) as (g0 & Hq0 & Hwf). rewrite Hq in Hq0. injection Hq0 as <-.
  destruct (p_slots (gp_pool g) !! n) as [sl|] eqn:Hsl; simplify_eq/=.
  (* the queued surfaces up to [n], if [n] is queued *)
  assert (∃ l rest, p_queue (gp_pool g) = l ++ rest ∧ n ∉ rest) as (l & rest & Hl & Hnr).
  { destruct (decide (n ∈ p_queue (gp_pool g))) as [Hin|Hout].
    - apply list_elem_of_split in Hin as (l1 & l2 & E). exists (l1 ++ [n]), l2.
      pose proof (wf_queue_nodup _ Hwf) as Hnd. rewrite E in Hnd |- *.
      split; [by rewrite <-app_assoc|]. apply NoDup_app in Hnd as (_ & _ & Hnd).
      by apply NoDup_cons in Hnd as [? _].
    - by exists [], (p_queue (gp_pool g)). }
  destruct (consumer_take_prefix y g l rest Hq Hl) as (y1 & g1 & R & Hq1 & Hp1 & Hw1).
  set (p2 := set_slot (gp_pool g1) n {| fs_state := Free; fs_info := fs_info sl |}
               (S (p_available (gp_pool g1))) (p_queue (gp_pool g1))).
  assert (Hrel : pool_release (gp_pool g1) n = Some p2).
  { unfold pool_release. rewrite Hp1. simpl. rewrite Hsl.
    rewrite decide_True by done. unfold p2. by rewrite Hp1. }
  exists {| sys_sess := set_frame_queue (Some (gp_record g1 p2 (OpRelease n))) (sys_sess y1);
            sys_wait := sys_wait y1; sys_out := sys_out y1; sys_frames := sys_frames y1;
            sys_eos := sys_eos y1 |}.
  split_and!.
  - eapply rtc_r; [exact R|]. right. exists n. unfold consumer_release. by rewrite Hq1, Hrel.
  - done.
  - apply (decode_not_blocked _ (gp_record g1 p2 (OpRelease n))); [done|].
    simpl. apply (pool_release_free (gp_pool g1) n); [done|].
    rewrite (slot_index_same_slots (gp_pool g)); [done|]. by rewrite Hp1.
Qed.

(** C30: A feeder waiting for a [Reserved] surface waits forever.  When
    the feeder waits in a decode callback for a surface reserved for
    decode (decoded into, not yet displayed) and the stream is not ended,
    then in every state the system reaches -- whatever the consumer takes
    or releases and however often the feeder retries -- the feeder still
    waits in the same callback and retrying it waits again: only the
    feeder's own display callback or [FlushParser] could free the
    surface or end the queue. *)
Theorem feeder_deadlock pp dec k posts n y y' :
  waits_reserved (pp, dec, k, posts) n y -> rtc sys_step y y' ->
  sys_wait y' = Some (pp, dec, k, posts) ∧
  resume (sys_sess y') pp dec k posts = FBlocked (sys_sess y') pp dec k posts.
Proof.
  intros Hw R. assert (H : waits_reserved (pp, dec, k, posts) n y').
  { induction R as [y|y y1 y' Hs _ IH]; [done|]. by apply IH, (waits_reserved_step _ _ y). }
  split; [apply H|]. by apply (waits_reserved_blocked _ _ _ _ n).
Qed.

(** ** Witnesses, on the run of [System] *)

(** The engine decodes and displays surface 0, then asks for surface 0
    again: the feeder waits for a surface queued for the consumer. *)
Definition prog_reuse_ready : parse_prog :=
  PDecode (pic 0) (ERet CUDA_SUCCESS) (λ _, PDisplay (disp 0) (λ _,
  PDecode (pic 0) (ERet CUDA_SUCCESS) (λ _, PEnd (ERet CUDA_SUCCESS)))).

(** The engine decodes and displays surface 0, decodes into surface 1,
    then asks for surface 1 again before displaying it. *)
Definition prog_reuse_reserved : parse_prog :=
  PDecode (pic 0) (ERet CUDA_SUCCESS) (λ _, PDisplay (disp 0) (λ _,
  PDecode (pic 1) (ERet CUDA_SUCCESS) (λ _,
  PDecode (pic 1) (ERet CUDA_SUCCESS) (λ _, PEnd (ERet CUDA_SUCCESS))))).

Definition feed_prog (prog : parse_prog) : sys :=
  default y_start (feed_to y_start (DecodePacket (sys_sess y_start) (Some [Byte.x00]) 1 0
                                      CUVID_NATIVE_TIMEBASE prog)).

(** The consumer takes surface 0 and releases it. *)
Definition y_dead_released : sys :=
  let y := feed_prog prog_reuse_reserved in
  default y (consumer_take y ≫= λ y1, consumer_release y1 0).

Lemma feed_prog_reachable prog :
  sys_wait y_start = None ->
  feed_to y_start (DecodePacket (sys_sess y_start) (Some [Byte.x00]) 1 0 CUVID_NATIVE_TIMEBASE prog)
    = Some (feed_prog prog) ->
  reachable input_1080p (feed_prog prog).
Proof.
  intros Hw E. exists y_start. split; [apply y_start_init|].
  apply rtc_once. eapply (step_feed y_start (Some [Byte.x00]) 1 0 CUVID_NATIVE_TIMEBASE prog); done.
Qed.

Lemma consumer_unblocks_feeder_witness :
  sys_wait (feed_prog prog_reuse_ready) =
    Some (pic 0, ERet CUDA_SUCCESS, λ _, PEnd (ERet CUDA_SUCCESS), []) ∧
  ∃ y', rtc consumer_step (feed_prog prog_reuse_ready) y' ∧
        sys_wait y' = sys_wait (feed_prog prog_reuse_ready) ∧
        DecPictureDecode (sys_sess y') (pic 0) (ERet CUDA_SUCCESS) ≠ CBBlocked.
Proof.
  split; [vm_compute; reflexivity|].
  apply (consumer_unblocks_feeder input_1080p (feed_prog prog_reuse_ready) (pic 0) (ERet CUDA_SUCCESS)
           (λ _, PEnd (ERet CUDA_SUCCESS)) [] (queue_of (feed_prog prog_reuse_ready)) 0).
  - apply feed_prog_reachable; vm_compute; reflexivity.
  - vm_compute. reflexivity.
  - vm_compute. reflexivity.
  - vm_compute. reflexivity.
  - vm_compute. reflexivity.
Defined.

Lemma feeder_deadlock_witness :
  sys_wait y_dead_released = Some (pic 1, ERet CUDA_SUCCESS, λ _, PEnd (ERet CUDA_SUCCESS), []) ∧
  resume (sys_sess y_dead_released) (pic 1) (ERet CUDA_SUCCESS) (λ _, PEnd (ERet CUDA_SUCCESS)) [] =
    FBlocked (sys_sess y_dead_released) (pic 1) (ERet CUDA_SUCCESS) (λ _, PEnd (ERet CUDA_SUCCESS)) [].
Proof.
  apply (feeder_deadlock (pic 1) (ERet CUDA_SUCCESS) (λ _, PEnd (ERet CUDA_SUCCESS)) [] 1
           (feed_prog prog_reuse_reserved) y_dead_released).
  - split; [vm_compute; reflexivity|]. exists (queue_of (feed_prog prog_reuse_reserved)).
    vm_compute. split_and!; reflexivity.
  - eapply rtc_l; [apply step_take; vm_compute; reflexivity|].
    apply rtc_once, (step_release _ 0). vm_compute. reflexivity.
Defined.

End Progress.
